(** * let-me-paginate: pagination engine with a bounded TTL/LRU result cache

    A shallow embedding of the TypeScript sources

      - [application/utils/pagination.utils.ts]   (class [PaginationUtils])
      - [application/services/paginator.service.ts] (class [PaginatorService])
      - [core/paginator.core.ts]                  (class [CorePaginator])
      - [core/simple-cache.ts]                    (class [SimpleCache])
      - [infrastructure/cache/memory-cache.service.ts] (class [MemoryCacheService])
      - [domain/exceptions/pagination.exceptions.ts]

    Conventions of the embedding.

      - A JavaScript [number] that the program uses as an integer (page
        numbers, sizes, indices, timestamps, counters) is a [Z].  Quotients
        are taken in [Q], so [Math.ceil (a / b)] is the exact ceiling.
      - An optional field [f?: t] is an [option t]; [undefined] is [None].
      - [Date.now ()] is an explicit argument [now] of every cache operation.
      - A [Map<string, V>] is an association list in insertion order, which
        is the order in which JavaScript iterates a [Map].
      - [async] methods run to completion; a method that can throw or touches
        the cache backend or the console lives in the monad [Run]. *)

From Stdlib Require Import ZArith QArith Qround Qabs List String Ascii Bool Lia.
From Stdlib Require Import DecimalString Permutation Sorted.
Import ListNotations.
Local Open Scope string_scope.
Local Open Scope Z_scope.

Set Implicit Arguments.

(** ** JavaScript primitives used by the sources *)

Module Js.

(** [x || d] for an optional number: [undefined] and [0] are falsy. *)
Definition or_default (x : option Z) (d : Z) : Z :=
  match x with
  | None => d
  | Some v => if v =? 0 then d else v
  end.

(** Truthiness of an optional boolean ([undefined] and [false] are falsy). *)
Definition truthy_bool (x : option bool) : bool :=
  match x with
  | Some b => b
  | None => false
  end.

(** Truthiness of a [string | undefined]: the empty string is falsy. *)
Definition truthy_string (x : option string) : bool :=
  match x with
  | None => false
  | Some s => negb (String.eqb s EmptyString)
  end.

(** [Number.isInteger]: every number of the embedding is an integer. *)
Definition Number_isInteger (_ : Z) : bool := true.

(** [Number.MAX_SAFE_INTEGER] and [Number.isSafeInteger].  A number of the
    sources is an IEEE-754 binary64 value.  The embedding writes the
    integers among them as [Z], takes sums, differences, products and the
    ceiling of a quotient exactly, and writes a number out in all its
    decimal digits.  That is what the sources compute as long as the
    numbers involved are safe integers; [Binary64] below has the rounded
    operations themselves, and shows where the two part. *)
Definition MAX_SAFE_INTEGER : Z := 2 ^ 53 - 1.

Definition Number_isSafeInteger (n : Z) : bool :=
  Z.abs n <=? MAX_SAFE_INTEGER.

(** [Math.ceil (a / b)], the quotient taken exactly (as binary64 has it
    for safe integers [a] and [b]). *)
Definition Math_ceil_div (a b : Z) : Z :=
  Qceiling (inject_Z a / inject_Z b).

(** [n.toString ()] / template-literal rendering of an integer: all its
    decimal digits, which is the rendering of every safe integer. *)
Definition Number_toString (n : Z) : string :=
  NilEmpty.string_of_int (Z.to_int n).

(** [Array.prototype.slice (start, end)]: negative indices count from the
    end, both bounds are clamped to the length. *)
Definition slice_bound (len i : Z) : Z :=
  if i <? 0 then Z.max (len + i) 0 else Z.min i len.

Definition slice {T : Type} (data : list T) (start end_ : Z) : list T :=
  let len := Z.of_nat (List.length data) in
  let k := slice_bound len start in
  let final := slice_bound len end_ in
  firstn (Z.to_nat (Z.max (final - k) 0)) (skipn (Z.to_nat k) data).

(** [ToInt32], applied by the bit operators [<<] and [&]. *)
Definition ToInt32 (n : Z) : Z :=
  (n + 2 ^ 31) mod 2 ^ 32 - 2 ^ 31.

(** [s.charCodeAt (i)] for every [i], in order. *)
Fixpoint charCodes (s : string) : list Z :=
  match s with
  | EmptyString => []
  | String c rest => Z.of_N (N_of_ascii c) :: charCodes rest
  end.

(** Digits of [toString (36)]. *)
Definition digit36 (d : Z) : ascii :=
  if d <? 10 then ascii_of_N (Z.to_N (48 + d))
  else ascii_of_N (Z.to_N (97 + (d - 10))).

Fixpoint toString36_aux (fuel : nat) (n : Z) (acc : string) : string :=
  match fuel with
  | O => acc
  | S fuel' =>
      let acc' := String (digit36 (n mod 36)) acc in
      if n / 36 =? 0 then acc' else toString36_aux fuel' (n / 36) acc'
  end.

(** [n.toString (36)] for a non-negative integer [n]; the number of digits
    never exceeds the number of bits of [n]. *)
Definition toString36 (n : Z) : string :=
  toString36_aux (S (Z.to_nat (Z.log2 n))) n EmptyString.

(** Property values of the plain objects that are hashed into cache keys. *)
Inductive Value :=
| Undefined
| Number (n : Z)
| Boolean (b : bool).

(** A plain object: its own enumerable properties in creation order. *)
Definition Object := list (string * Value).

Definition Object_keys (obj : Object) : list string := map fst obj.

(** [obj[key]]. *)
Fixpoint property (obj : Object) (key : string) : Value :=
  match obj with
  | [] => Undefined
  | (k, v) :: rest => if String.eqb k key then v else property rest key
  end.

(** [Array.prototype.sort ()] on strings: ascending code-unit order. *)
Fixpoint sort_insert (k : string) (sorted : list string) : list string :=
  match sorted with
  | [] => [k]
  | h :: rest => if String.leb k h then k :: sorted else h :: sort_insert k rest
  end.

Definition sort (keys : list string) : list string :=
  fold_right sort_insert [] keys.

Definition quote (s : string) : string :=
  String "034" (s ++ String "034" EmptyString).

(** The members [JSON.stringify (obj, replacer)] emits for the property
    names listed in the array [replacer], in that order; a property whose
    value is [undefined] is left out. *)
Fixpoint JSON_members (obj : Object) (replacer : list string) : list string :=
  match replacer with
  | [] => []
  | k :: rest =>
      match property obj k with
      | Undefined => JSON_members obj rest
      | Number n => (quote k ++ ":" ++ Number_toString n) :: JSON_members obj rest
      | Boolean b =>
          (quote k ++ ":" ++ (if b then "true" else "false")) :: JSON_members obj rest
      end
  end.

Definition JSON_stringify_object (obj : Object) (replacer : list string) : string :=
  "{" ++ String.concat "," (JSON_members obj replacer) ++ "}".

(** [{ ...obj, [key]: value }] on a plain object whose values are already
    strings: an existing property keeps its place, a new one goes last. *)
Fixpoint assign (obj : list (string * string)) (key value : string)
  : list (string * string) :=
  match obj with
  | [] => [(key, value)]
  | (k, v) :: rest =>
      if String.eqb k key then (k, value) :: rest else (k, v) :: assign rest key value
  end.

Definition hexDigit (d : N) : ascii :=
  if (d <? 10)%N then ascii_of_N (48 + d) else ascii_of_N (65 + (d - 10)).

(** The bytes [URLSearchParams] leaves as they are: ASCII letters and
    digits, [*], [-], [.] and [_]. *)
Definition formSafe (c : ascii) : bool :=
  let n := N_of_ascii c in
  ((48 <=? n) && (n <=? 57) || (65 <=? n) && (n <=? 90)
   || (97 <=? n) && (n <=? 122)
   || (n =? 42) || (n =? 45) || (n =? 46) || (n =? 95))%N.

(** The [application/x-www-form-urlencoded] byte serialiser: a space
    becomes [+], any other byte outside the safe set becomes [%XX]. *)
Fixpoint formEncode (s : string) : string :=
  match s with
  | EmptyString => EmptyString
  | String c rest =>
      let n := N_of_ascii c in
      if formSafe c then String c (formEncode rest)
      else if (n =? 32)%N then String "+" (formEncode rest)
      else String "%" (String (hexDigit (n / 16)) (String (hexDigit (n mod 16))
                                                     (formEncode rest)))
  end.

(** [new URLSearchParams (obj).toString ()]. *)
Definition URLSearchParams_toString (obj : list (string * string)) : string :=
  String.concat "&" (map (fun kv => formEncode (fst kv) ++ "=" ++ formEncode (snd kv)) obj).

End Js.

(** ** Bounds calculator and fingerprint: [PaginationUtils] *)

(** Serialisation of the paginated data, [JSON.stringify (data)].  The item
    type is arbitrary in the sources; the embedding asks for its rendering. *)
Class Serializable (T : Type) := {
  JSON_stringify : list T -> string
}.

(** [NavigationLinks]: each link may be left out. *)
Module Links.
Record NavigationLinks := {
  first : option string;
  previous : option string;
  next : option string;
  last : option string
}.
End Links.
Abbreviation NavigationLinks := Links.NavigationLinks.

Module PaginationUtils.

Definition calculateTotalPages (totalItems pageSize : Z) : Z :=
  if (totalItems <=? 0) || (pageSize <=? 0) then 0
  else Js.Math_ceil_div totalItems pageSize.

Definition calculateStartIndex (page pageSize : Z) : Z :=
  if (page <=? 0) || (pageSize <=? 0) then 0
  else (page - 1) * pageSize.

Definition calculateEndIndex (page pageSize totalItems : Z) : Z :=
  let startIndex := calculateStartIndex page pageSize in
  let endIndex := startIndex + pageSize in
  Z.min endIndex totalItems.

Definition isValidPage (page totalPages : Z) : bool :=
  (page >=? 1) && (page <=? totalPages).

(** One round of the loop body: [hash = (hash << 5) - hash + char;
    hash = hash & hash]. *)
Definition hashStep (hash char : Z) : Z :=
  Js.ToInt32 (Js.ToInt32 (hash * 32) - hash + char).

(** The loop of [hashArray] and [hashObject] over an already serialised
    value, followed by [Math.abs (hash).toString (36)]. *)
Definition hashString (str : string) : string :=
  Js.toString36 (Z.abs (fold_left hashStep (Js.charCodes str) 0)).

Definition hashArray {T} `{Serializable T} (data : list T) : string :=
  hashString (JSON_stringify data).

Definition hashObject (obj : Js.Object) : string :=
  hashString (Js.JSON_stringify_object obj (Js.sort (Js.Object_keys obj))).

Definition generateCacheKey {T} `{Serializable T}
    (data : list T) (config : Js.Object) : string :=
  let dataHash := hashArray data in
  let configHash := hashObject config in
  "pagination:" ++ dataHash ++ ":" ++ configHash.


(** [validatePaginationParams] throws a plain [Error]: [inl] carries its
    message, [inr tt] is a normal return. *)
Definition validatePaginationParams (page pageSize : Z) (maxPageSize : option Z)
  : string + unit :=
  if page <? 1 then inl "Page number must be greater than 0"
  else if pageSize <? 1 then inl "Page size must be greater than 0"
  else
    match maxPageSize with
    | Some m =>
        if negb (m =? 0) && (pageSize >? m) then
          inl ("Page size " ++ Js.Number_toString pageSize
                 ++ " exceeds maximum allowed size of " ++ Js.Number_toString m)
        else inr tt
    | None => inr tt
    end.

(** The inner function [createUrl] of [generateNavigationLinks];
    [queryParams] holds the string forms of its values. *)
Definition createUrl (baseUrl : string) (queryParams : list (string * string))
    (page : Z) : string :=
  let params := Js.assign queryParams "page" (Js.Number_toString page) in
  baseUrl ++ "?" ++ Js.URLSearchParams_toString params.

Definition generateNavigationLinks (currentPage totalPages : Z) (baseUrl : string)
    (queryParams : list (string * string)) : NavigationLinks :=
  let back := currentPage >? 1 in
  let forth := currentPage <? totalPages in
  {| Links.first := if back then Some (createUrl baseUrl queryParams 1) else None;
     Links.previous :=
       if back then Some (createUrl baseUrl queryParams (currentPage - 1)) else None;
     Links.next :=
       if forth then Some (createUrl baseUrl queryParams (currentPage + 1)) else None;
     Links.last :=
       if forth then Some (createUrl baseUrl queryParams totalPages) else None |}.


End PaginationUtils.

(** ** The bounds calculator in the arithmetic of the number type

    [PaginationUtils] above takes the arithmetic of the bounds calculator
    exactly.  This module has the same three functions with every
    arithmetic result rounded as IEEE-754 binary64 rounds it, for
    arguments that are integer-valued numbers. *)

Module Binary64.

(** The nearest integer, a tie going to the even one. *)
Definition roundHalfEven (m : Q) : Z :=
  let f := Qfloor m in
  match (m - inject_Z f ?= 1 # 2)%Q with
  | Lt => f
  | Gt => f + 1
  | Eq => if Z.even f then f else f + 1
  end.

(** The exponent [e] with [2 ^ e <= |x| < 2 ^ (e + 1)], for [x] other
    than zero. *)
Definition exponent (x : Q) : Z :=
  let n := Z.abs (Qnum x) in
  let d := Zpos (Qden x) in
  let e := Z.log2 n - Z.log2 d in
  if (if 0 <=? e then 2 ^ e * d <=? n else d <=? 2 ^ (- e) * n) then e else e - 1.

(** [x * 2 ^ s]. *)
Definition scale (x : Q) (s : Z) : Q :=
  if 0 <=? s then (x * inject_Z (2 ^ s))%Q else (x / inject_Z (2 ^ (- s)))%Q.

(** Rounding to nearest, ties to even, with 53 significant bits and the
    least exponent [-1022] (below it the values lie [2 ^ -1074] apart). *)
Definition nearest (x : Q) : Q :=
  if Qeq_bool x 0 then 0%Q
  else
    let s := 52 - Z.max (exponent x) (-1022) in
    scale (inject_Z (roundHalfEven (scale x s))) (- s).

(** The number an exact result becomes: its rounding, or [None] for an
    infinity, when the rounding reaches [2 ^ 1024]. *)
Definition number (x : Q) : option Q :=
  let r := nearest x in
  if Qle_bool (inject_Z (2 ^ 1024)) (Qabs r) then None else Some r.

(** The same for an exact result that is an integer; the rounding of an
    integer is an integer. *)
Definition integer (n : Z) : option Z :=
  option_map Qfloor (number (inject_Z n)).

Definition calculateTotalPages (totalItems pageSize : Z) : option Z :=
  if (totalItems <=? 0) || (pageSize <=? 0) then Some 0
  else option_map Qceiling (number (inject_Z totalItems / inject_Z pageSize)).

Definition calculateStartIndex (page pageSize : Z) : option Z :=
  if (page <=? 0) || (pageSize <=? 0) then Some 0
  else
    match integer (page - 1) with
    | Some previous => integer (previous * pageSize)
    | None => None
    end.

(** [Math.min] of an infinity and [totalItems] is [totalItems]. *)
Definition calculateEndIndex (page pageSize totalItems : Z) : Z :=
  match calculateStartIndex page pageSize with
  | Some startIndex =>
      match integer (startIndex + pageSize) with
      | Some endIndex => Z.min endIndex totalItems
      | None => totalItems
      end
  | None => totalItems
  end.

End Binary64.


(** ** Exceptions: [pagination.exceptions.ts] *)

Inductive Exception :=
| InvalidPaginationConfigException (message : string)
| PageNotFoundException (page totalPages : Z)
| InvalidPageSizeException (pageSize : Z) (maxPageSize : option Z)
| CacheBackendError (message : string).

(** The text handed to [super (message, code)] by each constructor. *)
Definition message (e : Exception) : string :=
  match e with
  | InvalidPaginationConfigException msg => msg
  | PageNotFoundException page totalPages =>
      "Page " ++ Js.Number_toString page ++ " not found. Valid pages are 1 to "
        ++ Js.Number_toString totalPages
  | InvalidPageSizeException pageSize maxPageSize =>
      match maxPageSize with
      | Some m =>
          if m =? 0
          then "Page size " ++ Js.Number_toString pageSize ++ " must be greater than 0"
          else "Page size " ++ Js.Number_toString pageSize
                 ++ " exceeds maximum allowed size of " ++ Js.Number_toString m
      | None => "Page size " ++ Js.Number_toString pageSize ++ " must be greater than 0"
      end
  | CacheBackendError msg => msg
  end.

Definition code (e : Exception) : string :=
  match e with
  | InvalidPaginationConfigException _ => "INVALID_PAGINATION_CONFIG"
  | PageNotFoundException _ _ => "PAGE_NOT_FOUND"
  | InvalidPageSizeException _ _ => "INVALID_PAGE_SIZE"
  | CacheBackendError _ => "CACHE_ERROR"
  end.

(** What a call does: it returns a value or throws. *)
Inductive Outcome (A : Type) :=
| Returned (a : A)
| Thrown (e : Exception).
Arguments Returned {A} a.
Arguments Thrown {A} e.

(** ** Data model: [pagination.interface.ts], [cache.interface.ts] *)

Record PaginationConfig := {
  pageSize : Z;
  page : Z;
  maxPageSize : option Z;
  enableCache : option bool;
  cacheTtl : option Z
}.

Module Meta.
Record PaginationMeta := {
  currentPage : Z;
  pageSize : Z;
  totalItems : Z;
  totalPages : Z;
  hasPrevious : bool;
  hasNext : bool;
  firstItemIndex : Z;
  lastItemIndex : Z
}.
End Meta.
Abbreviation PaginationMeta := Meta.PaginationMeta.

Record PaginatedResult (T : Type) := {
  data : list T;
  meta : PaginationMeta;
  fromCache : bool
}.

(** [{ ...cachedResult, fromCache: true }]. *)
Definition markFromCache {T} (r : PaginatedResult T) : PaginatedResult T :=
  {| data := data r; meta := meta r; fromCache := true |}.

(** [PaginatedResultWithLinks]: the three fields of the result, copied by
    [{ ...paginatedResult, links }], and the links, which may be
    [undefined]. *)
Record PaginatedResultWithLinks (T : Type) := {
  result : PaginatedResult T;
  links : option NavigationLinks
}.

(** The [CacheService] interface over a backend whose state has type [S].
    Every method may throw, and each one returns the backend's next state. *)
Record CacheService (S V : Type) := {
  cache_get : string -> S -> Outcome (option V) * S;
  cache_set : string -> V -> Z -> S -> Outcome unit * S;
  cache_delete : string -> S -> Outcome unit * S;
  cache_clear : S -> Outcome unit * S;
  cache_has : string -> S -> Outcome bool * S
}.

(** ** The effects of the engine: exceptions, the backend, the console *)

Record World (S : Type) := {
  backend : S;
  console : list string
}.

Definition Run (S A : Type) : Type := World S -> Outcome A * World S.

Definition ret {S A} (a : A) : Run S A := fun w => (Returned a, w).

Definition throw {S A} (e : Exception) : Run S A := fun w => (Thrown e, w).

Definition bind {S A B} (m : Run S A) (k : A -> Run S B) : Run S B :=
  fun w =>
    match m w with
    | (Returned a, w') => k a w'
    | (Thrown e, w') => (Thrown e, w')
    end.

Notation "x <- m ;; k" := (bind m (fun x => k))
  (at level 61, m at next level, right associativity).
Notation "m ;;; k" := (bind m (fun _ => k))
  (at level 61, right associativity).

(** A pure check that can throw, run inside the engine. *)
Definition lift {S A} (o : Outcome A) : Run S A := fun w => (o, w).

(** [try { m } catch (error) { handler (error) }]. *)
Definition tryCatch {S A} (m : Run S A) (handler : Exception -> Run S A) : Run S A :=
  fun w =>
    match m w with
    | (Returned a, w') => (Returned a, w')
    | (Thrown e, w') => handler e w'
    end.

(** [console.warn (text, error)]. *)
Definition console_warn {S} (text : string) (e : Exception) : Run S unit :=
  fun w =>
    (Returned tt,
     {| backend := backend w; console := console w ++ [text ++ " " ++ message e] |}).

(** A call of a backend method. *)
Definition call {S A} (f : S -> Outcome A * S) : Run S A :=
  fun w =>
    let (r, s') := f (backend w) in
    (r, {| backend := s'; console := console w |}).

(** ** [PaginatorService] (NestJS service) *)

Module PaginatorService.

Definition DEFAULT_PAGE_SIZE : Z := 10.
Definition DEFAULT_MAX_PAGE_SIZE : Z := 100.
Definition DEFAULT_CACHE_TTL : Z := 5 * 60 * 1000.

(** [Partial<PaginationConfig>]: [None] is a property left out. *)
Record PartialConfig := {
  o_pageSize : option Z;
  o_page : option Z;
  o_maxPageSize : option Z;
  o_enableCache : option bool;
  o_cacheTtl : option Z
}.

Definition override {A} (default : A) (o : option A) : A :=
  match o with
  | Some v => v
  | None => default
  end.

Definition createConfig (overrides : PartialConfig) : PaginationConfig :=
  {| page := override 1 (o_page overrides);
     pageSize := override DEFAULT_PAGE_SIZE (o_pageSize overrides);
     maxPageSize := Some (override DEFAULT_MAX_PAGE_SIZE (o_maxPageSize overrides));
     enableCache := Some (override false (o_enableCache overrides));
     cacheTtl := Some (override DEFAULT_CACHE_TTL (o_cacheTtl overrides)) |}.

(** [{ page, pageSize }] as passed by [simplePaginate] and [getAllPages]. *)
Definition pageAndSize (page pageSize : Z) : PartialConfig :=
  {| o_pageSize := Some pageSize; o_page := Some page; o_maxPageSize := None;
     o_enableCache := None; o_cacheTtl := None |}.

(** The configuration is a required, typed argument, so the first test,
    [if (!config)], never fires and is left out. *)
Definition validateConfig (config : PaginationConfig) : Outcome unit :=
  let page := page config in
  let pageSize := pageSize config in
  let maxPageSize := maxPageSize config in
  if negb (Js.Number_isInteger page) || (page <? 1) then
    Thrown (InvalidPaginationConfigException "Page number must be a positive integer")
  else if negb (Js.Number_isInteger pageSize) || (pageSize <? 1) then
    Thrown (InvalidPageSizeException pageSize None)
  else
    let maxSize := Js.or_default maxPageSize DEFAULT_MAX_PAGE_SIZE in
    if pageSize >? maxSize then
      Thrown (InvalidPageSizeException pageSize (Some maxSize))
    else
      match cacheTtl config with
      | Some ttl =>
          if (ttl <? 0) || negb (Js.Number_isInteger ttl) then
            Thrown (InvalidPaginationConfigException
                      "Cache TTL must be a non-negative integer")
          else Returned tt
      | None => Returned tt
      end.

Section Service.

Context {T : Type} `{Serializable T} {St : Type}.

(** The injected, optional [cacheService]. *)
Variable cacheService : option (CacheService St (PaginatedResult T)).

(** Only [page] and [pageSize] of the configuration enter the key. *)
Definition generateCacheKey (data : list T) (config : PaginationConfig) : string :=
  PaginationUtils.generateCacheKey data
    [("page", Js.Number (page config)); ("pageSize", Js.Number (pageSize config))].

(** [config.enableCache && this.cacheService]. *)
Definition cacheInUse (config : PaginationConfig)
  : option (CacheService St (PaginatedResult T)) :=
  if Js.truthy_bool (enableCache config) then cacheService else None.

Definition paginate (data : list T) (config : PaginationConfig)
  : Run St (PaginatedResult T) :=
  lift (validateConfig config) ;;;
  let page := page config in
  let pageSize := pageSize config in
  let totalItems := Z.of_nat (List.length data) in
  cachedResult <-
    match cacheInUse config with
    | Some svc => call (cache_get svc (generateCacheKey data config))
    | None => ret None
    end ;;
  match cachedResult with
  | Some cached => ret (markFromCache cached)
  | None =>
      let totalPages := PaginationUtils.calculateTotalPages totalItems pageSize in
      if (totalPages >? 0) && negb (PaginationUtils.isValidPage page totalPages) then
        throw (PageNotFoundException page totalPages)
      else
        let startIndex := PaginationUtils.calculateStartIndex page pageSize in
        let endIndex := PaginationUtils.calculateEndIndex page pageSize totalItems in
        let pageData := Js.slice data startIndex endIndex in
        let meta :=
          {| Meta.currentPage := page;
             Meta.pageSize := pageSize;
             Meta.totalItems := totalItems;
             Meta.totalPages := totalPages;
             Meta.hasPrevious := page >? 1;
             Meta.hasNext := page <? totalPages;
             Meta.firstItemIndex := if totalItems >? 0 then startIndex + 1 else 0;
             Meta.lastItemIndex := if totalItems >? 0 then endIndex else 0 |} in
        let result := {| data := pageData; meta := meta; fromCache := false |} in
        match cacheInUse config with
        | Some svc =>
            let cacheKey := generateCacheKey data config in
            let ttl := Js.or_default (cacheTtl config) DEFAULT_CACHE_TTL in
            tryCatch (call (cache_set svc cacheKey result ttl))
                     (console_warn "Failed to cache pagination result:")
        | None => ret tt
        end ;;;
        ret result
  end.

Definition simplePaginate (data : list T) (page pageSize : Z)
  : Run St (PaginatedResult T) :=
  paginate data (createConfig (pageAndSize page pageSize)).

(** The body of [for (let page = 1; page <= totalPages; page++)], run for
    the [remaining] iterations that are left when the counter is [page]. *)
Fixpoint getAllPages_from (remaining : nat) (page : Z) (data : list T)
    (pageSize : Z) (pages : list (PaginatedResult T))
  : Run St (list (PaginatedResult T)) :=
  match remaining with
  | O => ret pages
  | S remaining' =>
      result <- paginate data (createConfig (pageAndSize page pageSize)) ;;
      getAllPages_from remaining' (page + 1) data pageSize (pages ++ [result])
  end.

Definition getAllPages (data : list T) (pageSize : Z)
  : Run St (list (PaginatedResult T)) :=
  let totalPages :=
    PaginationUtils.calculateTotalPages (Z.of_nat (List.length data)) pageSize in
  getAllPages_from (Z.to_nat totalPages) 1 data pageSize [].

Definition paginateWithLinks (data : list T) (config : PaginationConfig)
    (baseUrl : string) : Run St (PaginatedResultWithLinks T) :=
  paginatedResult <- paginate data config ;;
  let links :=
    PaginationUtils.generateNavigationLinks
      (page config) (Meta.totalPages (meta paginatedResult)) baseUrl
      [("pageSize", Js.Number_toString (pageSize config))] in
  ret {| result := paginatedResult; links := Some links |}.

End Service.

End PaginatorService.

(** ** [CorePaginator] (framework-free engine) *)

Module CorePaginator.

Definition DEFAULT_PAGE_SIZE : Z := 10.
Definition DEFAULT_MAX_PAGE_SIZE : Z := 100.
Definition DEFAULT_CACHE_TTL : Z := 5 * 60 * 1000.

Module Extended.
Record ExtendedPaginationConfig := {
  page : option Z;
  pageSize : option Z;
  maxPageSize : option Z;
  enableCache : option bool;
  cacheTtl : option Z;
  noPagination : option bool
}.
End Extended.
Abbreviation ExtendedPaginationConfig := Extended.ExtendedPaginationConfig.

Definition normalizeConfig (config : ExtendedPaginationConfig) : PaginationConfig :=
  {| page := Js.or_default (Extended.page config) 1;
     pageSize := Js.or_default (Extended.pageSize config) DEFAULT_PAGE_SIZE;
     maxPageSize := Extended.maxPageSize config;
     enableCache := Extended.enableCache config;
     cacheTtl := Extended.cacheTtl config |}.

(** The configuration is a required, typed argument, so the first test,
    [if (!config)], never fires and is left out. *)
Definition validateConfig (config : PaginationConfig) : Outcome unit :=
  let page := page config in
  let pageSize := pageSize config in
  let maxPageSize := maxPageSize config in
  if negb (Js.Number_isInteger page) || (page <? 1) then
    Thrown (InvalidPaginationConfigException "Page number must be a positive integer")
  else if negb (Js.Number_isInteger pageSize) || (pageSize <? 1) then
    Thrown (InvalidPageSizeException pageSize None)
  else
    let maxSize := Js.or_default maxPageSize DEFAULT_MAX_PAGE_SIZE in
    if pageSize >? maxSize then
      Thrown (InvalidPageSizeException pageSize (Some maxSize))
    else
      match cacheTtl config with
      | Some ttl =>
          if (ttl <? 0) || negb (Js.Number_isInteger ttl) then
            Thrown (InvalidPaginationConfigException
                      "Cache TTL must be a non-negative integer")
          else Returned tt
      | None => Returned tt
      end.

Definition calculateTotalPages (totalItems pageSize : Z) : Z :=
  if (totalItems <=? 0) || (pageSize <=? 0) then 0
  else Js.Math_ceil_div totalItems pageSize.

Definition calculateStartIndex (page pageSize : Z) : Z :=
  if (page <=? 0) || (pageSize <=? 0) then 0
  else (page - 1) * pageSize.

Definition calculateEndIndex (page pageSize totalItems : Z) : Z :=
  let startIndex := calculateStartIndex page pageSize in
  let endIndex := startIndex + pageSize in
  Z.min endIndex totalItems.

Definition isValidPage (page totalPages : Z) : bool :=
  (page >=? 1) && (page <=? totalPages).

Definition optionalNumber (x : option Z) : Js.Value :=
  match x with
  | Some n => Js.Number n
  | None => Js.Undefined
  end.

Definition optionalBoolean (x : option bool) : Js.Value :=
  match x with
  | Some b => Js.Boolean b
  | None => Js.Undefined
  end.

(** The object built by [normalizeConfig], with all five properties. *)
Definition configObject (config : PaginationConfig) : Js.Object :=
  [("page", Js.Number (page config));
   ("pageSize", Js.Number (pageSize config));
   ("maxPageSize", optionalNumber (maxPageSize config));
   ("enableCache", optionalBoolean (enableCache config));
   ("cacheTtl", optionalNumber (cacheTtl config))].

(** [hashArray], [hashObject] and [generateCacheKey] repeat the text of
    their namesakes in [PaginationUtils]. *)
Definition generateCacheKey {T} `{Serializable T}
    (data : list T) (config : Js.Object) : string :=
  let dataHash := PaginationUtils.hashArray data in
  let configHash := PaginationUtils.hashObject config in
  "pagination:" ++ dataHash ++ ":" ++ configHash.

Section Engine.

Context {T : Type} `{Serializable T} {St : Type}.

(** The optional constructor argument [cacheService]. *)
Variable cacheService : option (CacheService St (PaginatedResult T)).

(** [config.enableCache && this.cacheService]. *)
Definition cacheInUse (enableCache : option bool)
  : option (CacheService St (PaginatedResult T)) :=
  if Js.truthy_bool enableCache then cacheService else None.

Definition allDataResult (data : list T) : PaginatedResult T :=
  let n := Z.of_nat (List.length data) in
  {| data := data;
     meta :=
       {| Meta.currentPage := 1;
          Meta.pageSize := n;
          Meta.totalItems := n;
          Meta.totalPages := 1;
          Meta.hasPrevious := false;
          Meta.hasNext := false;
          Meta.firstItemIndex := if n >? 0 then 1 else 0;
          Meta.lastItemIndex := n |};
     fromCache := false |}.

Definition getAllDataSync (data : list T) : PaginatedResult T :=
  allDataResult data.

Definition returnAllData (data : list T) (config : ExtendedPaginationConfig)
  : Run St (PaginatedResult T) :=
  cachedResult <-
    match cacheInUse (Extended.enableCache config) with
    | Some svc =>
        call (cache_get svc
                (generateCacheKey data [("noPagination", Js.Boolean true)]))
    | None => ret None
    end ;;
  match cachedResult with
  | Some cached => ret (markFromCache cached)
  | None =>
      let result := allDataResult data in
      match cacheInUse (Extended.enableCache config) with
      | Some svc =>
          let cacheKey := generateCacheKey data [("noPagination", Js.Boolean true)] in
          let ttl := Js.or_default (Extended.cacheTtl config) DEFAULT_CACHE_TTL in
          tryCatch (call (cache_set svc cacheKey result ttl))
                   (console_warn "Failed to cache all data result:")
      | None => ret tt
      end ;;;
      ret result
  end.

Definition paginateNormal (data : list T) (config : PaginationConfig)
  : Run St (PaginatedResult T) :=
  lift (validateConfig config) ;;;
  let page := page config in
  let pageSize := pageSize config in
  let totalItems := Z.of_nat (List.length data) in
  cachedResult <-
    match cacheInUse (enableCache config) with
    | Some svc => call (cache_get svc (generateCacheKey data (configObject config)))
    | None => ret None
    end ;;
  match cachedResult with
  | Some cached => ret (markFromCache cached)
  | None =>
      let totalPages := calculateTotalPages totalItems pageSize in
      if (totalPages >? 0) && negb (isValidPage page totalPages) then
        throw (PageNotFoundException page totalPages)
      else
        let startIndex := calculateStartIndex page pageSize in
        let endIndex := calculateEndIndex page pageSize totalItems in
        let pageData := Js.slice data startIndex endIndex in
        let meta :=
          {| Meta.currentPage := page;
             Meta.pageSize := pageSize;
             Meta.totalItems := totalItems;
             Meta.totalPages := totalPages;
             Meta.hasPrevious := page >? 1;
             Meta.hasNext := page <? totalPages;
             Meta.firstItemIndex := if totalItems >? 0 then startIndex + 1 else 0;
             Meta.lastItemIndex := if totalItems >? 0 then endIndex else 0 |} in
        let result := {| data := pageData; meta := meta; fromCache := false |} in
        match cacheInUse (enableCache config) with
        | Some svc =>
            let cacheKey := generateCacheKey data (configObject config) in
            let ttl := Js.or_default (cacheTtl config) DEFAULT_CACHE_TTL in
            tryCatch (call (cache_set svc cacheKey result ttl))
                     (console_warn "Failed to cache pagination result:")
        | None => ret tt
        end ;;;
        ret result
  end.

Definition paginate (data : list T) (config : ExtendedPaginationConfig)
  : Run St (PaginatedResult T) :=
  if Js.truthy_bool (Extended.noPagination config) then returnAllData data config
  else
    let normalizedConfig := normalizeConfig config in
    match Extended.pageSize config with
    | Some pageSize =>
        if pageSize <=? 0 then throw (InvalidPageSizeException pageSize None)
        else ret tt
    | None => ret tt
    end ;;;
    match Extended.page config with
    | Some page =>
        if page <=? 0 then
          throw (InvalidPaginationConfigException
                   "Page number must be a positive integer")
        else ret tt
    | None => ret tt
    end ;;;
    paginateNormal data normalizedConfig.

Definition simplePaginate (data : list T) (page pageSize : Z) (enableCache : bool)
  : Run St (PaginatedResult T) :=
  paginate data
    {| Extended.page := Some page;
       Extended.pageSize := Some pageSize;
       Extended.maxPageSize := None;
       Extended.enableCache := Some enableCache;
       Extended.cacheTtl := None;
       Extended.noPagination := Some false |}.

(** [generateNavigationLinks] repeats the text of its namesake in
    [PaginationUtils]. *)
Definition paginateWithLinks (data : list T) (config : ExtendedPaginationConfig)
    (baseUrl : string) : Run St (PaginatedResultWithLinks T) :=
  paginatedResult <- paginate data config ;;
  if Js.truthy_bool (Extended.noPagination config) then
    ret {| result := paginatedResult; links := None |}
  else
    let normalizedConfig := normalizeConfig config in
    let links :=
      PaginationUtils.generateNavigationLinks
        (page normalizedConfig) (Meta.totalPages (meta paginatedResult)) baseUrl
        [("pageSize", Js.Number_toString (pageSize normalizedConfig))] in
    ret {| result := paginatedResult; links := Some links |}.

Definition getAllData (data : list T) (enableCache : bool) (cacheTtl : option Z)
  : Run St (PaginatedResult T) :=
  paginate data
    {| Extended.page := None;
       Extended.pageSize := None;
       Extended.maxPageSize := None;
       Extended.enableCache := Some enableCache;
       Extended.cacheTtl := cacheTtl;
       Extended.noPagination := Some true |}.

Definition smartPaginate (data : list T) (maxItemsBeforePagination pageSize page : Z)
  : Run St (PaginatedResult T) :=
  paginate data
    {| Extended.page := Some page;
       Extended.pageSize := Some pageSize;
       Extended.maxPageSize := None;
       Extended.enableCache := Some false;
       Extended.cacheTtl := None;
       Extended.noPagination :=
         Some (Z.of_nat (List.length data) <=? maxItemsBeforePagination) |}.

End Engine.

End CorePaginator.

(** ** [Map<string, V>]: entries in insertion order *)

Module JsMap.

Definition t (V : Type) : Type := list (string * V).

Definition empty {V} : t V := [].

Fixpoint get {V} (m : t V) (key : string) : option V :=
  match m with
  | [] => None
  | (k, v) :: rest => if String.eqb k key then Some v else get rest key
  end.

Definition has {V} (m : t V) (key : string) : bool :=
  match get m key with
  | Some _ => true
  | None => false
  end.

(** [m.set (key, v)]: an existing key keeps its place, a new one goes last. *)
Fixpoint set {V} (m : t V) (key : string) (v : V) : t V :=
  match m with
  | [] => [(key, v)]
  | (k, x) :: rest =>
      if String.eqb k key then (k, v) :: rest else (k, x) :: set rest key v
  end.

Definition delete {V} (m : t V) (key : string) : t V :=
  filter (fun kv => negb (String.eqb (fst kv) key)) m.

Definition size {V} (m : t V) : Z := Z.of_nat (List.length m).

Definition keys {V} (m : t V) : list string := map fst m.

End JsMap.

Record CacheEntry (V : Type) := {
  value : V;
  expiresAt : Z;
  createdAt : Z
}.

Inductive EvictionStrategy := lru | fifo | lfu.

Record CacheConfig := {
  defaultTtl : Z;
  maxSize : option Z;
  evictionStrategy : option EvictionStrategy
}.

(** ** [MemoryCacheService] *)

Module MemoryCacheService.

(** The three private fields. *)
Record State (V : Type) := {
  cache : JsMap.t (CacheEntry V);
  accessOrder : JsMap.t Z;
  accessCounter : Z
}.

Section Cache.

Context {V : Type}.
Variable config : CacheConfig.

Definition initial : State V :=
  {| cache := JsMap.empty; accessOrder := JsMap.empty; accessCounter := 0 |}.

Definition delete (key : string) (s : State V) : State V :=
  {| cache := JsMap.delete (cache s) key;
     accessOrder := JsMap.delete (accessOrder s) key;
     accessCounter := accessCounter s |}.

(** [this.accessOrder.set (key, ++this.accessCounter)]. *)
Definition touch (key : string) (s : State V) : State V :=
  {| cache := cache s;
     accessOrder := JsMap.set (accessOrder s) key (accessCounter s + 1);
     accessCounter := accessCounter s + 1 |}.

Definition get (now : Z) (key : string) (s : State V) : option V * State V :=
  match JsMap.get (cache s) key with
  | None => (None, s)
  | Some entry =>
      if now >? expiresAt entry then (None, delete key s)
      else (Some (value entry), touch key s)
  end.

(** One iteration of the scan: [lruAccess] starts at [Infinity] ([None]). *)
Definition lruScan (acc : option string * option Z) (entry : string * Z)
  : option string * option Z :=
  let (key, accessTime) := entry in
  let (lruKey, lruAccess) := acc in
  let smaller :=
    match lruAccess with
    | None => true
    | Some least => accessTime <? least
    end in
  if smaller then (Some key, Some accessTime) else (lruKey, lruAccess).

Definition evictLeastRecentlyUsed (s : State V) : State V :=
  if JsMap.size (accessOrder s) =? 0 then s
  else
    let lruKey := fst (fold_left lruScan (accessOrder s) (None, None)) in
    match lruKey with
    | Some key => if Js.truthy_string lruKey then delete key s else s
    | None => s
    end.

Definition set (now : Z) (key : string) (v : V) (ttl : Z) (s : State V) : State V :=
  let entry := {| value := v; expiresAt := now + ttl; createdAt := now |} in
  let full :=
    match maxSize config with
    | Some m =>
        negb (m =? 0) && (JsMap.size (cache s) >=? m) && negb (JsMap.has (cache s) key)
    | None => false
    end in
  let s' := if full then evictLeastRecentlyUsed s else s in
  {| cache := JsMap.set (cache s') key entry;
     accessOrder := JsMap.set (accessOrder s') key (accessCounter s' + 1);
     accessCounter := accessCounter s' + 1 |}.

Definition clear (s : State V) : State V := initial.

Definition has (now : Z) (key : string) (s : State V) : bool * State V :=
  match JsMap.get (cache s) key with
  | None => (false, s)
  | Some entry =>
      if now >? expiresAt entry then (false, delete key s)
      else (true, s)
  end.

Definition cleanupExpired (now : Z) (s : State V) : Z * State V :=
  let expiredKeys :=
    map fst (filter (fun kv => now >? expiresAt (snd kv)) (cache s)) in
  (Z.of_nat (List.length expiredKeys),
   fold_left (fun st key => delete key st) expiredKeys s).

(** A call of one public method, with the clock reading it sees. *)
Inductive Op :=
| Get (now : Z) (key : string)
| Set_ (now : Z) (key : string) (v : V) (ttl : Z)
| Delete (key : string)
| Clear
| Has (now : Z) (key : string)
| CleanupExpired (now : Z).

Definition step (s : State V) (op : Op) : State V :=
  match op with
  | Get now key => snd (get now key s)
  | Set_ now key v ttl => set now key v ttl s
  | Delete key => delete key s
  | Clear => clear s
  | Has now key => snd (has now key s)
  | CleanupExpired now => snd (cleanupExpired now s)
  end.

Definition run (ops : list Op) (s : State V) : State V := fold_left step ops s.

(** The count kept by the loop of [getStats]. *)
Definition expiredCount (now : Z) (s : State V) : Z :=
  Z.of_nat (List.length (filter (fun kv => now >? expiresAt (snd kv)) (cache s))).

(** [getStats ()]: [size], [maxSize], [expiredEntries], [hitRate]; the
    quotient of [hitRate] is taken exactly. *)
Definition getStats (now : Z) (s : State V) : Z * option Z * Z * Q :=
  (JsMap.size (cache s),
   maxSize config,
   expiredCount now s,
   if accessCounter s >? 0
   then (inject_Z (JsMap.size (cache s)) / inject_Z (accessCounter s))%Q
   else 0%Q).

End Cache.

(** The service seen through the [CacheService] interface; the backend
    state carries the reading of the clock. *)
Record Timed (V : Type) := {
  clock : Z;
  store : State V
}.

Definition service {V} (config : CacheConfig) : CacheService (Timed V) V :=
  {| cache_get := fun key b =>
       let (r, s) := get (clock b) key (store b) in
       (Returned r, {| clock := clock b; store := s |});
     cache_set := fun key v ttl b =>
       (Returned tt, {| clock := clock b; store := set config (clock b) key v ttl (store b) |});
     cache_delete := fun key b =>
       (Returned tt, {| clock := clock b; store := delete key (store b) |});
     cache_clear := fun b =>
       (Returned tt, {| clock := clock b; store := clear (store b) |});
     cache_has := fun key b =>
       let (r, s) := has (clock b) key (store b) in
       (Returned r, {| clock := clock b; store := s |}) |}.

End MemoryCacheService.

(** ** [SimpleCache]: the same three fields, [maxSize] always a number *)

Module SimpleCache.

Import MemoryCacheService (State, Build_State, cache, accessOrder, accessCounter).

Section Cache.

Context {V : Type}.

(** The constructor argument, [1000] when left out. *)
Variable maxSize : Z.

Definition initial : State V :=
  {| cache := JsMap.empty; accessOrder := JsMap.empty; accessCounter := 0 |}.

Definition delete (key : string) (s : State V) : State V :=
  {| cache := JsMap.delete (cache s) key;
     accessOrder := JsMap.delete (accessOrder s) key;
     accessCounter := accessCounter s |}.

Definition get (now : Z) (key : string) (s : State V) : option V * State V :=
  match JsMap.get (cache s) key with
  | None => (None, s)
  | Some entry =>
      if now >? expiresAt entry then (None, delete key s)
      else
        (Some (value entry),
         {| cache := cache s;
            accessOrder := JsMap.set (accessOrder s) key (accessCounter s + 1);
            accessCounter := accessCounter s + 1 |})
  end.

Definition evictLeastRecentlyUsed (s : State V) : State V :=
  if JsMap.size (accessOrder s) =? 0 then s
  else
    let lruKey :=
      fst (fold_left MemoryCacheService.lruScan (accessOrder s) (None, None)) in
    match lruKey with
    | Some key => if Js.truthy_string lruKey then delete key s else s
    | None => s
    end.

Definition set (now : Z) (key : string) (v : V) (ttl : Z) (s : State V) : State V :=
  let entry := {| value := v; expiresAt := now + ttl; createdAt := now |} in
  let full := (JsMap.size (cache s) >=? maxSize) && negb (JsMap.has (cache s) key) in
  let s' := if full then evictLeastRecentlyUsed s else s in
  {| cache := JsMap.set (cache s') key entry;
     accessOrder := JsMap.set (accessOrder s') key (accessCounter s' + 1);
     accessCounter := accessCounter s' + 1 |}.

Definition clear (s : State V) : State V := initial.

Definition has (now : Z) (key : string) (s : State V) : bool * State V :=
  match JsMap.get (cache s) key with
  | None => (false, s)
  | Some entry =>
      if now >? expiresAt entry then (false, delete key s)
      else (true, s)
  end.

Inductive Op :=
| Get (now : Z) (key : string)
| Set_ (now : Z) (key : string) (v : V) (ttl : Z)
| Delete (key : string)
| Clear
| Has (now : Z) (key : string).

Definition step (s : State V) (op : Op) : State V :=
  match op with
  | Get now key => snd (get now key s)
  | Set_ now key v ttl => set now key v ttl s
  | Delete key => delete key s
  | Clear => clear s
  | Has now key => snd (has now key s)
  end.

Definition run (ops : list Op) (s : State V) : State V := fold_left step ops s.

(** [getStats ()]: [size], [maxSize], [expiredEntries]. *)
Definition getStats (now : Z) (s : State V) : Z * Z * Z :=
  (JsMap.size (cache s),
   maxSize,
   Z.of_nat (List.length (filter (fun kv => now >? expiresAt (snd kv)) (cache s)))).

End Cache.

(** The class seen through the [CacheService] interface, as
    [MemoryCacheService.service]. *)
Definition service {V} (maxSize : Z) : CacheService (MemoryCacheService.Timed V) V :=
  {| cache_get := fun key b =>
       let (r, s) := get (MemoryCacheService.clock b) key (MemoryCacheService.store b) in
       (Returned r,
        {| MemoryCacheService.clock := MemoryCacheService.clock b;
           MemoryCacheService.store := s |});
     cache_set := fun key v ttl b =>
       (Returned tt,
        {| MemoryCacheService.clock := MemoryCacheService.clock b;
           MemoryCacheService.store :=
             set maxSize (MemoryCacheService.clock b) key v ttl (MemoryCacheService.store b) |});
     cache_delete := fun key b =>
       (Returned tt,
        {| MemoryCacheService.clock := MemoryCacheService.clock b;
           MemoryCacheService.store := delete key (MemoryCacheService.store b) |});
     cache_clear := fun b =>
       (Returned tt,
        {| MemoryCacheService.clock := MemoryCacheService.clock b;
           MemoryCacheService.store := clear (MemoryCacheService.store b) |});
     cache_has := fun key b =>
       let (r, s) := has (MemoryCacheService.clock b) key (MemoryCacheService.store b) in
       (Returned r,
        {| MemoryCacheService.clock := MemoryCacheService.clock b;
           MemoryCacheService.store := s |}) |}.

End SimpleCache.

(** ** [index.ts]: [createPaginator], [quickPaginate] *)

Module Index.

Module Options.
Record PaginatorOptions := {
  enableCache : option bool;
  maxCacheSize : option Z
}.

Record QuickOptions := {
  quick_enableCache : option bool;
  noPagination : option bool;
  maxItemsBeforePagination : option Z
}.
End Options.

(** [createPaginator (options)]: the cache handed to the new
    [CorePaginator], a new [SimpleCache] or [undefined]. *)
Definition createPaginator {T} (options : option Options.PaginatorOptions)
  : option (CacheService (MemoryCacheService.Timed (PaginatedResult T))
              (PaginatedResult T)) :=
  match options with
  | Some o =>
      if Js.truthy_bool (Options.enableCache o)
      then Some (SimpleCache.service (Js.or_default (Options.maxCacheSize o) 1000))
      else None
  | None => None
  end.

(** [options?.field]. *)
Definition optional {A B} (options : option A) (field : A -> option B) : option B :=
  match options with
  | Some o => field o
  | None => None
  end.

(** [quickPaginate (data, page, pageSize, options)].  The paginator and
    its cache live for this one call; [now] is the clock the cache reads.
    The call yields its outcome and the lines it sent to the console. *)
Definition quickPaginate {T} `{Serializable T} (now : Z) (data : list T)
    (page pageSize : option Z) (options : option Options.QuickOptions)
  : Outcome (PaginatedResult T) * list string :=
  let page := match page with Some p => p | None => 1 end in
  let pageSize := match pageSize with Some p => p | None => 10 end in
  let paginator :=
    createPaginator
      (Some {| Options.enableCache := optional options Options.quick_enableCache;
               Options.maxCacheSize := None |}) in
  let enableCache :=
    match optional options Options.quick_enableCache with
    | Some b => b
    | None => false
    end in
  let fresh :=
    {| backend :=
         {| MemoryCacheService.clock := now;
            MemoryCacheService.store := SimpleCache.initial |};
       console := [] |} in
  let run :=
    if Js.truthy_bool (optional options Options.noPagination) then
      CorePaginator.getAllData paginator data enableCache None
    else
      match optional options Options.maxItemsBeforePagination with
      | Some m =>
          if m =? 0 then CorePaginator.simplePaginate paginator data page pageSize enableCache
          else CorePaginator.smartPaginate paginator data m pageSize page
      | None => CorePaginator.simplePaginate paginator data page pageSize enableCache
      end in
  let (outcome, w) := run fresh in
  (outcome, console w).

End Index.

(** ** Item types used in the examples *)

(** [JSON.stringify] of an array of integers: [[1,2,3]]. *)
#[export] Instance Serializable_Z : Serializable Z := {
  JSON_stringify data := "[" ++ String.concat "," (map Js.Number_toString data) ++ "]"
}.

(** ** Backends used to observe the engine *)

(** A call received by a backend. *)
Inductive CacheCall :=
| GetCall (key : string)
| SetCall (key : string) (ttl : Z).

(** A backend that stores nothing and keeps a journal of its calls. *)
Definition journal {V} : CacheService (list CacheCall) V :=
  {| cache_get := fun key log => (Returned None, (log ++ [GetCall key])%list);
     cache_set := fun key _ ttl log => (Returned tt, (log ++ [SetCall key ttl])%list);
     cache_delete := fun _ log => (Returned tt, log);
     cache_clear := fun log => (Returned tt, log);
     cache_has := fun _ log => (Returned false, log) |}.

(** A backend that answers every lookup with the result it holds and
    rejects every write. *)
Definition readOnly {V} : CacheService V V :=
  {| cache_get := fun _ held => (Returned (Some held), held);
     cache_set := fun _ _ _ held => (Thrown (CacheBackendError "read-only"), held);
     cache_delete := fun _ held => (Thrown (CacheBackendError "read-only"), held);
     cache_clear := fun held => (Thrown (CacheBackendError "read-only"), held);
     cache_has := fun _ held => (Returned true, held) |}.

(** The same configuration with caching switched off. *)
Definition withoutCache (config : PaginationConfig) : PaginationConfig :=
  {| page := page config;
     pageSize := pageSize config;
     maxPageSize := maxPageSize config;
     enableCache := Some false;
     cacheTtl := cacheTtl config |}.

(** A backend that holds nothing and rejects every write. *)
Definition writeFailing {V} : CacheService unit V :=
  {| cache_get := fun _ b => (Returned None, b);
     cache_set := fun _ _ _ b => (Thrown (CacheBackendError "write failed"), b);
     cache_delete := fun _ b => (Returned tt, b);
     cache_clear := fun b => (Returned tt, b);
     cache_has := fun _ b => (Returned false, b) |}.

(** * Vocabulary of the properties *)

(** [r] is the ceiling of the quotient [a / b] of integers, [b] positive. *)
Definition is_ceiling (a b r : Z) : Prop :=
  (r - 1) * b < a <= r * b.

(** The slice of [items] that page number [page] holds. *)
Definition pageSlice {T} (items : list T) (page pageSize : Z) : list T :=
  Js.slice items
    (PaginationUtils.calculateStartIndex page pageSize)
    (PaginationUtils.calculateEndIndex page pageSize (Z.of_nat (List.length items))).

(** The result assembled by [paginate] when it computes the page itself. *)
Definition freshResult {T} (items : list T) (page pageSize : Z) : PaginatedResult T :=
  let totalItems := Z.of_nat (List.length items) in
  let totalPages := PaginationUtils.calculateTotalPages totalItems pageSize in
  let startIndex := PaginationUtils.calculateStartIndex page pageSize in
  let endIndex := PaginationUtils.calculateEndIndex page pageSize totalItems in
  {| data := pageSlice items page pageSize;
     meta :=
       {| Meta.currentPage := page;
          Meta.pageSize := pageSize;
          Meta.totalItems := totalItems;
          Meta.totalPages := totalPages;
          Meta.hasPrevious := page >? 1;
          Meta.hasNext := page <? totalPages;
          Meta.firstItemIndex := if totalItems >? 0 then startIndex + 1 else 0;
          Meta.lastItemIndex := if totalItems >? 0 then endIndex else 0 |};
     fromCache := false |}.

(** What [paginate] does once the configuration is accepted and no cached
    result is used: it rejects a page outside a non-empty range and
    otherwise returns the fresh result. *)
Definition computed {T} (items : list T) (page pageSize : Z)
  : Outcome (PaginatedResult T) :=
  let totalPages :=
    PaginationUtils.calculateTotalPages (Z.of_nat (List.length items)) pageSize in
  if (totalPages >? 0) && negb (PaginationUtils.isValidPage page totalPages)
  then Thrown (PageNotFoundException page totalPages)
  else Returned (freshResult items page pageSize).

(** [totalPages] is the number of pages that [totalItems] items fill at
    [pageSize] items a page: none for an empty collection, and otherwise
    the ceiling of the quotient.  The functions of the program do not
    occur in it. *)
Definition pageCount (totalItems pageSize totalPages : Z) : Prop :=
  (totalItems = 0 /\ totalPages = 0)
  \/ (0 < totalItems /\ is_ceiling totalItems pageSize totalPages).

(** The law of the not-found check for one call, [totalPages] being the
    number of pages of the collection: the call throws
    [PageNotFoundException] exactly when there is at least one page and the
    requested one is outside [1 .. totalPages]; it throws nothing else, and
    the message reports the range [1 .. totalPages] (the numbers written
    out in decimal digits when they are safe integers); and on an empty
    collection it returns the empty page. *)
Definition NotFoundLaw {T} (items : list T) (config : PaginationConfig)
    (out : Outcome (PaginatedResult T)) : Prop :=
  forall totalPages : Z,
    pageCount (Z.of_nat (List.length items)) (pageSize config) totalPages ->
    (out = Thrown (PageNotFoundException (page config) totalPages)
     <-> 0 < totalPages /\ ~ (1 <= page config <= totalPages))
    /\ (forall e, out = Thrown e ->
          e = PageNotFoundException (page config) totalPages
          /\ (Js.Number_isSafeInteger (page config) = true ->
              Js.Number_isSafeInteger totalPages = true ->
              message e = "Page " ++ Js.Number_toString (page config)
                            ++ " not found. Valid pages are 1 to "
                            ++ Js.Number_toString totalPages))
    /\ (items = [] ->
          out = Returned
                  {| data := [];
                     meta :=
                       {| Meta.currentPage := page config;
                          Meta.pageSize := pageSize config;
                          Meta.totalItems := 0;
                          Meta.totalPages := 0;
                          Meta.hasPrevious := page config >? 1;
                          Meta.hasNext := false;
                          Meta.firstItemIndex := 0;
                          Meta.lastItemIndex := 0 |};
                     fromCache := false |}).

(** The values the loop counter of [getAllPages] takes: [n] consecutive
    page numbers starting at [from]. *)
Fixpoint pageNumbers (n : nat) (from : Z) : list Z :=
  match n with
  | O => []
  | S n' => from :: pageNumbers n' (from + 1)
  end.

(** The entry map and the recency map list the same keys in the same
    order. *)
Definition keys_agree {V} (s : MemoryCacheService.State V) : Prop :=
  JsMap.keys (MemoryCacheService.cache s)
  = JsMap.keys (MemoryCacheService.accessOrder s).

(** A call that does not store under the empty string. *)
Definition stores_named_key {V} (op : @MemoryCacheService.Op V) : Prop :=
  match op with
  | MemoryCacheService.Set_ _ key _ _ => key <> EmptyString
  | _ => True
  end.

(** The invariant behind the capacity bound [N]. *)
Definition bounded {V} (N : Z) (s : MemoryCacheService.State V) : Prop :=
  keys_agree s
  /\ Forall (fun k => k <> EmptyString) (JsMap.keys (MemoryCacheService.cache s))
  /\ JsMap.size (MemoryCacheService.cache s) <= N.

(** One call of [set], with the clock reading it sees. *)
Record Insertion (V : Type) := {
  at_time : Z;
  under : string;
  stored : V;
  lifetime : Z
}.

Definition entryOf {V} (i : Insertion V) : CacheEntry V :=
  {| value := stored i; expiresAt := at_time i + lifetime i; createdAt := at_time i |}.

Definition insertAll {V} (config : CacheConfig) (ins : list (Insertion V))
    (s : MemoryCacheService.State V) : MemoryCacheService.State V :=
  fold_left
    (fun st i =>
       MemoryCacheService.set config (at_time i) (under i) (stored i) (lifetime i) st)
    ins s.

(** Keys paired with consecutive values of the access counter. *)
Fixpoint numbered (from : Z) (keys : list string) : JsMap.t Z :=
  match keys with
  | [] => []
  | k :: rest => (k, from) :: numbered (from + 1) rest
  end.

(** The state of a cache that was built by its public methods: both maps
    list the same keys, each key once; every recorded access is a value
    the counter has taken, no two keys share one; and there are no more
    entries than accesses counted. *)
Definition sound {V} (s : MemoryCacheService.State V) : Prop :=
  keys_agree s
  /\ NoDup (JsMap.keys (MemoryCacheService.cache s))
  /\ Forall (fun kv => 1 <= snd kv <= MemoryCacheService.accessCounter s)
       (MemoryCacheService.accessOrder s)
  /\ NoDup (map snd (MemoryCacheService.accessOrder s))
  /\ JsMap.size (MemoryCacheService.cache s) <= MemoryCacheService.accessCounter s.

(** An entry that [now] finds alive. *)
Definition alive {V} (now : Z) (kv : string * CacheEntry V) : bool :=
  negb (now >? expiresAt (snd kv)).

(** The call of [SimpleCache] seen as the call of [MemoryCacheService]. *)
Definition asMemoryOp {V} (op : @SimpleCache.Op V) : @MemoryCacheService.Op V :=
  match op with
  | SimpleCache.Get now key => MemoryCacheService.Get now key
  | SimpleCache.Set_ now key v ttl => MemoryCacheService.Set_ now key v ttl
  | SimpleCache.Delete key => MemoryCacheService.Delete key
  | SimpleCache.Clear => MemoryCacheService.Clear
  | SimpleCache.Has now key => MemoryCacheService.Has now key
  end.

(** The options of [quickPaginate] with [enableCache] left out. *)
Definition withoutQuickCache (options : option Index.Options.QuickOptions)
  : option Index.Options.QuickOptions :=
  match options with
  | Some o =>
      Some {| Index.Options.quick_enableCache := None;
              Index.Options.noPagination := Index.Options.noPagination o;
              Index.Options.maxItemsBeforePagination :=
                Index.Options.maxItemsBeforePagination o |}
  | None => None
  end.

(** The error [CorePaginator.paginate] raises for an explicit page size
    or page that is not positive, before it normalises the configuration. *)
Definition explicitError (config : CorePaginator.ExtendedPaginationConfig)
  : option Exception :=
  let pageError :=
    match CorePaginator.Extended.page config with
    | Some p =>
        if p <=? 0
        then Some (InvalidPaginationConfigException
                     "Page number must be a positive integer")
        else None
    | None => None
    end in
  match CorePaginator.Extended.pageSize config with
  | Some size =>
      if size <=? 0 then Some (InvalidPageSizeException size None) else pageError
  | None => pageError
  end.

(** A digit of base 36 as [toString (36)] writes it: [0-9] or [a-z]. *)
Definition isDigit36 (c : ascii) : bool :=
  let n := N_of_ascii c in
  ((48 <=? n) && (n <=? 57) || (97 <=? n) && (n <=? 122))%N.

Fixpoint allDigits36 (s : string) : bool :=
  match s with
  | EmptyString => true
  | String c rest => isDigit36 c && allDigits36 rest
  end.

(** A non-empty word over [0-9a-z], as the pattern [[a-z0-9]+]. *)
Definition isBase36 (s : string) : bool :=
  negb (String.eqb s EmptyString) && allDigits36 s.

(** A list of strings in ascending code-unit order. *)
Definition ascending (l : list string) : Prop :=
  StronglySorted (fun a b => String.leb a b = true) l.

(** * Properties *)

(** ** Bounds calculator *)

Lemma Math_ceil_div_eq (a b : Z) :
  0 < b -> Js.Math_ceil_div a b = (a + b - 1) / b.
Proof.
  intros Hb. unfold Js.Math_ceil_div.
  set (x := (inject_Z a / inject_Z b)%Q).
  set (r := (a + b - 1) / b).
  assert (HbQ : (0 < inject_Z b)%Q) by (change 0%Q with (inject_Z 0); rewrite <- Zlt_Qlt; exact Hb).
  assert (Hdiv : b * r <= a + b - 1 < b * (r + 1)).
  { unfold r. pose proof (Z.mul_div_le (a + b - 1) b Hb).
    pose proof (Z.mul_succ_div_gt (a + b - 1) b Hb). lia. }
  assert (Hup : (x <= inject_Z r)%Q).
  { apply Qle_shift_div_r; [exact HbQ|].
    rewrite <- inject_Z_mult, <- Zle_Qle. nia. }
  assert (Hlow : (inject_Z (r - 1) < x)%Q).
  { apply Qlt_shift_div_l; [exact HbQ|].
    rewrite <- inject_Z_mult, <- Zlt_Qlt. nia. }
  assert (H1 : Qceiling x <= r).
  { rewrite <- (Qceiling_Z r). apply Qceiling_resp_le. exact Hup. }
  assert (H2 : r - 1 < Qceiling x).
  { rewrite Zlt_Qlt. eapply Qlt_le_trans; [exact Hlow|apply Qle_ceiling]. }
  lia.
Qed.

Lemma Math_ceil_div_is_ceiling (a b : Z) :
  0 < b -> is_ceiling a b (Js.Math_ceil_div a b).
Proof.
  intros Hb. rewrite Math_ceil_div_eq by exact Hb. unfold is_ceiling.
  pose proof (Z.mul_div_le (a + b - 1) b Hb).
  pose proof (Z.mul_succ_div_gt (a + b - 1) b Hb). nia.
Qed.

Lemma is_ceiling_unique (a b r r' : Z) :
  0 < b -> is_ceiling a b r -> is_ceiling a b r' -> r = r'.
Proof. unfold is_ceiling. intros Hb H1 H2. nia. Qed.

(** The private copies in [CorePaginator] compute the same functions. *)
Lemma core_bounds_agree :
  CorePaginator.calculateTotalPages = PaginationUtils.calculateTotalPages
  /\ CorePaginator.calculateStartIndex = PaginationUtils.calculateStartIndex
  /\ CorePaginator.calculateEndIndex = PaginationUtils.calculateEndIndex
  /\ CorePaginator.isValidPage = PaginationUtils.isValidPage.
Proof. repeat split. Qed.

Lemma calculateTotalPages_pos (totalItems pageSize : Z) :
  0 < totalItems -> 0 < pageSize ->
  PaginationUtils.calculateTotalPages totalItems pageSize
  = (totalItems + pageSize - 1) / pageSize.
Proof.
  intros Hi Hp. unfold PaginationUtils.calculateTotalPages.
  destruct (totalItems <=? 0) eqn:E1; [apply Z.leb_le in E1; lia|].
  destruct (pageSize <=? 0) eqn:E2; [apply Z.leb_le in E2; lia|].
  simpl. apply Math_ceil_div_eq. exact Hp.
Qed.

Lemma calculateTotalPages_is_ceiling (totalItems pageSize : Z) :
  0 < totalItems -> 0 < pageSize ->
  is_ceiling totalItems pageSize
    (PaginationUtils.calculateTotalPages totalItems pageSize).
Proof.
  intros Hi Hp. unfold PaginationUtils.calculateTotalPages.
  destruct (totalItems <=? 0) eqn:E1; [apply Z.leb_le in E1; lia|].
  destruct (pageSize <=? 0) eqn:E2; [apply Z.leb_le in E2; lia|].
  simpl. apply Math_ceil_div_is_ceiling. exact Hp.
Qed.

(** ** The arithmetic of the number type

    On safe integers the rounded operations of [Binary64] return the exact
    results. *)

Lemma inject_Z_pos (b : Z) : 0 < b -> (0 < inject_Z b)%Q.
Proof. intros Hb. change 0%Q with (inject_Z 0). rewrite <- Zlt_Qlt. exact Hb. Qed.

Lemma Qle_fraction (p b t : Z) :
  0 < b -> ((inject_Z t <= inject_Z p / inject_Z b)%Q <-> t * b <= p).
Proof.
  intros Hb. destruct b as [|bp|bp]; try lia.
  unfold Qle, Qdiv, Qinv, Qmult, inject_Z. cbn. lia.
Qed.

Lemma Qlt_fraction (p b t : Z) :
  0 < b -> ((inject_Z p / inject_Z b < inject_Z t)%Q <-> p < t * b).
Proof.
  intros Hb. destruct b as [|bp|bp]; try lia.
  unfold Qlt, Qdiv, Qinv, Qmult, inject_Z. cbn. lia.
Qed.

Lemma Qfraction_half (p b f : Z) :
  0 < b -> (inject_Z p / inject_Z b - inject_Z f <= 1 # 2)%Q -> 2 * (p - f * b) <= b.
Proof.
  intros Hb H. destruct b as [|bp|bp]; try lia.
  unfold Qle, Qminus, Qplus, Qopp, Qdiv, Qinv, Qmult, inject_Z in H. cbn in H.
  rewrite ?Pos.mul_1_r, ?Z.mul_1_r in H. lia.
Qed.

Lemma fraction_scaled (x : Q) (a b u : Z) :
  0 < b -> (x == inject_Z a / inject_Z b)%Q ->
  (x * inject_Z u == inject_Z (a * u) / inject_Z b)%Q.
Proof.
  intros Hb Hx. rewrite Hx, inject_Z_mult. field.
  intros Hz. pose proof (inject_Z_pos Hb) as Hpos. rewrite Hz in Hpos.
  discriminate.
Qed.

Lemma roundHalfEven_spec (m : Q) :
  (Binary64.roundHalfEven m = Qfloor m /\ (m - inject_Z (Qfloor m) <= 1 # 2)%Q)
  \/ Binary64.roundHalfEven m = Qfloor m + 1.
Proof.
  unfold Binary64.roundHalfEven. cbv zeta.
  destruct (m - inject_Z (Qfloor m) ?= 1 # 2)%Q eqn:E.
  - apply Qeq_alt in E. destruct (Z.even (Qfloor m)); [left|right; reflexivity].
    split; [reflexivity|]. rewrite E. apply Qle_refl.
  - apply Qlt_alt in E. left. split; [reflexivity|]. apply Qlt_le_weak. exact E.
  - right. reflexivity.
Qed.

Lemma roundHalfEven_integer (m : Q) (k : Z) :
  (m == inject_Z k)%Q -> Binary64.roundHalfEven m = k.
Proof.
  intros Hm. unfold Binary64.roundHalfEven. cbv zeta.
  rewrite (Qfloor_comp _ _ Hm), Qfloor_Z.
  assert (E : (m - inject_Z k ?= 1 # 2)%Q = Lt).
  { apply Qlt_alt. rewrite Hm.
    setoid_replace (inject_Z k - inject_Z k)%Q with 0%Q by ring. reflexivity. }
  rewrite E. reflexivity.
Qed.

Lemma exponent_lower (x : Q) :
  (0 < x)%Q -> 0 <= Binary64.exponent x ->
  (inject_Z (2 ^ Binary64.exponent x) <= x)%Q.
Proof.
  destruct x as [n d]. unfold Qlt. cbn [Qnum Qden]. intros Hn.
  assert (Hpos : 0 < n) by lia.
  unfold Binary64.exponent. cbn [Qnum Qden]. rewrite (Z.abs_eq n) by lia.
  set (e := Z.log2 n - Z.log2 (Z.pos d)).
  pose proof (Z.log2_spec n Hpos) as [Hn1 Hn2].
  pose proof (Z.log2_spec (Z.pos d) (Pos2Z.is_pos d)) as [Hd1 Hd2].
  pose proof (Z.log2_nonneg (Z.pos d)) as Hld.
  destruct (0 <=? e) eqn:Ee.
  - apply Z.leb_le in Ee. destruct (2 ^ e * Z.pos d <=? n) eqn:Et.
    + apply Z.leb_le in Et. intros _. unfold Qle, inject_Z. cbn. lia.
    + intros He. unfold Qle, inject_Z. cbn.
      assert (Hsplit : 2 ^ Z.log2 n = 2 ^ (e - 1) * 2 ^ Z.succ (Z.log2 (Z.pos d))).
      { rewrite <- Z.pow_add_r by lia. f_equal. unfold e. lia. }
      assert (0 < 2 ^ (e - 1)) by (apply Z.pow_pos_nonneg; lia).
      nia.
  - apply Z.leb_gt in Ee. destruct (Z.pos d <=? 2 ^ (- e) * n); intros; lia.
Qed.

Lemma Qlt_fraction_l (p b t : Z) :
  0 < b -> ((inject_Z t < inject_Z p / inject_Z b)%Q <-> t * b < p).
Proof.
  intros Hb. destruct b as [|bp|bp]; try lia.
  unfold Qlt, Qdiv, Qinv, Qmult, inject_Z. cbn. lia.
Qed.

Lemma Qle_fraction_r (p b t : Z) :
  0 < b -> ((inject_Z p / inject_Z b <= inject_Z t)%Q <-> p <= t * b).
Proof.
  intros Hb. destruct b as [|bp|bp]; try lia.
  unfold Qle, Qdiv, Qinv, Qmult, inject_Z. cbn. lia.
Qed.

Lemma scale_up (x : Q) (s : Z) :
  0 <= s -> Binary64.scale x s = (x * inject_Z (2 ^ s))%Q.
Proof.
  intros Hs. unfold Binary64.scale.
  replace (0 <=? s) with true by (symmetry; apply Z.leb_le; exact Hs).
  reflexivity.
Qed.

Lemma scale_down (y : Q) (s : Z) :
  0 <= s -> (Binary64.scale y (- s) == y / inject_Z (2 ^ s))%Q.
Proof.
  intros Hs. unfold Binary64.scale. destruct (0 <=? - s) eqn:E.
  - apply Z.leb_le in E. assert (s = 0) by lia. subst s. cbn.
    unfold Qdiv. change (/ inject_Z 1)%Q with 1%Q. reflexivity.
  - rewrite Z.opp_involutive. reflexivity.
Qed.

Lemma nearest_positive (x : Q) (a b : Z) :
  1 <= a <= 2 ^ 53 - 1 -> 1 <= b <= 2 ^ 53 - 1 ->
  (x == inject_Z a / inject_Z b)%Q ->
  exists s,
    0 <= s /\ b < 2 * 2 ^ s
    /\ (Binary64.nearest x
        == inject_Z (Binary64.roundHalfEven (x * inject_Z (2 ^ s)))
           / inject_Z (2 ^ s))%Q.
Proof.
  intros Ha Hb Hx.
  assert (Hbpos : 0 < b) by lia.
  assert (Hxpos : (0 < x)%Q).
  { rewrite Hx. change 0%Q with (inject_Z 0). apply (Qlt_fraction_l a 0 Hbpos). lia. }
  assert (Hneq : Qeq_bool x 0 = false).
  { destruct (Qeq_bool x 0) eqn:E; [|reflexivity].
    apply Qeq_bool_eq in E. rewrite E in Hxpos. discriminate. }
  set (e := Binary64.exponent x).
  assert (He : 0 <= e -> 2 ^ e * b <= a).
  { intros Hnonneg. apply (Qle_fraction a (2 ^ e) Hbpos).
    rewrite <- Hx. apply exponent_lower; assumption. }
  assert (Hsmall : e <= 52).
  { destruct (Z.le_gt_cases e 52) as [Hle|Hgt]; [exact Hle|].
    assert (Hpow : 2 ^ 53 <= 2 ^ e) by (apply Z.pow_le_mono_r; lia).
    specialize (He ltac:(lia)). nia. }
  exists (52 - Z.max e (-1022)).
  split; [lia|]. split.
  - destruct (Z.le_gt_cases e 0) as [Hle|Hgt].
    + assert (Hpow : 2 ^ 52 <= 2 ^ (52 - Z.max e (-1022)))
        by (apply Z.pow_le_mono_r; lia).
      change (2 ^ 53) with (2 * 2 ^ 52) in Hb. lia.
    + replace (Z.max e (-1022)) with e by lia.
      specialize (He ltac:(lia)).
      assert (Hsplit : 2 ^ 52 = 2 ^ e * 2 ^ (52 - e)).
      { rewrite <- Z.pow_add_r by lia. f_equal. lia. }
      assert (0 < 2 ^ e) by (apply Z.pow_pos_nonneg; lia).
      change (2 ^ 53) with (2 * 2 ^ 52) in Ha. nia.
  - unfold Binary64.nearest. rewrite Hneq. cbv zeta. fold e.
    rewrite (@scale_up x (52 - Z.max e (-1022))) by lia. apply scale_down. lia.
Qed.

Lemma nearest_quotient (x : Q) (a b : Z) :
  1 <= a <= 2 ^ 53 - 1 -> 1 <= b <= 2 ^ 53 - 1 ->
  (x == inject_Z a / inject_Z b)%Q ->
  let c := (a + b - 1) / b in
  (inject_Z (c - 1) < Binary64.nearest x)%Q
  /\ (Binary64.nearest x <= inject_Z c)%Q
  /\ (a = c * b -> (Binary64.nearest x == inject_Z c)%Q).
Proof.
  intros Ha Hb Hx c.
  assert (Hbpos : 0 < b) by lia.
  assert (Hc : (c - 1) * b < a <= c * b).
  { unfold c. pose proof (Z.mul_div_le (a + b - 1) b Hbpos).
    pose proof (Z.mul_succ_div_gt (a + b - 1) b Hbpos). nia. }
  destruct (nearest_positive Ha Hb Hx) as (s & Hs & Hwide & Hnear).
  set (u := 2 ^ s) in *.
  assert (Hu : 0 < u) by (apply Z.pow_pos_nonneg; lia).
  set (m := (x * inject_Z u)%Q) in *.
  assert (Hm : (m == inject_Z (a * u) / inject_Z b)%Q)
    by (apply fraction_scaled; assumption).
  assert (Hexact : a = c * b -> Binary64.roundHalfEven m = c * u).
  { intros Hdiv. apply roundHalfEven_integer. rewrite Hm, Hdiv.
    rewrite !inject_Z_mult. field.
    intros Hz. pose proof (inject_Z_pos Hbpos) as Hpos. rewrite Hz in Hpos.
    discriminate. }
  assert (Hround : (c - 1) * u < Binary64.roundHalfEven m <= c * u).
  { destruct (Z.eq_dec a (c * b)) as [Hdiv|Hrem].
    - rewrite (Hexact Hdiv). nia.
    - assert (Hlow : (inject_Z (Qfloor m) <= inject_Z (a * u) / inject_Z b)%Q)
        by (rewrite <- Hm; apply Qfloor_le).
      assert (Hhigh : (inject_Z (a * u) / inject_Z b < inject_Z (Qfloor m + 1))%Q)
        by (rewrite <- Hm; apply Qlt_floor).
      apply (Qle_fraction (a * u) (Qfloor m) Hbpos) in Hlow.
      apply (Qlt_fraction (a * u) (Qfloor m + 1) Hbpos) in Hhigh.
      destruct (roundHalfEven_spec m) as [[-> Hhalf]| ->].
      + assert (Hhalf' : (inject_Z (a * u) / inject_Z b - inject_Z (Qfloor m)
                          <= 1 # 2)%Q) by (rewrite <- Hm; exact Hhalf).
        apply (Qfraction_half Hbpos) in Hhalf'.
        nia.
      + nia. }
  assert (Huq : (0 < inject_Z u)%Q) by (apply inject_Z_pos; exact Hu).
  split; [|split].
  - rewrite Hnear. apply (Qlt_fraction_l _ (c - 1) Hu). lia.
  - rewrite Hnear. apply (Qle_fraction_r _ c Hu). lia.
  - intros Hdiv. rewrite Hnear, (Hexact Hdiv), inject_Z_mult. field.
    intros Hz. rewrite Hz in Huq. discriminate.
Qed.

Lemma Qceiling_between (r : Q) (c : Z) :
  (inject_Z (c - 1) < r)%Q -> (r <= inject_Z c)%Q -> Qceiling r = c.
Proof.
  intros Hlow Hup.
  assert (H1 : Qceiling r <= c)
    by (rewrite <- (Qceiling_Z c); apply Qceiling_resp_le; exact Hup).
  assert (H2 : c - 1 < Qceiling r)
    by (rewrite Zlt_Qlt; eapply Qlt_le_trans; [exact Hlow|apply Qle_ceiling]).
  lia.
Qed.

Lemma nearest_integer (n : Z) :
  Z.abs n <= 2 ^ 53 - 1 -> (Binary64.nearest (inject_Z n) == inject_Z n)%Q.
Proof.
  intros Hn. unfold Binary64.nearest.
  destruct (Qeq_bool (inject_Z n) 0) eqn:Ez.
  { apply Qeq_bool_eq in Ez. symmetry. exact Ez. }
  assert (Hnz : n <> 0).
  { intros ->. discriminate. }
  cbv zeta.
  assert (He : Binary64.exponent (inject_Z n) = Z.log2 (Z.abs n)).
  { unfold Binary64.exponent. cbn [Qnum Qden inject_Z].
    change (Z.log2 1) with 0. rewrite Z.sub_0_r.
    pose proof (Z.log2_nonneg (Z.abs n)) as Hl.
    replace (0 <=? Z.log2 (Z.abs n)) with true by (symmetry; apply Z.leb_le; exact Hl).
    pose proof (Z.log2_spec (Z.abs n) ltac:(lia)) as [Hlow _].
    replace (2 ^ Z.log2 (Z.abs n) * 1 <=? Z.abs n) with true
      by (symmetry; apply Z.leb_le; lia).
    reflexivity. }
  rewrite He.
  set (e := Z.log2 (Z.abs n)).
  assert (Hnonneg : 0 <= e) by apply Z.log2_nonneg.
  assert (Hsmall : e <= 52).
  { destruct (Z.le_gt_cases e 52) as [Hle|Hgt]; [exact Hle|].
    pose proof (Z.log2_spec (Z.abs n) ltac:(lia)) as [Hlow _]. fold e in Hlow.
    assert (Hpow : 2 ^ 53 <= 2 ^ e) by (apply Z.pow_le_mono_r; lia). lia. }
  replace (Z.max e (-1022)) with e by lia.
  rewrite (@scale_up (inject_Z n) (52 - e)) by lia.
  rewrite scale_down by lia.
  rewrite <- inject_Z_mult.
  rewrite (@roundHalfEven_integer (inject_Z (n * 2 ^ (52 - e))) (n * 2 ^ (52 - e)))
    by reflexivity.
  rewrite inject_Z_mult. field.
  assert (Hu : 0 < 2 ^ (52 - e)) by (apply Z.pow_pos_nonneg; lia).
  intros Hz. pose proof (inject_Z_pos Hu) as Hpos. rewrite Hz in Hpos. discriminate.
Qed.

Lemma number_small (x r : Q) :
  (Binary64.nearest x == r)%Q -> (Qabs r <= inject_Z (2 ^ 53))%Q ->
  exists r', Binary64.number x = Some r' /\ (r' == r)%Q.
Proof.
  intros Hnear Hsmall. unfold Binary64.number. cbv zeta.
  destruct (Qle_bool (inject_Z (2 ^ 1024)) (Qabs (Binary64.nearest x))) eqn:E.
  - apply Qle_bool_iff in E. rewrite Hnear in E.
    pose proof (Qle_trans _ _ _ E Hsmall) as Habs.
    rewrite <- Zle_Qle in Habs.
    assert (2 ^ 53 < 2 ^ 1024) by (apply Z.pow_lt_mono_r; lia). lia.
  - exists (Binary64.nearest x). split; [reflexivity|exact Hnear].
Qed.

Lemma integer_exact (n : Z) :
  Z.abs n <= 2 ^ 53 - 1 -> Binary64.integer n = Some n.
Proof.
  intros Hn. unfold Binary64.integer.
  destruct (@number_small (inject_Z n) (inject_Z n)) as (r & -> & Hr).
  - apply nearest_integer. exact Hn.
  - change (Qabs (inject_Z n)) with (inject_Z (Z.abs n)).
    rewrite <- Zle_Qle. lia.
  - cbn [option_map]. rewrite (Qfloor_comp _ _ Hr), Qfloor_Z. reflexivity.
Qed.

Lemma calculateTotalPages_binary64 (totalItems pageSize : Z) :
  Js.Number_isSafeInteger totalItems = true ->
  Js.Number_isSafeInteger pageSize = true ->
  Binary64.calculateTotalPages totalItems pageSize
  = Some (PaginationUtils.calculateTotalPages totalItems pageSize).
Proof.
  unfold Js.Number_isSafeInteger, Js.MAX_SAFE_INTEGER. rewrite !Z.leb_le.
  intros Ha Hb.
  unfold Binary64.calculateTotalPages, PaginationUtils.calculateTotalPages.
  destruct ((totalItems <=? 0) || (pageSize <=? 0)) eqn:E; [reflexivity|].
  apply orb_false_iff in E. destruct E as [E1 E2].
  apply Z.leb_gt in E1, E2.
  rewrite Math_ceil_div_eq by exact E2.
  set (x := (inject_Z totalItems / inject_Z pageSize)%Q).
  destruct (@nearest_quotient x totalItems pageSize) as (Hlow & Hup & _);
    [lia|lia|reflexivity|].
  cbv zeta in Hlow, Hup.
  set (c := (totalItems + pageSize - 1) / pageSize) in *.
  assert (Hc : 1 <= c <= totalItems).
  { unfold c. split.
    - apply Z.div_le_lower_bound; lia.
    - apply Z.div_le_upper_bound; [lia|]. nia. }
  destruct (@number_small x (Binary64.nearest x)) as (r & -> & Hr).
  - reflexivity.
  - rewrite Qabs_pos.
    + eapply Qle_trans; [exact Hup|]. rewrite <- Zle_Qle. lia.
    + apply Qlt_le_weak. eapply Qle_lt_trans; [|exact Hlow].
      change 0%Q with (inject_Z 0). rewrite <- Zle_Qle. lia.
  - cbn [option_map]. f_equal. rewrite (Qceiling_comp _ _ Hr).
    apply Qceiling_between; assumption.
Qed.

Lemma safe_integer_iff (n : Z) :
  Js.Number_isSafeInteger n = true <-> Z.abs n <= 2 ^ 53 - 1.
Proof. unfold Js.Number_isSafeInteger, Js.MAX_SAFE_INTEGER. apply Z.leb_le. Qed.

Lemma calculateStartIndex_binary64 (page pageSize : Z) :
  Js.Number_isSafeInteger page = true ->
  Js.Number_isSafeInteger pageSize = true ->
  (0 < page -> 0 < pageSize -> page * pageSize <= Js.MAX_SAFE_INTEGER) ->
  Binary64.calculateStartIndex page pageSize
  = Some (PaginationUtils.calculateStartIndex page pageSize).
Proof.
  rewrite !safe_integer_iff. unfold Js.MAX_SAFE_INTEGER. intros Hp Hs Hproduct.
  unfold Binary64.calculateStartIndex, PaginationUtils.calculateStartIndex.
  destruct ((page <=? 0) || (pageSize <=? 0)) eqn:E; [reflexivity|].
  apply orb_false_iff in E. destruct E as [E1 E2]. apply Z.leb_gt in E1, E2.
  specialize (Hproduct E1 E2).
  rewrite integer_exact by lia. apply integer_exact. nia.
Qed.

Lemma calculateEndIndex_binary64 (page pageSize totalItems : Z) :
  Js.Number_isSafeInteger page = true ->
  Js.Number_isSafeInteger pageSize = true ->
  (0 < page -> 0 < pageSize -> page * pageSize <= Js.MAX_SAFE_INTEGER) ->
  Binary64.calculateEndIndex page pageSize totalItems
  = PaginationUtils.calculateEndIndex page pageSize totalItems.
Proof.
  intros Hp Hs Hproduct.
  unfold Binary64.calculateEndIndex, PaginationUtils.calculateEndIndex.
  rewrite calculateStartIndex_binary64 by assumption. cbv zeta.
  rewrite integer_exact; [reflexivity|].
  apply safe_integer_iff in Hp, Hs. unfold Js.MAX_SAFE_INTEGER in Hproduct.
  unfold PaginationUtils.calculateStartIndex.
  destruct ((page <=? 0) || (pageSize <=? 0)) eqn:E; [lia|].
  apply orb_false_iff in E. destruct E as [E1 E2]. apply Z.leb_gt in E1, E2.
  specialize (Hproduct E1 E2). nia.
Qed.

(** C2.  On safe integers the bounds calculator, computed in the
    arithmetic of the number type, meets its defining equations.  Let
    [totalItems], [pageSize] and [page] be safe integers, the product
    [page * pageSize] being one too when both factors are positive.  Then
    [calculateTotalPages] is [0] when either argument is not positive and
    the ceiling of [totalItems / pageSize] otherwise; [calculateStartIndex]
    is [0] when either argument is not positive and [(page - 1) * pageSize]
    otherwise; [calculateEndIndex] is the smaller of
    [startIndex + pageSize] and [totalItems]; and the three results are
    those of the exact functions the engines are embedded with. *)
Theorem bounds_calculator_equations (totalItems pageSize page : Z) :
  Js.Number_isSafeInteger totalItems = true ->
  Js.Number_isSafeInteger pageSize = true ->
  Js.Number_isSafeInteger page = true ->
  (0 < page -> 0 < pageSize -> page * pageSize <= Js.MAX_SAFE_INTEGER) ->
  (totalItems <= 0 \/ pageSize <= 0 ->
     Binary64.calculateTotalPages totalItems pageSize = Some 0)
  /\ (0 < totalItems -> 0 < pageSize ->
        exists totalPages,
          Binary64.calculateTotalPages totalItems pageSize = Some totalPages
          /\ is_ceiling totalItems pageSize totalPages)
  /\ (page <= 0 \/ pageSize <= 0 ->
        Binary64.calculateStartIndex page pageSize = Some 0)
  /\ (0 < page -> 0 < pageSize ->
        Binary64.calculateStartIndex page pageSize = Some ((page - 1) * pageSize))
  /\ (exists startIndex,
        Binary64.calculateStartIndex page pageSize = Some startIndex
        /\ Binary64.calculateEndIndex page pageSize totalItems
           = Z.min (startIndex + pageSize) totalItems)
  /\ Binary64.calculateTotalPages totalItems pageSize
     = Some (PaginationUtils.calculateTotalPages totalItems pageSize)
  /\ Binary64.calculateStartIndex page pageSize
     = Some (PaginationUtils.calculateStartIndex page pageSize)
  /\ Binary64.calculateEndIndex page pageSize totalItems
     = PaginationUtils.calculateEndIndex page pageSize totalItems.
Proof.
  intros Hitems Hsize Hpage Hproduct.
  pose proof (@calculateTotalPages_binary64 _ _ Hitems Hsize) as Htotal.
  pose proof (@calculateStartIndex_binary64 _ _ Hpage Hsize Hproduct) as Hstart.
  pose proof (@calculateEndIndex_binary64 _ _ totalItems Hpage Hsize Hproduct) as Hend.
  split; [|split; [|split; [|split; [|split; [|split; [|split]]]]]];
    try assumption.
  - intros Hle. unfold Binary64.calculateTotalPages.
    destruct (totalItems <=? 0) eqn:E1; [reflexivity|].
    destruct (pageSize <=? 0) eqn:E2; [reflexivity|].
    apply Z.leb_gt in E1, E2. lia.
  - intros Hi Hp. eexists. split; [exact Htotal|].
    apply calculateTotalPages_is_ceiling; assumption.
  - intros Hle. unfold Binary64.calculateStartIndex.
    destruct (page <=? 0) eqn:E1; [reflexivity|].
    destruct (pageSize <=? 0) eqn:E2; [reflexivity|].
    apply Z.leb_gt in E1, E2. lia.
  - intros Hpg Hp. rewrite Hstart. f_equal.
    unfold PaginationUtils.calculateStartIndex.
    destruct (page <=? 0) eqn:E1; [apply Z.leb_le in E1; lia|].
    destruct (pageSize <=? 0) eqn:E2; [apply Z.leb_le in E2; lia|].
    reflexivity.
  - eexists. split; [exact Hstart|]. rewrite Hend. reflexivity.
Qed.

(** Beyond the safe integers the equations fail: the quotient of [2 ^ 54]
    by [3] is rounded to an integer before [Math.ceil] sees it, so that
    [calculateTotalPages] returns one less than the ceiling; and the
    product of the safe integers [94906267] and [94906267] is odd and
    above [2 ^ 53], so that [calculateStartIndex] returns its even
    neighbour. *)
Lemma bounds_calculator_rounds_beyond_safe_integers :
  Binary64.calculateTotalPages (2 ^ 54) 3 = Some 6004799503160661
  /\ ~ is_ceiling (2 ^ 54) 3 6004799503160661
  /\ Binary64.calculateStartIndex 94906268 94906267 = Some 9007199515875288
  /\ (94906268 - 1) * 94906267 = 9007199515875289.
Proof.
  split; [vm_compute; reflexivity|].
  split; [unfold is_ceiling; lia|].
  split; [vm_compute; reflexivity|reflexivity].
Qed.

Lemma bounds_calculator_equations_witness :
  (exists totalPages,
     Binary64.calculateTotalPages 9007199254740991 2 = Some totalPages
     /\ is_ceiling 9007199254740991 2 totalPages)
  /\ Binary64.calculateStartIndex 6 9 = Some ((6 - 1) * 9).
Proof.
  split.
  - apply (proj1 (proj2 (@bounds_calculator_equations 9007199254740991 2 1
                           eq_refl eq_refl eq_refl
                           (fun _ _ => ltac:(vm_compute; discriminate)))));
      lia.
  - apply (proj1 (proj2 (proj2 (proj2
             (@bounds_calculator_equations 50 9 6 eq_refl eq_refl eq_refl
                (fun _ _ => ltac:(vm_compute; discriminate)))))));
      lia.
Defined.

(** ** Slices *)

Lemma firstn_then_skipn {A} (l : list A) (a c : nat) :
  (firstn a l ++ firstn c (skipn a l))%list = firstn (a + c) l.
Proof.
  revert l. induction a as [|a IH]; intros l; [reflexivity|].
  destruct l as [|x l]; simpl.
  - now rewrite firstn_nil.
  - now rewrite IH.
Qed.

(** A slice between two indices inside the array. *)
Lemma slice_inside {A} (l : list A) (a b : Z) :
  0 <= a <= b -> b <= Z.of_nat (List.length l) ->
  Js.slice l a b = firstn (Z.to_nat (b - a)) (skipn (Z.to_nat a) l).
Proof.
  intros Hab Hb. unfold Js.slice, Js.slice_bound.
  destruct (a <? 0) eqn:Ea; [apply Z.ltb_lt in Ea; lia|].
  destruct (b <? 0) eqn:Eb; [apply Z.ltb_lt in Eb; lia|].
  rewrite !Z.min_l by lia. rewrite Z.max_l by lia. reflexivity.
Qed.

Lemma slice_length {A} (l : list A) (a b : Z) :
  0 <= a <= b -> b <= Z.of_nat (List.length l) ->
  Z.of_nat (List.length (Js.slice l a b)) = b - a.
Proof.
  intros Hab Hb. rewrite slice_inside by assumption.
  rewrite length_firstn, length_skipn. lia.
Qed.

(** Slicing the empty array gives the empty array, whatever the bounds. *)
Lemma slice_nil {A} (a b : Z) : Js.slice (@nil A) a b = [].
Proof. unfold Js.slice. rewrite skipn_nil, firstn_nil. reflexivity. Qed.

(** ** The page computed on a cache miss *)

Section Uncached.

Context {T : Type} `{Serializable T} {St : Type}.
Variable cacheService : option (CacheService St (PaginatedResult T)).

Lemma service_paginate_invalid (items : list T) config (w : World St) e :
  PaginatorService.validateConfig config = Thrown e ->
  PaginatorService.paginate cacheService items config w = (Thrown e, w).
Proof.
  intros Hv. unfold PaginatorService.paginate, bind, lift. rewrite Hv. reflexivity.
Qed.

Lemma service_paginate_uncached (items : list T) config (w : World St) :
  PaginatorService.validateConfig config = Returned tt ->
  PaginatorService.cacheInUse cacheService config = None ->
  PaginatorService.paginate cacheService items config w
  = (computed items (page config) (pageSize config), w).
Proof.
  intros Hv Hc. unfold PaginatorService.paginate, bind, lift, computed.
  rewrite Hv, Hc. cbn [ret].
  destruct ((_ >? 0) && negb _); reflexivity.
Qed.

Lemma core_paginateNormal_uncached (items : list T) config (w : World St) :
  CorePaginator.validateConfig config = Returned tt ->
  CorePaginator.cacheInUse cacheService (enableCache config) = None ->
  CorePaginator.paginateNormal cacheService items config w
  = (computed items (page config) (pageSize config), w).
Proof.
  intros Hv Hc. unfold CorePaginator.paginateNormal, bind, lift, computed.
  rewrite Hv, Hc. cbn [ret].
  change CorePaginator.calculateTotalPages with PaginationUtils.calculateTotalPages.
  change CorePaginator.isValidPage with PaginationUtils.isValidPage.
  destruct ((_ >? 0) && negb _); reflexivity.
Qed.

End Uncached.

(** Both validators accept the same configurations. *)
Lemma validateConfig_agree config :
  CorePaginator.validateConfig config = PaginatorService.validateConfig config.
Proof. reflexivity. Qed.

(** A configuration is accepted exactly when [page] and [pageSize] are
    positive, [pageSize] does not exceed the (defaulted) maximum, and the
    TTL, when present, is not negative. *)
Lemma validateConfig_accepts config :
  PaginatorService.validateConfig config = Returned tt <->
  1 <= page config
  /\ 1 <= pageSize config
  /\ pageSize config <= Js.or_default (maxPageSize config) 100
  /\ (forall ttl, cacheTtl config = Some ttl -> 0 <= ttl).
Proof.
  unfold PaginatorService.validateConfig, Js.Number_isInteger,
    PaginatorService.DEFAULT_MAX_PAGE_SIZE.
  cbn [negb orb].
  destruct (page config <? 1) eqn:E1.
  { apply Z.ltb_lt in E1. split; [discriminate|lia]. }
  apply Z.ltb_ge in E1.
  destruct (pageSize config <? 1) eqn:E2.
  { apply Z.ltb_lt in E2. split; [discriminate|lia]. }
  apply Z.ltb_ge in E2.
  destruct (pageSize config >? _) eqn:E3.
  { apply Z.gtb_lt in E3. split; [discriminate|lia]. }
  assert (E3' : pageSize config <= Js.or_default (maxPageSize config) 100)
    by (rewrite Z.gtb_ltb in E3; apply Z.ltb_ge in E3; exact E3).
  destruct (cacheTtl config) as [ttl|].
  - rewrite orb_false_r. destruct (ttl <? 0) eqn:E4.
    + apply Z.ltb_lt in E4. split; [discriminate|].
      intros (_ & _ & _ & Ht). specialize (Ht ttl eq_refl). lia.
    + apply Z.ltb_ge in E4. split; [|reflexivity].
      intros _. repeat split; try assumption. intros t Ht. congruence.
  - split; [|reflexivity]. intros _. repeat split; try assumption. discriminate.
Qed.

(** ** Page-not-found and the empty collection *)

Lemma isValidPage_iff (page totalPages : Z) :
  PaginationUtils.isValidPage page totalPages = true <-> 1 <= page <= totalPages.
Proof.
  unfold PaginationUtils.isValidPage.
  rewrite andb_true_iff, Z.geb_le, Z.leb_le. reflexivity.
Qed.

Lemma calculateTotalPages_nil (pageSize : Z) :
  PaginationUtils.calculateTotalPages 0 pageSize = 0.
Proof. reflexivity. Qed.

Lemma freshResult_nil {T} (page pageSize : Z) :
  1 <= page -> 1 <= pageSize ->
  freshResult (@nil T) page pageSize
  = {| data := [];
       meta :=
         {| Meta.currentPage := page;
            Meta.pageSize := pageSize;
            Meta.totalItems := 0;
            Meta.totalPages := 0;
            Meta.hasPrevious := page >? 1;
            Meta.hasNext := false;
            Meta.firstItemIndex := 0;
            Meta.lastItemIndex := 0 |};
       fromCache := false |}.
Proof.
  intros Hp Hs. unfold freshResult, pageSlice. rewrite slice_nil.
  cbn [List.length Z.of_nat]. rewrite calculateTotalPages_nil.
  replace (page <? 0) with false by (symmetry; apply Z.ltb_ge; lia).
  reflexivity.
Qed.

Lemma pageCount_exists (totalItems pageSize : Z) :
  0 <= totalItems -> 0 < pageSize ->
  pageCount totalItems pageSize
    (PaginationUtils.calculateTotalPages totalItems pageSize).
Proof.
  intros Hi Hp. destruct (Z.eq_dec totalItems 0) as [->|Hnz].
  - left. split; reflexivity.
  - right. split; [lia|]. apply calculateTotalPages_is_ceiling; lia.
Qed.

Lemma pageCount_unique (totalItems pageSize totalPages : Z) :
  0 < pageSize ->
  pageCount totalItems pageSize totalPages ->
  totalPages = PaginationUtils.calculateTotalPages totalItems pageSize.
Proof.
  intros Hp [[-> ->]|[Hpos Hceil]]; [reflexivity|].
  eapply is_ceiling_unique; [exact Hp|exact Hceil|].
  apply calculateTotalPages_is_ceiling; assumption.
Qed.

Lemma computed_law {T} (items : list T) (config : PaginationConfig) :
  1 <= page config -> 1 <= pageSize config ->
  NotFoundLaw items config (computed items (page config) (pageSize config)).
Proof.
  intros Hp Hs totalPages Hcount.
  apply pageCount_unique in Hcount; [|lia]. subst totalPages.
  unfold computed.
  set (totalPages := PaginationUtils.calculateTotalPages _ _).
  assert (Hnil : items = [] -> totalPages = 0) by (intros ->; reflexivity).
  destruct (totalPages >? 0) eqn:Epos.
  - apply Z.gtb_lt in Epos.
    destruct (PaginationUtils.isValidPage (page config) totalPages) eqn:Ev;
      cbn [negb andb].
    + apply isValidPage_iff in Ev.
      split; [split; [discriminate|tauto]|].
      split; [discriminate|]. intros Hi. apply Hnil in Hi. lia.
    + assert (Hn : ~ (1 <= page config <= totalPages)).
      { intros Hin. apply isValidPage_iff in Hin. congruence. }
      split; [split; [intros _; split; assumption|reflexivity]|].
      split.
      * intros e He. injection He as <-. split; [reflexivity|].
        intros _ _. reflexivity.
      * intros Hi. apply Hnil in Hi. lia.
  - assert (Hz : totalPages <= 0).
    { rewrite Z.gtb_ltb in Epos. apply Z.ltb_ge in Epos. exact Epos. }
    cbn [andb].
    split; [split; [discriminate|intros [Hpos _]; lia]|].
    split; [discriminate|].
    intros ->. f_equal. apply freshResult_nil; assumption.
Qed.

(** C3.  With caching disabled, a call whose configuration passes validation
    throws [PageNotFoundException] (carrying the requested page and
    [totalPages], and reporting the range [1 .. totalPages]) if and only if
    [totalPages > 0] and the page is outside [1 .. totalPages]; on an empty
    collection nothing is thrown and the empty page with [totalItems = 0],
    [totalPages = 0], [firstItemIndex = 0], [lastItemIndex = 0] is returned.
    Here [totalPages] is the number of pages of the collection, [0] when
    it is empty and otherwise the ceiling of the number of items over the
    page size, and there is such a number.  This holds of
    [CorePaginator.paginateNormal] and of [PaginatorService.paginate]. *)
Theorem page_not_found_iff_out_of_range
    {T} `{Serializable T} {St}
    (cacheService : option (CacheService St (PaginatedResult T)))
    (items : list T) (config : PaginationConfig) (w : World St) :
  CorePaginator.validateConfig config = Returned tt ->
  Js.truthy_bool (enableCache config) = false ->
  (exists totalPages,
     pageCount (Z.of_nat (List.length items)) (pageSize config) totalPages)
  /\ NotFoundLaw items config
       (fst (CorePaginator.paginateNormal cacheService items config w))
  /\ NotFoundLaw items config
       (fst (PaginatorService.paginate cacheService items config w)).
Proof.
  intros Hv Hoff.
  assert (Hacc := proj1 (validateConfig_accepts config) Hv).
  destruct Hacc as (Hp & Hs & _).
  split.
  { eexists. apply pageCount_exists; lia. }
  rewrite core_paginateNormal_uncached, service_paginate_uncached; try assumption.
  - split; apply computed_law; assumption.
  - unfold PaginatorService.cacheInUse. rewrite Hoff. reflexivity.
  - unfold CorePaginator.cacheInUse. rewrite Hoff. reflexivity.
Qed.

Lemma page_not_found_iff_out_of_range_witness :
  let config :=
    {| page := 7; pageSize := 9; maxPageSize := None;
       enableCache := Some false; cacheTtl := None |} in
  let w := {| backend := tt; console := [] |} in
  fst (CorePaginator.paginateNormal (St := unit) None [1; 2; 3] config w)
  = Thrown (PageNotFoundException 7 1)
  /\ fst (PaginatorService.paginate (St := unit) None [1; 2; 3] config w)
     = Thrown (PageNotFoundException 7 1)
  /\ message (PageNotFoundException 7 1)
     = "Page 7 not found. Valid pages are 1 to 1".
Proof.
  intros config w.
  destruct (@page_not_found_iff_out_of_range Z _ unit None [1; 2; 3] config w
              eq_refl eq_refl) as (_ & Hcore & Hservice).
  assert (Hcount : pageCount (Z.of_nat (List.length [1; 2; 3])) (pageSize config) 1)
    by (right; unfold is_ceiling; cbn; lia).
  destruct (Hcore 1 Hcount) as (Hthrow & Hmessage & _).
  destruct (Hservice 1 Hcount) as (Hthrow' & _ & _).
  assert (Hout : 0 < 1 /\ ~ (1 <= page config <= 1)) by (cbn; lia).
  split; [apply Hthrow; exact Hout|].
  split; [apply Hthrow'; exact Hout|].
  apply (proj2 (Hmessage (PageNotFoundException 7 1) (proj2 Hthrow Hout)));
    reflexivity.
Defined.

(** C10.  On the empty collection every positive page number [p], with a
    page size the validator accepts, is answered without error by the empty
    page: no items, no pages, both item indices [0], no next page, a
    previous page exactly when [p > 1], and [currentPage] equal to the [p]
    that was asked for.  This holds of [PaginatorService.paginate] and of
    [CorePaginator.paginate] called with [{ page: p, pageSize }]. *)
Theorem empty_collection_any_page
    {T} `{Serializable T} {St}
    (cacheService : option (CacheService St (PaginatedResult T)))
    (p size : Z) (w : World St) :
  1 <= p ->
  1 <= size <= 100 ->
  let emptyPage : PaginatedResult T :=
    {| data := [];
       meta :=
         {| Meta.currentPage := p;
            Meta.pageSize := size;
            Meta.totalItems := 0;
            Meta.totalPages := 0;
            Meta.hasPrevious := p >? 1;
            Meta.hasNext := false;
            Meta.firstItemIndex := 0;
            Meta.lastItemIndex := 0 |};
       fromCache := false |} in
  PaginatorService.paginate cacheService []
    {| page := p; pageSize := size; maxPageSize := None;
       enableCache := None; cacheTtl := None |} w
  = (Returned emptyPage, w)
  /\ CorePaginator.paginate cacheService []
       {| CorePaginator.Extended.page := Some p;
          CorePaginator.Extended.pageSize := Some size;
          CorePaginator.Extended.maxPageSize := None;
          CorePaginator.Extended.enableCache := None;
          CorePaginator.Extended.cacheTtl := None;
          CorePaginator.Extended.noPagination := None |} w
     = (Returned emptyPage, w).
Proof.
  intros Hp Hs emptyPage.
  assert (Hv : PaginatorService.validateConfig
                 {| page := p; pageSize := size; maxPageSize := None;
                    enableCache := None; cacheTtl := None |} = Returned tt).
  { apply validateConfig_accepts. cbn. repeat split; try lia. discriminate. }
  split.
  - rewrite service_paginate_uncached; [|exact Hv|reflexivity].
    cbn [page pageSize]. unfold computed.
    cbn [List.length Z.of_nat]. rewrite calculateTotalPages_nil. cbn [Z.gtb Z.compare andb].
    rewrite freshResult_nil by lia. reflexivity.
  - unfold CorePaginator.paginate.
    cbn [CorePaginator.Extended.noPagination Js.truthy_bool
         CorePaginator.Extended.pageSize CorePaginator.Extended.page].
    replace (size <=? 0) with false by (symmetry; apply Z.leb_gt; lia).
    replace (p <=? 0) with false by (symmetry; apply Z.leb_gt; lia).
    unfold bind at 1. cbn [ret]. unfold bind at 1. cbn [ret].
    unfold CorePaginator.normalizeConfig.
    cbn [CorePaginator.Extended.pageSize CorePaginator.Extended.page
         CorePaginator.Extended.maxPageSize CorePaginator.Extended.enableCache
         CorePaginator.Extended.cacheTtl Js.or_default].
    replace (p =? 0) with false by (symmetry; apply Z.eqb_neq; lia).
    replace (size =? 0) with false by (symmetry; apply Z.eqb_neq; lia).
    rewrite core_paginateNormal_uncached; [|exact Hv|reflexivity].
    cbn [page pageSize]. unfold computed.
    cbn [List.length Z.of_nat]. rewrite calculateTotalPages_nil. cbn [Z.gtb Z.compare andb].
    rewrite freshResult_nil by lia. reflexivity.
Qed.

Lemma empty_collection_any_page_witness :
  fst (PaginatorService.paginate (T := Z) (St := unit) None []
         {| page := 999; pageSize := 10; maxPageSize := None;
            enableCache := None; cacheTtl := None |}
         {| backend := tt; console := [] |})
  = Returned
      {| data := [];
         meta :=
           {| Meta.currentPage := 999;
              Meta.pageSize := 10;
              Meta.totalItems := 0;
              Meta.totalPages := 0;
              Meta.hasPrevious := true;
              Meta.hasNext := false;
              Meta.firstItemIndex := 0;
              Meta.lastItemIndex := 0 |};
         fromCache := false |}.
Proof.
  rewrite (proj1 (@empty_collection_any_page Z _ unit None 999 10
                    {| backend := tt; console := [] |}
                    ltac:(lia) ltac:(lia))).
  reflexivity.
Defined.

(** ** Enumerating all pages *)

Lemma pageNumbers_length (n : nat) (from : Z) :
  List.length (pageNumbers n from) = n.
Proof. revert from. induction n; intros; simpl; [reflexivity|now rewrite IHn]. Qed.

Lemma pageNumbers_nth (n : nat) (from : Z) (i : nat) (k : Z) :
  nth_error (pageNumbers n from) i = Some k -> k = from + Z.of_nat i /\ (i < n)%nat.
Proof.
  revert from i. induction n as [|n IH]; intros from i Hn.
  - destruct i; discriminate.
  - destruct i as [|i]; simpl in Hn.
    + injection Hn as <-. split; lia.
    + apply IH in Hn. lia.
Qed.

Lemma pageNumbers_last (n : nat) (from : Z) :
  nth_error (pageNumbers (S n) from) n = Some (from + Z.of_nat n).
Proof.
  revert from. induction n as [|n IH]; intros from.
  - simpl. f_equal. lia.
  - change (nth_error (pageNumbers (S n) (from + 1)) n = Some (from + Z.of_nat (S n))).
    rewrite IH. f_equal. lia.
Qed.

Lemma slice_app {A} (l : list A) (a m b : Z) :
  0 <= a <= m -> m <= b -> b <= Z.of_nat (List.length l) ->
  (Js.slice l a m ++ Js.slice l m b)%list = Js.slice l a b.
Proof.
  intros Ham Hmb Hb. rewrite !slice_inside by lia.
  replace (Z.to_nat m) with (Z.to_nat (m - a) + Z.to_nat a)%nat by lia.
  rewrite <- skipn_skipn, firstn_then_skipn. f_equal. lia.
Qed.

Lemma pageSlice_eq {A} (items : list A) (page pageSize : Z) :
  1 <= page -> 1 <= pageSize ->
  pageSlice items page pageSize
  = Js.slice items ((page - 1) * pageSize)
      (Z.min (page * pageSize) (Z.of_nat (List.length items))).
Proof.
  intros Hp Hs. unfold pageSlice, PaginationUtils.calculateEndIndex,
    PaginationUtils.calculateStartIndex.
  replace (page <=? 0) with false by (symmetry; apply Z.leb_gt; lia).
  replace (pageSize <=? 0) with false by (symmetry; apply Z.leb_gt; lia).
  cbn [orb]. do 2 f_equal. lia.
Qed.

(** Consecutive pages, all of them but possibly the last one full, add up
    to one slice. *)
Lemma concat_pageSlices {A} (items : list A) (pageSize : Z) (n : nat) (from : Z) :
  1 <= pageSize -> 1 <= from ->
  (from - 1) * pageSize <= Z.of_nat (List.length items) ->
  (n <> O -> (from - 1 + Z.of_nat n - 1) * pageSize < Z.of_nat (List.length items)) ->
  List.concat (map (fun k => pageSlice items k pageSize) (pageNumbers n from))
  = Js.slice items ((from - 1) * pageSize)
      (Z.min ((from - 1 + Z.of_nat n) * pageSize) (Z.of_nat (List.length items))).
Proof.
  intros Hs. revert from. induction n as [|n IH]; intros from Hf Hstart Hfull.
  - cbn [pageNumbers map List.concat Z.of_nat]. rewrite Z.add_0_r.
    rewrite Z.min_l by exact Hstart.
    rewrite slice_inside by nia. now rewrite Z.sub_diag.
  - cbn [pageNumbers map List.concat]. rewrite pageSlice_eq by lia.
    specialize (Hfull ltac:(discriminate)).
    destruct n as [|n'].
    + cbn [pageNumbers map List.concat]. rewrite app_nil_r. do 2 f_equal. lia.
    + rewrite IH; try lia; try nia.
      replace (from + 1 - 1) with from by lia.
      rewrite (Z.min_l (from * pageSize)) by nia.
      rewrite slice_app; try nia.
      do 2 f_equal. lia.
Qed.

Section AllPages.

Context {T : Type} `{Serializable T} {St : Type}.
Variable cacheService : option (CacheService St (PaginatedResult T)).

Lemma createConfig_accepted (page size : Z) :
  1 <= page -> 1 <= size <= PaginatorService.DEFAULT_MAX_PAGE_SIZE ->
  PaginatorService.validateConfig
    (PaginatorService.createConfig (PaginatorService.pageAndSize page size))
  = Returned tt.
Proof.
  intros Hp Hs. apply validateConfig_accepts.
  cbn. unfold PaginatorService.DEFAULT_MAX_PAGE_SIZE in *.
  split; [lia|split; [lia|split; [lia|]]].
  intros ttl Ht. injection Ht as <-. lia.
Qed.

(** One turn of the loop: the configuration built by [createConfig] keeps
    the cache out, so the call only computes. *)
Lemma paginate_createConfig (items : list T) (page size : Z) (w : World St) :
  1 <= page -> 1 <= size <= PaginatorService.DEFAULT_MAX_PAGE_SIZE ->
  PaginatorService.paginate cacheService items
    (PaginatorService.createConfig (PaginatorService.pageAndSize page size)) w
  = (computed items page size, w).
Proof.
  intros Hp Hs.
  rewrite service_paginate_uncached;
    [reflexivity|apply createConfig_accepted; assumption|reflexivity].
Qed.

Lemma computed_in_range (items : list T) (page size : Z) :
  1 <= page <= PaginationUtils.calculateTotalPages (Z.of_nat (List.length items)) size ->
  computed items page size = Returned (freshResult items page size).
Proof.
  intros Hr. unfold computed.
  replace (PaginationUtils.isValidPage page _) with true
    by (symmetry; apply isValidPage_iff; exact Hr).
  now rewrite andb_false_r.
Qed.

Lemma getAllPages_from_returns (items : list T) (size : Z) (w : World St)
    (n : nat) (from : Z) (pages : list (PaginatedResult T)) :
  1 <= size <= PaginatorService.DEFAULT_MAX_PAGE_SIZE ->
  1 <= from ->
  from + Z.of_nat n - 1
    <= PaginationUtils.calculateTotalPages (Z.of_nat (List.length items)) size ->
  PaginatorService.getAllPages_from cacheService n from items size pages w
  = (Returned
       (pages ++ map (fun k => freshResult items k size) (pageNumbers n from))%list,
     w).
Proof.
  intros Hs. revert from pages. induction n as [|n IH]; intros from pages Hf Hlast.
  - simpl. now rewrite app_nil_r.
  - cbn [PaginatorService.getAllPages_from]. unfold bind.
    rewrite paginate_createConfig by assumption.
    rewrite computed_in_range by lia.
    rewrite IH by lia. cbn [pageNumbers map].
    now rewrite <- app_assoc.
Qed.

End AllPages.

Lemma totalPages_bounds (totalItems size : Z) :
  0 <= totalItems -> 1 <= size ->
  let totalPages := PaginationUtils.calculateTotalPages totalItems size in
  0 <= totalPages
  /\ (totalPages - 1) * size < totalItems \/ totalPages = 0 /\ totalItems = 0.
Proof.
  intros Hi Hs totalPages.
  destruct (Z.eq_dec totalItems 0) as [->|Hne].
  - right. split; reflexivity.
  - left.
    assert (Hc : is_ceiling totalItems size totalPages)
      by (apply calculateTotalPages_is_ceiling; lia).
    destruct Hc as [Hlow Hup]. split; [nia|exact Hlow].
Qed.

Lemma totalPages_cover (totalItems size : Z) :
  0 <= totalItems -> 1 <= size ->
  totalItems <= PaginationUtils.calculateTotalPages totalItems size * size.
Proof.
  intros Hi Hs.
  destruct (Z.eq_dec totalItems 0) as [->|Hne]; [reflexivity|].
  assert (Hc : is_ceiling totalItems size
                 (PaginationUtils.calculateTotalPages totalItems size))
    by (apply calculateTotalPages_is_ceiling; lia).
  destruct Hc as [Hlow Hup]. exact Hup.
Qed.

(** C1.  For every array and every [pageSize] from [1] to the maximum
    page size, [getAllPages] returns one result per page, the [data] of
    these results concatenated in page order is the original array (so no
    item is lost or repeated), every result is the one [paginate] returns
    for its page number, and the last page holds
    [totalItems - (totalPages - 1) * pageSize] items. *)
Theorem getAllPages_reproduces_data
    {T} `{Serializable T} {St}
    (cacheService : option (CacheService St (PaginatedResult T)))
    (items : list T) (size : Z) (w : World St) :
  1 <= size <= PaginatorService.DEFAULT_MAX_PAGE_SIZE ->
  let totalItems := Z.of_nat (List.length items) in
  let totalPages := PaginationUtils.calculateTotalPages totalItems size in
  exists pages : list (PaginatedResult T),
    PaginatorService.getAllPages cacheService items size w = (Returned pages, w)
    /\ Z.of_nat (List.length pages) = totalPages
    /\ List.concat (map (@data T) pages) = items
    /\ (forall (i : nat) (r : PaginatedResult T),
          nth_error pages i = Some r ->
          PaginatorService.paginate cacheService items
            (PaginatorService.createConfig
               (PaginatorService.pageAndSize (Z.of_nat i + 1) size)) w
          = (Returned r, w))
    /\ (forall r : PaginatedResult T,
          nth_error pages (List.length pages - 1) = Some r ->
          Z.of_nat (List.length (data r)) = totalItems - (totalPages - 1) * size).
Proof.
  intros Hs totalItems totalPages.
  assert (Hlen : 0 <= totalItems) by (unfold totalItems; lia).
  assert (Hs1 : 1 <= size) by lia.
  pose proof (totalPages_bounds Hlen Hs1) as Hb. cbv zeta in Hb.
  fold totalPages in Hb. destruct Hb as [[Hnn Hlow]|[Hz Hi0]].
  2:{ (* no item, no page *)
    exists []. unfold PaginatorService.getAllPages.
    fold totalItems. fold totalPages. rewrite Hz. cbn.
    assert (items = []) as -> by (destruct items; [reflexivity|discriminate]).
    split; [reflexivity|]. split; [reflexivity|]. split; [reflexivity|].
    split; [intros [|i] r Hr; discriminate|intros r Hr; discriminate]. }
  pose proof (totalPages_cover Hlen Hs1) as Hup. fold totalPages in Hup.
  set (n := Z.to_nat totalPages).
  exists (map (fun k => freshResult items k size) (pageNumbers n 1)).
  assert (Hn : Z.of_nat n = totalPages) by (unfold n; lia).
  split; [|split; [|split; [|split]]].
  - unfold PaginatorService.getAllPages. fold totalItems. fold totalPages. fold n.
    rewrite getAllPages_from_returns; [reflexivity|assumption|lia|].
    fold totalItems. fold totalPages. lia.
  - rewrite length_map, pageNumbers_length. exact Hn.
  - rewrite map_map. cbn [data freshResult].
    rewrite concat_pageSlices; try lia.
    fold totalItems. rewrite Hn.
    replace ((1 - 1 + totalPages) * size) with (totalPages * size) by lia.
    rewrite Z.min_r by lia. change ((1 - 1) * size) with 0.
    rewrite slice_inside by (fold totalItems; lia).
    cbn [Z.to_nat skipn]. rewrite Z.sub_0_r. unfold totalItems.
    rewrite Nat2Z.id. apply firstn_all.
  - intros i r Hr. rewrite nth_error_map in Hr.
    destruct (nth_error (pageNumbers n 1) i) as [k|] eqn:Hk; [|discriminate].
    injection Hr as <-.
    apply pageNumbers_nth in Hk. destruct Hk as [-> Hi].
    replace (Z.of_nat i + 1) with (1 + Z.of_nat i) by lia.
    rewrite paginate_createConfig by (assumption || lia).
    rewrite computed_in_range by (fold totalItems; fold totalPages; lia).
    reflexivity.
  - intros r Hr. rewrite length_map, pageNumbers_length in Hr.
    rewrite nth_error_map in Hr.
    destruct (nth_error (pageNumbers n 1) (n - 1)) as [k|] eqn:Hk; [|discriminate].
    injection Hr as <-.
    apply pageNumbers_nth in Hk. destruct Hk as [-> Hi].
    cbn [data freshResult]. rewrite pageSlice_eq by lia.
    fold totalItems.
    assert (Hlast : 1 + Z.of_nat (n - 1) = totalPages) by lia.
    rewrite Hlast. rewrite Z.min_r by lia.
    rewrite slice_length; (fold totalItems; nia) || lia.
Qed.

Lemma getAllPages_reproduces_data_witness :
  exists pages : list (PaginatedResult Z),
    PaginatorService.getAllPages (St := unit) None [10; 20; 30; 40; 50] 2
      {| backend := tt; console := [] |}
    = (Returned pages, {| backend := tt; console := [] |})
    /\ Z.of_nat (List.length pages) = 3
    /\ List.concat (map (@data Z) pages) = [10; 20; 30; 40; 50].
Proof.
  destruct (@getAllPages_reproduces_data Z _ unit None [10; 20; 30; 40; 50] 2
              {| backend := tt; console := [] |})
    as (pages & Hrun & Hcount & Hconcat & _).
  - unfold PaginatorService.DEFAULT_MAX_PAGE_SIZE. lia.
  - exists pages. split; [exact Hrun|]. split; [exact Hcount|exact Hconcat].
Defined.

(** ** Association lists as maps *)

Lemma JsMap_get_set_same {V} (m : JsMap.t V) (key : string) (v : V) :
  JsMap.get (JsMap.set m key v) key = Some v.
Proof.
  induction m as [|[k x] m IH]; simpl.
  - now rewrite String.eqb_refl.
  - destruct (String.eqb k key) eqn:E; simpl; rewrite E; [reflexivity|exact IH].
Qed.

Lemma JsMap_get_set_other {V} (m : JsMap.t V) (key key' : string) (v : V) :
  key <> key' -> JsMap.get (JsMap.set m key v) key' = JsMap.get m key'.
Proof.
  intros Hne. induction m as [|[k x] m IH]; simpl.
  - apply String.eqb_neq in Hne. now rewrite Hne.
  - destruct (String.eqb k key) eqn:E; simpl.
    + apply String.eqb_eq in E. subst k.
      apply String.eqb_neq in Hne. now rewrite Hne.
    + destruct (String.eqb k key'); [reflexivity|exact IH].
Qed.

Lemma JsMap_get_delete_same {V} (m : JsMap.t V) (key : string) :
  JsMap.get (JsMap.delete m key) key = None.
Proof.
  induction m as [|[k x] m IH]; simpl; [reflexivity|].
  destruct (String.eqb k key) eqn:E; simpl; [exact IH|].
  rewrite E. exact IH.
Qed.

Lemma JsMap_get_delete_other {V} (m : JsMap.t V) (key key' : string) :
  key <> key' -> JsMap.get (JsMap.delete m key) key' = JsMap.get m key'.
Proof.
  intros Hne. induction m as [|[k x] m IH]; simpl; [reflexivity|].
  destruct (String.eqb k key) eqn:E; simpl.
  - apply String.eqb_eq in E. subst k.
    apply String.eqb_neq in Hne. now rewrite Hne.
  - now rewrite IH.
Qed.

Lemma JsMap_has_get {V} (m : JsMap.t V) (key : string) :
  JsMap.has m key = true <-> exists v, JsMap.get m key = Some v.
Proof.
  unfold JsMap.has. destruct (JsMap.get m key) as [v|].
  - split; [eauto|reflexivity].
  - split; [discriminate|intros [v Hv]; discriminate].
Qed.

(** ** Expiry on access *)

(** C6.  Let [key] be stored with expiry time [expiresAt].  A [get] at a
    time [now <= expiresAt] returns the stored value, leaves the entry in
    place and gives the key the next value of the access counter; a [get]
    at a time [now > expiresAt] returns nothing and removes the entry and
    its recency record, so that every later [has] of the key is false. *)
Theorem get_respects_expiry
    {V} (s : MemoryCacheService.State V) (key : string)
    (entry : CacheEntry V) (now : Z) :
  JsMap.get (MemoryCacheService.cache s) key = Some entry ->
  let after := snd (MemoryCacheService.get now key s) in
  (now <= expiresAt entry ->
     fst (MemoryCacheService.get now key s) = Some (value entry)
     /\ MemoryCacheService.cache after = MemoryCacheService.cache s
     /\ MemoryCacheService.accessCounter after
        = MemoryCacheService.accessCounter s + 1
     /\ JsMap.get (MemoryCacheService.accessOrder after) key
        = Some (MemoryCacheService.accessCounter s + 1))
  /\ (expiresAt entry < now ->
        fst (MemoryCacheService.get now key s) = None
        /\ JsMap.get (MemoryCacheService.cache after) key = None
        /\ JsMap.get (MemoryCacheService.accessOrder after) key = None
        /\ forall later : Z, fst (MemoryCacheService.has later key after) = false).
Proof.
  intros Hentry after. subst after. unfold MemoryCacheService.get. rewrite Hentry.
  split; intros Htime.
  - replace (now >? expiresAt entry) with false
      by (symmetry; rewrite Z.gtb_ltb; apply Z.ltb_ge; lia).
    cbn. split; [reflexivity|]. split; [reflexivity|]. split; [reflexivity|].
    apply JsMap_get_set_same.
  - replace (now >? expiresAt entry) with true
      by (symmetry; apply Z.gtb_lt; lia).
    cbn. split; [reflexivity|].
    split; [apply JsMap_get_delete_same|].
    split; [apply JsMap_get_delete_same|].
    intros later. unfold MemoryCacheService.has. cbn.
    now rewrite JsMap_get_delete_same.
Qed.

Lemma get_respects_expiry_witness :
  let s :=
    MemoryCacheService.set
      {| defaultTtl := 1000; maxSize := Some 3; evictionStrategy := Some lru |}
      1000 "key1" 7 100 MemoryCacheService.initial in
  fst (MemoryCacheService.get 1100 "key1" s) = Some 7
  /\ fst (MemoryCacheService.get 1101 "key1" s) = None
  /\ fst (MemoryCacheService.has 1101 "key1"
            (snd (MemoryCacheService.get 1101 "key1" s))) = false.
Proof.
  intros s.
  pose proof (@get_respects_expiry Z s "key1"
                {| value := 7; expiresAt := 1100; createdAt := 1000 |} 1100
                eq_refl) as Hfresh.
  pose proof (@get_respects_expiry Z s "key1"
                {| value := 7; expiresAt := 1100; createdAt := 1000 |} 1101
                eq_refl) as Hstale.
  split; [apply Hfresh; cbn; lia|].
  split; [apply Hstale; cbn; lia|].
  apply Hstale. cbn. lia.
Defined.

(** The entry written by [set]: it expires [ttl] after the call. *)
Lemma set_stores_entry {V} (config : CacheConfig) (s : MemoryCacheService.State V)
    (now : Z) (key : string) (v : V) (ttl : Z) :
  JsMap.get (MemoryCacheService.cache (MemoryCacheService.set config now key v ttl s)) key
  = Some {| value := v; expiresAt := now + ttl; createdAt := now |}.
Proof. unfold MemoryCacheService.set. cbn. apply JsMap_get_set_same. Qed.

(** ** The two maps of the cache hold the same keys *)

Lemma keys_set_congr {A B} (m1 : JsMap.t A) (m2 : JsMap.t B) key (a : A) (b : B) :
  JsMap.keys m1 = JsMap.keys m2 ->
  JsMap.keys (JsMap.set m1 key a) = JsMap.keys (JsMap.set m2 key b).
Proof.
  revert m2. induction m1 as [|[k1 x1] m1 IH]; intros [|[k2 x2] m2] Hk;
    try discriminate; [reflexivity|].
  injection Hk as -> Hk. simpl.
  destruct (String.eqb k2 key); simpl; f_equal; [exact Hk|apply IH; exact Hk].
Qed.

Lemma keys_delete_congr {A B} (m1 : JsMap.t A) (m2 : JsMap.t B) key :
  JsMap.keys m1 = JsMap.keys m2 ->
  JsMap.keys (JsMap.delete m1 key) = JsMap.keys (JsMap.delete m2 key).
Proof.
  revert m2. induction m1 as [|[k1 x1] m1 IH]; intros [|[k2 x2] m2] Hk;
    try discriminate; [reflexivity|].
  injection Hk as -> Hk. simpl.
  destruct (String.eqb k2 key); simpl; [|f_equal]; apply IH; exact Hk.
Qed.

Lemma keys_set_present {A} (m : JsMap.t A) key (a : A) :
  In key (JsMap.keys m) -> JsMap.keys (JsMap.set m key a) = JsMap.keys m.
Proof.
  induction m as [|[k x] m IH]; intros Hin; [contradiction|]. simpl.
  destruct (String.eqb k key) eqn:E; [reflexivity|].
  simpl. f_equal. apply IH. destruct Hin as [Heq|Hin]; [|exact Hin].
  simpl in Heq. subst k. now rewrite String.eqb_refl in E.
Qed.

Lemma get_some_in_keys {A} (m : JsMap.t A) key (a : A) :
  JsMap.get m key = Some a -> In key (JsMap.keys m).
Proof.
  induction m as [|[k x] m IH]; [discriminate|]. simpl.
  destruct (String.eqb k key) eqn:E.
  - intros _. left. now apply String.eqb_eq.
  - intros Hg. right. apply IH. exact Hg.
Qed.

Section KeysAgree.

Context {V : Type}.
Variable config : CacheConfig.

Lemma delete_keys_agree key (s : MemoryCacheService.State V) :
  keys_agree s -> keys_agree (MemoryCacheService.delete key s).
Proof.
  unfold keys_agree, MemoryCacheService.delete.
  cbn [MemoryCacheService.cache MemoryCacheService.accessOrder].
  apply keys_delete_congr.
Qed.

Lemma evict_keys_agree (s : MemoryCacheService.State V) :
  keys_agree s -> keys_agree (MemoryCacheService.evictLeastRecentlyUsed s).
Proof.
  intros Hk. unfold MemoryCacheService.evictLeastRecentlyUsed.
  destruct (JsMap.size _ =? 0); [exact Hk|].
  destruct (fst _) as [k|]; [|exact Hk].
  destruct (Js.truthy_string _); [apply delete_keys_agree|]; exact Hk.
Qed.

Lemma get_keys_agree now key (s : MemoryCacheService.State V) :
  keys_agree s -> keys_agree (snd (MemoryCacheService.get now key s)).
Proof.
  intros Hk. unfold MemoryCacheService.get.
  destruct (JsMap.get (MemoryCacheService.cache s) key) as [entry|] eqn:Hg;
    [|exact Hk].
  destruct (now >? expiresAt entry); cbn [snd].
  - apply delete_keys_agree. exact Hk.
  - unfold keys_agree, MemoryCacheService.touch.
    cbn [MemoryCacheService.cache MemoryCacheService.accessOrder snd].
    rewrite keys_set_present; [exact Hk|].
    unfold keys_agree in Hk. rewrite <- Hk.
    eapply get_some_in_keys. exact Hg.
Qed.

Lemma set_keys_agree now key v ttl (s : MemoryCacheService.State V) :
  keys_agree s -> keys_agree (MemoryCacheService.set config now key v ttl s).
Proof.
  intros Hk. unfold MemoryCacheService.set, keys_agree.
  cbn [MemoryCacheService.cache MemoryCacheService.accessOrder].
  apply keys_set_congr.
  destruct (match maxSize config with Some _ => _ | None => _ end);
    [apply evict_keys_agree|]; exact Hk.
Qed.

Lemma has_keys_agree now key (s : MemoryCacheService.State V) :
  keys_agree s -> keys_agree (snd (MemoryCacheService.has now key s)).
Proof.
  intros Hk. unfold MemoryCacheService.has.
  destruct (JsMap.get (MemoryCacheService.cache s) key) as [entry|]; [|exact Hk].
  destruct (now >? expiresAt entry); cbn [snd];
    [apply delete_keys_agree|]; exact Hk.
Qed.

Lemma delete_all_keys_agree keys (s : MemoryCacheService.State V) :
  keys_agree s ->
  keys_agree (fold_left (fun st key => MemoryCacheService.delete key st) keys s).
Proof.
  revert s. induction keys as [|k keys IH]; intros s Hk; [exact Hk|].
  simpl. apply IH. apply delete_keys_agree. exact Hk.
Qed.

Lemma step_keys_agree (s : MemoryCacheService.State V) op :
  keys_agree s -> keys_agree (MemoryCacheService.step config s op).
Proof.
  intros Hk. destruct op; cbn [MemoryCacheService.step].
  - apply get_keys_agree; exact Hk.
  - apply set_keys_agree; exact Hk.
  - apply delete_keys_agree; exact Hk.
  - reflexivity.
  - apply has_keys_agree; exact Hk.
  - apply delete_all_keys_agree; exact Hk.
Qed.

(** Whatever the public methods are called with, the entry map and the
    recency map keep the same key set. *)
Lemma run_keys_agree (ops : list (@MemoryCacheService.Op V)) :
  keys_agree (MemoryCacheService.run config ops MemoryCacheService.initial).
Proof.
  unfold MemoryCacheService.run.
  assert (Hgen : forall s, keys_agree s ->
                   keys_agree (fold_left (MemoryCacheService.step config) ops s)).
  { induction ops as [|op ops IH]; intros s Hk; [exact Hk|].
    simpl. apply IH. apply step_keys_agree. exact Hk. }
  apply Hgen. reflexivity.
Qed.

End KeysAgree.

(** ** Capacity *)

Lemma length_delete_le {A} (m : JsMap.t A) key :
  (List.length (JsMap.delete m key) <= List.length m)%nat.
Proof. unfold JsMap.delete. apply filter_length_le. Qed.

Lemma length_delete_lt {A} (m : JsMap.t A) key :
  In key (JsMap.keys m) ->
  (List.length (JsMap.delete m key) < List.length m)%nat.
Proof.
  induction m as [|[k x] m IH]; intros Hin; [contradiction|]. simpl.
  destruct (String.eqb k key) eqn:E; simpl.
  - pose proof (length_delete_le m key). unfold JsMap.delete in *. lia.
  - destruct Hin as [Heq|Hin].
    + simpl in Heq. subst k. now rewrite String.eqb_refl in E.
    + apply IH in Hin. unfold JsMap.delete in *. lia.
Qed.

Lemma length_set_le {A} (m : JsMap.t A) key (a : A) :
  (List.length (JsMap.set m key a) <= S (List.length m))%nat.
Proof.
  induction m as [|[k x] m IH]; simpl; [lia|].
  destruct (String.eqb k key); simpl; lia.
Qed.

Lemma length_set_present {A} (m : JsMap.t A) key (a : A) :
  JsMap.has m key = true -> List.length (JsMap.set m key a) = List.length m.
Proof.
  unfold JsMap.has. induction m as [|[k x] m IH]; simpl; [discriminate|].
  destruct (String.eqb k key); simpl; [reflexivity|].
  intros Hh. f_equal. apply IH. exact Hh.
Qed.

Lemma keys_delete_Forall {A} (P : string -> Prop) (m : JsMap.t A) key :
  Forall P (JsMap.keys m) -> Forall P (JsMap.keys (JsMap.delete m key)).
Proof.
  induction m as [|[k x] m IH]; intros Hall; [constructor|].
  inversion Hall as [|? ? Hk Hrest]; subst. simpl.
  destruct (String.eqb k key); simpl; [apply IH; exact Hrest|].
  constructor; [exact Hk|apply IH; exact Hrest].
Qed.

Lemma keys_set_Forall {A} (P : string -> Prop) (m : JsMap.t A) key (a : A) :
  Forall P (JsMap.keys m) -> P key -> Forall P (JsMap.keys (JsMap.set m key a)).
Proof.
  intros Hall Hkey. induction m as [|[k x] m IH]; simpl.
  - constructor; [exact Hkey|constructor].
  - inversion Hall as [|? ? Hk Hrest]; subst.
    destruct (String.eqb k key); simpl; constructor; try assumption.
    apply IH. exact Hrest.
Qed.

(** The scan never forgets a candidate: once it holds a key it ends with a
    key, its own or one it met later. *)
Lemma lruScan_keeps_candidate (m : JsMap.t Z) (k : string) (least : option Z) :
  exists k' least',
    fold_left MemoryCacheService.lruScan m (Some k, least) = (Some k', least')
    /\ (k' = k \/ In k' (JsMap.keys m)).
Proof.
  revert k least. induction m as [|[k1 a1] m IH]; intros k least.
  - exists k, least. split; [reflexivity|left; reflexivity].
  - simpl. destruct (match least with Some l => a1 <? l | None => true end).
    + destruct (IH k1 (Some a1)) as (k' & l' & Hf & Hin).
      exists k', l'. split; [exact Hf|]. right. destruct Hin; [left|right]; auto.
    + destruct (IH k least) as (k' & l' & Hf & Hin).
      exists k', l'. split; [exact Hf|]. destruct Hin; [left|right; right]; auto.
Qed.

Lemma lruScan_finds_key (m : JsMap.t Z) :
  m <> [] ->
  exists k least,
    fold_left MemoryCacheService.lruScan m (None, None) = (Some k, least)
    /\ In k (JsMap.keys m).
Proof.
  destruct m as [|[k1 a1] m]; [congruence|]. intros _. simpl.
  destruct (lruScan_keeps_candidate m k1 (Some a1)) as (k' & l' & Hf & Hin).
  exists k', l'. split; [exact Hf|]. destruct Hin; [left|right]; auto.
Qed.

Section Capacity.

Context {V : Type}.
Variable config : CacheConfig.
Variable N : Z.
Hypothesis maxSize_N : maxSize config = Some N.
Hypothesis N_positive : 1 <= N.

Lemma delete_bounded key (s : MemoryCacheService.State V) :
  bounded N s -> bounded N (MemoryCacheService.delete key s).
Proof.
  intros (Hk & Hne & Hsz). split; [apply delete_keys_agree; exact Hk|].
  unfold MemoryCacheService.delete. cbn [MemoryCacheService.cache].
  split; [apply keys_delete_Forall; exact Hne|].
  unfold JsMap.size in *. pose proof (length_delete_le (MemoryCacheService.cache s) key).
  lia.
Qed.

(** On a bounded, non-empty cache the eviction removes an entry. *)
Lemma evict_shrinks (s : MemoryCacheService.State V) :
  bounded N s -> 1 <= JsMap.size (MemoryCacheService.cache s) ->
  JsMap.size (MemoryCacheService.cache (MemoryCacheService.evictLeastRecentlyUsed s))
  <= JsMap.size (MemoryCacheService.cache s) - 1.
Proof.
  intros (Hk & Hne & Hsz) Hpos. unfold MemoryCacheService.evictLeastRecentlyUsed.
  assert (Hsame : JsMap.size (MemoryCacheService.accessOrder s)
                  = JsMap.size (MemoryCacheService.cache s)).
  { unfold JsMap.size. f_equal. unfold keys_agree, JsMap.keys in Hk.
    rewrite <- (length_map fst (MemoryCacheService.accessOrder s)), <- Hk.
    now rewrite length_map. }
  rewrite Hsame.
  replace (JsMap.size (MemoryCacheService.cache s) =? 0) with false
    by (symmetry; apply Z.eqb_neq; lia).
  destruct (lruScan_finds_key (m := MemoryCacheService.accessOrder s))
    as (k & least & Hf & Hin).
  { intros Hnil. rewrite Hnil in Hsame. cbn in Hsame. lia. }
  rewrite Hf. cbn [fst].
  unfold keys_agree in Hk. rewrite <- Hk in Hin.
  assert (Hnamed : k <> EmptyString).
  { rewrite Forall_forall in Hne. apply Hne. exact Hin. }
  unfold Js.truthy_string. apply String.eqb_neq in Hnamed. rewrite Hnamed.
  cbn [negb MemoryCacheService.delete MemoryCacheService.cache].
  pose proof (length_delete_lt (MemoryCacheService.cache s) k Hin).
  unfold JsMap.size. lia.
Qed.

Lemma evict_bounded (s : MemoryCacheService.State V) :
  bounded N s -> bounded N (MemoryCacheService.evictLeastRecentlyUsed s).
Proof.
  intros Hb. unfold MemoryCacheService.evictLeastRecentlyUsed.
  destruct (JsMap.size _ =? 0); [exact Hb|].
  destruct (fst _) as [k|]; [|exact Hb].
  destruct (Js.truthy_string _); [apply delete_bounded|]; exact Hb.
Qed.

Lemma set_bounded now key v ttl (s : MemoryCacheService.State V) :
  key <> EmptyString ->
  bounded N s -> bounded N (MemoryCacheService.set config now key v ttl s).
Proof.
  intros Hnamed Hb.
  split; [apply set_keys_agree; apply Hb|].
  unfold MemoryCacheService.set. rewrite maxSize_N.
  replace (N =? 0) with false by (symmetry; apply Z.eqb_neq; lia).
  cbn [negb andb MemoryCacheService.cache].
  destruct (JsMap.size (MemoryCacheService.cache s) >=? N) eqn:Efull; cbn [andb].
  - apply Z.geb_le in Efull.
    destruct (JsMap.has (MemoryCacheService.cache s) key) eqn:Ehas; cbn [negb].
    + destruct Hb as (Hk & Hne & Hsz).
      split; [apply keys_set_Forall; assumption|].
      unfold JsMap.size. rewrite length_set_present by exact Ehas.
      exact Hsz.
    + pose proof (evict_shrinks Hb ltac:(lia)) as Hshrunk.
      destruct (evict_bounded Hb) as (Hk' & Hne' & Hsz').
      split; [apply keys_set_Forall; assumption|].
      destruct Hb as (_ & _ & Hsz).
      pose proof (length_set_le
                    (MemoryCacheService.cache
                       (MemoryCacheService.evictLeastRecentlyUsed s))
                    key {| value := v; expiresAt := now + ttl; createdAt := now |}).
      unfold JsMap.size in *. lia.
  - rewrite Z.geb_leb in Efull. apply Z.leb_gt in Efull.
    destruct Hb as (Hk & Hne & Hsz).
    split; [apply keys_set_Forall; assumption|].
    pose proof (length_set_le (MemoryCacheService.cache s) key
                  {| value := v; expiresAt := now + ttl; createdAt := now |}).
    unfold JsMap.size in *. lia.
Qed.

Lemma delete_all_bounded keys (s : MemoryCacheService.State V) :
  bounded N s ->
  bounded N (fold_left (fun st key => MemoryCacheService.delete key st) keys s).
Proof.
  revert s. induction keys as [|k keys IH]; intros s Hb; [exact Hb|].
  simpl. apply IH. apply delete_bounded. exact Hb.
Qed.

Lemma step_bounded (s : MemoryCacheService.State V) op :
  stores_named_key op -> bounded N s -> bounded N (MemoryCacheService.step config s op).
Proof.
  intros Hop Hb. destruct op; cbn [MemoryCacheService.step].
  - unfold MemoryCacheService.get.
    destruct (JsMap.get _ key) as [entry|] eqn:Hg; [|exact Hb].
    destruct (now >? expiresAt entry); cbn [snd]; [apply delete_bounded; exact Hb|].
    destruct Hb as (Hk & Hne & Hsz).
    split; [|split; assumption].
    unfold keys_agree, MemoryCacheService.touch.
    cbn [MemoryCacheService.cache MemoryCacheService.accessOrder].
    rewrite keys_set_present; [exact Hk|].
    unfold keys_agree in Hk. rewrite <- Hk. eapply get_some_in_keys. exact Hg.
  - apply set_bounded; assumption.
  - apply delete_bounded; exact Hb.
  - split; [reflexivity|]. split; [constructor|]. cbn. lia.
  - unfold MemoryCacheService.has.
    destruct (JsMap.get _ key) as [entry|]; [|exact Hb].
    destruct (now >? expiresAt entry); cbn [snd];
      [apply delete_bounded|]; exact Hb.
  - apply delete_all_bounded. exact Hb.
Qed.

(** As long as nothing is stored under the empty string, the cache never
    holds more than [maxSize] entries. *)
Lemma run_within_capacity (ops : list (@MemoryCacheService.Op V)) :
  Forall stores_named_key ops ->
  JsMap.size
    (MemoryCacheService.cache
       (MemoryCacheService.run config ops MemoryCacheService.initial)) <= N.
Proof.
  intros Hops. unfold MemoryCacheService.run.
  assert (Hgen : forall s, bounded N s ->
                   bounded N (fold_left (MemoryCacheService.step config) ops s)).
  { induction Hops as [|op ops Hop Hops IH]; intros s Hb; [exact Hb|].
    simpl. apply IH. apply step_bounded; assumption. }
  apply Hgen. split; [reflexivity|]. split; [constructor|]. cbn. lia.
Qed.

End Capacity.

(** ** Least-recently-used eviction *)

Lemma numbered_keys (from : Z) (keys : list string) :
  JsMap.keys (numbered from keys) = keys.
Proof.
  revert from. induction keys as [|k keys IH]; intros from; simpl;
    [reflexivity|f_equal; apply IH].
Qed.

Lemma numbered_app (from : Z) (keys keys' : list string) :
  numbered from (keys ++ keys')
  = (numbered from keys ++ numbered (from + Z.of_nat (List.length keys)) keys')%list.
Proof.
  revert from. induction keys as [|k keys IH]; intros from.
  - simpl. now rewrite Z.add_0_r.
  - cbn [numbered app List.length]. rewrite IH. do 3 f_equal. lia.
Qed.

Lemma numbered_at_least (from : Z) (keys : list string) :
  Forall (fun kv => from <= snd kv) (numbered from keys).
Proof.
  revert from. induction keys as [|k keys IH]; intros from; simpl; constructor.
  - simpl. lia.
  - eapply Forall_impl; [|apply (IH (from + 1))]. simpl. intros; lia.
Qed.

Lemma set_fresh_appends {A} (m : JsMap.t A) key (a : A) :
  ~ In key (JsMap.keys m) -> JsMap.set m key a = (m ++ [(key, a)])%list.
Proof.
  induction m as [|[k x] m IH]; intros Hnot; [reflexivity|]. simpl.
  destruct (String.eqb k key) eqn:E.
  - apply String.eqb_eq in E. subst k. exfalso. apply Hnot. now left.
  - f_equal. apply IH. intros Hin. apply Hnot. now right.
Qed.

Lemma has_absent {A} (m : JsMap.t A) key :
  ~ In key (JsMap.keys m) -> JsMap.has m key = false.
Proof.
  unfold JsMap.has. induction m as [|[k x] m IH]; intros Hnot; [reflexivity|].
  simpl. destruct (String.eqb k key) eqn:E.
  - apply String.eqb_eq in E. subst k. exfalso. apply Hnot. now left.
  - apply IH. intros Hin. apply Hnot. now right.
Qed.

Lemma delete_absent {A} (m : JsMap.t A) key :
  ~ In key (JsMap.keys m) -> JsMap.delete m key = m.
Proof.
  induction m as [|[k x] m IH]; intros Hnot; [reflexivity|]. simpl.
  destruct (String.eqb k key) eqn:E.
  - apply String.eqb_eq in E. subst k. exfalso. apply Hnot. now left.
  - simpl. f_equal. apply IH. intros Hin. apply Hnot. now right.
Qed.

(** The scan keeps its candidate past entries that are not older. *)
Lemma lruScan_stable (m : JsMap.t Z) (k : string) (least : Z) :
  Forall (fun kv => least <= snd kv) m ->
  fold_left MemoryCacheService.lruScan m (Some k, Some least) = (Some k, Some least).
Proof.
  induction m as [|[k1 a1] m IH]; intros Hall; [reflexivity|].
  inversion Hall as [|? ? Hle Hrest]; subst. simpl in Hle. simpl.
  replace (a1 <? least) with false by (symmetry; apply Z.ltb_ge; exact Hle).
  apply IH. exact Hrest.
Qed.

Section Eviction.

Local Open Scope list_scope.

Context {V : Type}.
Variable config : CacheConfig.
Variable N : Z.
Hypothesis maxSize_N : maxSize config = Some N.

Lemma insertAll_cons (i : Insertion V) (ins : list (Insertion V))
    (s : MemoryCacheService.State V) :
  insertAll config (i :: ins) s
  = insertAll config ins
      (MemoryCacheService.set config (at_time i) (under i) (stored i) (lifetime i) s).
Proof. reflexivity. Qed.

(** Below capacity, insertions under new keys only append. *)
Lemma insertAll_appends (ins : list (Insertion V)) (s : MemoryCacheService.State V) :
  keys_agree s ->
  NoDup (JsMap.keys (MemoryCacheService.cache s) ++ map (@under V) ins) ->
  JsMap.size (MemoryCacheService.cache s) + Z.of_nat (List.length ins) <= N ->
  insertAll config ins s
  = {| MemoryCacheService.cache :=
         MemoryCacheService.cache s ++ map (fun i => (under i, entryOf i)) ins;
       MemoryCacheService.accessOrder :=
         MemoryCacheService.accessOrder s
           ++ numbered (MemoryCacheService.accessCounter s + 1) (map (@under V) ins);
       MemoryCacheService.accessCounter :=
         MemoryCacheService.accessCounter s + Z.of_nat (List.length ins) |}.
Proof.
  revert s. induction ins as [|i ins IH]; intros s Hk Hnd Hroom.
  - cbn. rewrite !app_nil_r, Z.add_0_r. destruct s; reflexivity.
  - rewrite insertAll_cons.
    assert (Hnew : ~ In (under i) (JsMap.keys (MemoryCacheService.cache s))).
    { intros Hin. apply NoDup_remove_2 in Hnd. apply Hnd.
      apply in_or_app. now left. }
    assert (Hstep :
      MemoryCacheService.set config (at_time i) (under i) (stored i) (lifetime i) s
      = {| MemoryCacheService.cache :=
             MemoryCacheService.cache s ++ [(under i, entryOf i)];
           MemoryCacheService.accessOrder :=
             MemoryCacheService.accessOrder s
               ++ [(under i, MemoryCacheService.accessCounter s + 1)];
           MemoryCacheService.accessCounter :=
             MemoryCacheService.accessCounter s + 1 |}).
    { unfold MemoryCacheService.set. rewrite maxSize_N.
      replace (JsMap.size (MemoryCacheService.cache s) >=? N) with false
        by (symmetry; rewrite Z.geb_leb; apply Z.leb_gt;
            cbn [List.length] in Hroom; lia).
      rewrite andb_false_r. cbn [andb].
      rewrite !set_fresh_appends; [reflexivity| |exact Hnew].
      unfold keys_agree in Hk. rewrite <- Hk. exact Hnew. }
    rewrite Hstep. rewrite IH.
    + cbn [MemoryCacheService.cache MemoryCacheService.accessOrder
           MemoryCacheService.accessCounter map numbered List.length].
      rewrite <- !app_assoc. cbn [app]. f_equal. lia.
    + unfold keys_agree, JsMap.keys. cbn [MemoryCacheService.cache
        MemoryCacheService.accessOrder]. rewrite !map_app. cbn [map fst].
      f_equal. exact Hk.
    + cbn [MemoryCacheService.cache]. unfold JsMap.keys. rewrite map_app.
      cbn [map fst]. rewrite <- app_assoc. cbn [app].
      unfold JsMap.keys in Hnd. cbn [map] in Hnd.
      apply NoDup_remove_1 in Hnd as Hnd1.
      apply NoDup_remove_2 in Hnd as Hnd2.
      apply NoDup_Add with (a := under i)
        (l := (map fst (MemoryCacheService.cache s) ++ map (@under V) ins)%list);
        [|split; assumption].
      apply Add_app.
    + cbn [MemoryCacheService.cache List.length] in *. unfold JsMap.size in *.
      rewrite length_app. cbn [List.length]. lia.
Qed.

(** Fill an empty cache of capacity [N >= 2] with [N] distinct keys, read
    the first one while it is alive, then store under one more key: if the
    second key is not the empty string, it is the one that leaves, and
    every other key stays. *)
Lemma refreshed_key_survives
    (first second : Insertion V) (rest : list (Insertion V))
    (extra : Insertion V) (readAt : Z) :
  N = Z.of_nat (List.length (first :: second :: rest)) ->
  NoDup (map (@under V) (first :: second :: rest ++ [extra])) ->
  readAt <= at_time first + lifetime first ->
  under second <> EmptyString ->
  let filled := insertAll config (first :: second :: rest) MemoryCacheService.initial in
  let read := MemoryCacheService.get readAt (under first) filled in
  let final :=
    MemoryCacheService.set config (at_time extra) (under extra) (stored extra)
      (lifetime extra) (snd read) in
  fst read = Some (stored first)
  /\ MemoryCacheService.cache final
     = ((under first, entryOf first)
          :: map (fun i => (under i, entryOf i)) rest ++ [(under extra, entryOf extra)])%list.
Proof.
  intros HN Hnd Halive Hnamed filled read final.
  assert (Hfilled :
    filled = {| MemoryCacheService.cache :=
                  map (fun i => (under i, entryOf i)) (first :: second :: rest);
                MemoryCacheService.accessOrder :=
                  numbered 1 (map (@under V) (first :: second :: rest));
                MemoryCacheService.accessCounter := N |}).
  { unfold filled. rewrite insertAll_appends.
    - cbn [MemoryCacheService.initial MemoryCacheService.cache
           MemoryCacheService.accessOrder MemoryCacheService.accessCounter
           JsMap.empty app]. now rewrite HN.
    - reflexivity.
    - cbn [MemoryCacheService.initial MemoryCacheService.cache JsMap.empty
           JsMap.keys map app].
      change (first :: second :: rest ++ [extra])%list
        with ((first :: second :: rest) ++ [extra])%list in Hnd.
      rewrite map_app in Hnd. apply NoDup_app_remove_r in Hnd. exact Hnd.
    - cbn [MemoryCacheService.initial MemoryCacheService.cache JsMap.empty].
      unfold JsMap.size, JsMap.empty. rewrite HN. simpl List.length. lia. }
  cbn [map] in Hnd.
  assert (Hne12 : under first <> under second).
  { inversion Hnd as [|? ? Hnot _]; subst. intros Heq. apply Hnot. now left. }
  assert (Hsecond_rest : ~ In (under second) (map (@under V) rest)).
  { inversion Hnd as [|? ? _ Hnd']; subst. inversion Hnd' as [|? ? Hnot _]; subst.
    intros Hin. apply Hnot. rewrite map_app. apply in_or_app. now left. }
  assert (Hextra : ~ In (under extra) (map (@under V) (first :: rest))).
  { intros Hin. cbn [map] in Hin.
    assert (Hcount : In (under extra) (map (@under V) (first :: second :: rest)))
      by (cbn [map]; destruct Hin as [<-|Hin]; [now left|right; right; exact Hin]).
    change (under first :: under second :: map (@under V) (rest ++ [extra]))
      with (map (@under V) ((first :: second :: rest) ++ [extra])) in Hnd.
    rewrite map_app in Hnd. cbn [map] in Hnd.
    apply NoDup_remove_2 in Hnd. apply Hnd. rewrite app_nil_r. exact Hcount. }
  assert (Hextra2 : under extra <> under second).
  { intros Heq.
    change (under first :: under second :: map (@under V) (rest ++ [extra]))
      with (map (@under V) ((first :: second :: rest) ++ [extra])) in Hnd.
    rewrite map_app in Hnd. cbn [map] in Hnd.
    apply NoDup_remove_2 in Hnd. apply Hnd. rewrite app_nil_r.
    right. left. now symmetry. }
  assert (Hread :
    read = (Some (stored first),
            {| MemoryCacheService.cache :=
                 map (fun i => (under i, entryOf i)) (first :: second :: rest);
               MemoryCacheService.accessOrder :=
                 (under first, N + 1) :: (under second, 2)
                   :: numbered 3 (map (@under V) rest);
               MemoryCacheService.accessCounter := N + 1 |})).
  { unfold read. rewrite Hfilled. unfold MemoryCacheService.get.
    cbn [MemoryCacheService.cache map JsMap.get]. rewrite String.eqb_refl.
    cbn [entryOf expiresAt value].
    replace (readAt >? at_time first + lifetime first) with false
      by (symmetry; rewrite Z.gtb_ltb; apply Z.ltb_ge; exact Halive).
    unfold MemoryCacheService.touch.
    cbn [MemoryCacheService.cache MemoryCacheService.accessOrder
         MemoryCacheService.accessCounter numbered map JsMap.set Z.add Pos.add].
    now rewrite String.eqb_refl. }
  split; [now rewrite Hread|].
  unfold final. rewrite Hread. cbn [snd]. unfold MemoryCacheService.set.
  rewrite maxSize_N.
  cbn [MemoryCacheService.cache MemoryCacheService.accessOrder
       MemoryCacheService.accessCounter].
  assert (Hsize : JsMap.size (map (fun i => (under i, entryOf i)) (first :: second :: rest))
                  = N).
  { unfold JsMap.size. now rewrite length_map, HN. }
  rewrite Hsize.
  assert (HN2 : 2 <= N) by (rewrite HN; cbn [List.length]; lia).
  replace (N =? 0) with false by (symmetry; apply Z.eqb_neq; lia).
  replace (N >=? N) with true by (symmetry; apply Z.geb_le; lia).
  rewrite has_absent.
  2:{ unfold JsMap.keys. rewrite map_map. cbn [fst map].
      intros [Heq|[Heq|Hin]].
      - apply Hextra. left. exact Heq.
      - apply Hextra2. now symmetry.
      - apply Hextra. right. exact Hin. }
  cbn [negb andb].
  unfold MemoryCacheService.evictLeastRecentlyUsed.
  cbn [MemoryCacheService.accessOrder].
  replace (JsMap.size ((under first, N + 1) :: (under second, 2)
                         :: numbered 3 (map (@under V) rest)) =? 0) with false
    by (symmetry; apply Z.eqb_neq; unfold JsMap.size; cbn [List.length]; lia).
  cbn [fold_left MemoryCacheService.lruScan].
  replace (2 <? N + 1) with true by (symmetry; apply Z.ltb_lt; lia).
  rewrite lruScan_stable
    by (eapply Forall_impl; [|apply numbered_at_least]; simpl; intros; lia).
  cbn [fst Js.truthy_string].
  apply String.eqb_neq in Hnamed. rewrite Hnamed. cbn [negb].
  unfold MemoryCacheService.delete.
  cbn [MemoryCacheService.cache MemoryCacheService.accessOrder
       MemoryCacheService.accessCounter map JsMap.delete filter fst].
  replace (String.eqb (under first) (under second)) with false
    by (symmetry; apply String.eqb_neq; exact Hne12).
  rewrite String.eqb_refl. cbn [negb].
  change (filter (fun kv => negb (String.eqb (fst kv) (under second)))
            (map (fun i => (under i, entryOf i)) rest))
    with (JsMap.delete (map (fun i => (under i, entryOf i)) rest) (under second)).
  rewrite delete_absent
    by (unfold JsMap.keys; rewrite map_map; cbn [fst]; exact Hsecond_rest).
  rewrite set_fresh_appends; [reflexivity|].
  unfold JsMap.keys. cbn [map fst]. rewrite map_map. cbn [fst].
  exact Hextra.
Qed.

End Eviction.

(** ** [SimpleCache] and [MemoryCacheService] *)

(** With a non-zero [maxSize] the two classes are the same program. *)
Lemma SimpleCache_set_agrees {V} (config : CacheConfig) (m : Z)
    now key (v : V) ttl (s : MemoryCacheService.State V) :
  maxSize config = Some m -> m <> 0 ->
  SimpleCache.set m now key v ttl s = MemoryCacheService.set config now key v ttl s.
Proof.
  intros Hm Hnz. unfold SimpleCache.set, MemoryCacheService.set. rewrite Hm.
  replace (m =? 0) with false by (symmetry; apply Z.eqb_neq; exact Hnz).
  reflexivity.
Qed.

Lemma SimpleCache_get_agrees {V} now key (s : MemoryCacheService.State V) :
  SimpleCache.get now key s = MemoryCacheService.get now key s.
Proof. reflexivity. Qed.

Lemma SimpleCache_has_agrees {V} now key (s : MemoryCacheService.State V) :
  SimpleCache.has now key s = MemoryCacheService.has now key s.
Proof. reflexivity. Qed.

(** ** The empty string as a key *)

(** C5.  At capacity [N = 2], store under ["a"], then under the empty
    string, read ["a"], then store under ["c"].  The least recently
    touched key is the empty string, the second one inserted; the guard
    [if (lruKey)] takes it for "no key", so nothing is evicted: all three
    keys are present afterwards.  With the second key named ["b"] the same
    calls evict ["b"] and keep ["a"]. *)
Theorem lru_eviction_skips_empty_key :
  let config := {| defaultTtl := 1000; maxSize := Some 2; evictionStrategy := Some lru |} in
  let calls (second : string) :=
    [MemoryCacheService.Set_ 0 "a" 1 5000;
     MemoryCacheService.Set_ 0 second 2 5000;
     MemoryCacheService.Get 0 "a";
     MemoryCacheService.Set_ 0 "c" 3 5000] in
  JsMap.keys
    (MemoryCacheService.cache
       (MemoryCacheService.run config (calls EmptyString) MemoryCacheService.initial))
  = ["a"; EmptyString; "c"]
  /\ JsMap.keys
       (MemoryCacheService.cache
          (MemoryCacheService.run config (calls "b") MemoryCacheService.initial))
     = ["a"; "c"].
Proof. split; reflexivity. Qed.

(** C9.  With [maxSize = 1], storing under the empty string and then under
    ["a"] leaves two entries: the eviction finds the empty string as the
    least recently used key and its guard [if (lruKey)] skips the delete.
    [MemoryCacheService] and [SimpleCache] behave alike.  The two maps
    still hold the same keys. *)
Theorem capacity_exceeded_by_empty_key :
  let config := {| defaultTtl := 1000; maxSize := Some 1; evictionStrategy := Some lru |} in
  let s :=
    MemoryCacheService.run config
      [MemoryCacheService.Set_ 0 EmptyString 1 5000;
       MemoryCacheService.Set_ 0 "a" 2 5000]
      MemoryCacheService.initial in
  let s' :=
    SimpleCache.run 1
      [SimpleCache.Set_ 0 EmptyString 1 5000; SimpleCache.Set_ 0 "a" 2 5000]
      SimpleCache.initial in
  JsMap.size (MemoryCacheService.cache s) = 2
  /\ JsMap.size (MemoryCacheService.cache s') = 2
  /\ JsMap.keys (MemoryCacheService.cache s) = [EmptyString; "a"]
  /\ JsMap.keys (MemoryCacheService.accessOrder s) = [EmptyString; "a"].
Proof. repeat split; reflexivity. Qed.

(** ** Cache keys *)

(** In [PaginatorService] the key is a function of the data, [page] and
    [pageSize] alone. *)
Lemma service_key_depends_on_page_and_size
    {T} `{Serializable T} (items : list T) (config config' : PaginationConfig) :
  page config = page config' ->
  pageSize config = pageSize config' ->
  PaginatorService.generateCacheKey items config
  = PaginatorService.generateCacheKey items config'.
Proof.
  intros Hp Hs. unfold PaginatorService.generateCacheKey. now rewrite Hp, Hs.
Qed.

(** C4.  Two calls of [CorePaginator] on the same (empty) data with the
    same [page = 1] and [pageSize = 10], caching enabled, that differ only
    in [cacheTtl] ([1000] against [2000]) look up and store under different
    keys, because [paginateNormal] hashes the whole configuration object;
    [PaginatorService], which hashes [{ page, pageSize }] only, gives both
    calls one key. *)
Theorem core_cache_key_depends_on_ttl :
  let config (ttl : Z) :=
    {| page := 1; pageSize := 10; maxPageSize := None;
       enableCache := Some true; cacheTtl := Some ttl |} in
  let calls (ttl : Z) :=
    backend
      (snd (CorePaginator.paginateNormal (T := Z) (Some journal) [] (config ttl)
              {| backend := []; console := [] |})) in
  calls 1000
  = [GetCall "pagination:28y:syt83"; SetCall "pagination:28y:syt83" 1000]
  /\ calls 2000
     = [GetCall "pagination:28y:xeevuc"; SetCall "pagination:28y:xeevuc" 2000]
  /\ PaginatorService.generateCacheKey (T := Z) [] (config 1000)
     = PaginatorService.generateCacheKey (T := Z) [] (config 2000).
Proof. vm_compute. repeat split; reflexivity. Qed.

(** ** Lifetime of a stored page *)

(** A failed write that is caught and logged still lets the call go on. *)
Lemma tryCatch_warn_returns {St} (m : Run St unit) (text : string) (w : World St) :
  fst (tryCatch m (console_warn text) w) = Returned tt.
Proof.
  unfold tryCatch, console_warn. destruct (m w) as [[[]|e] w']; reflexivity.
Qed.

Section Miss.

Context {T : Type} `{Serializable T} {St : Type}.
Variable svc : CacheService St (PaginatedResult T).

(** On a miss, [PaginatorService.paginate] hands the fresh result to
    [cache.set] under the call's key, with the lifetime [cacheTtl ||
    DEFAULT_CACHE_TTL]. *)
Lemma service_paginate_miss (items : list T) config (w : World St) (b : St) r :
  PaginatorService.validateConfig config = Returned tt ->
  Js.truthy_bool (enableCache config) = true ->
  cache_get svc (PaginatorService.generateCacheKey items config) (backend w)
  = (Returned None, b) ->
  computed items (page config) (pageSize config) = Returned r ->
  PaginatorService.paginate (Some svc) items config w
  = (Returned r,
     snd (tryCatch
            (call (cache_set svc (PaginatorService.generateCacheKey items config) r
                     (Js.or_default (cacheTtl config) 300000)))
            (console_warn "Failed to cache pagination result:")
            {| backend := b; console := console w |})).
Proof.
  intros Hv Hon Hget Hr.
  unfold PaginatorService.paginate, PaginatorService.cacheInUse, bind, lift.
  rewrite Hv, Hon. unfold call at 1. rewrite Hget.
  unfold computed in Hr.
  destruct ((_ >? 0) && negb _); [discriminate|].
  injection Hr as <-.
  change PaginatorService.DEFAULT_CACHE_TTL with 300000.
  unfold freshResult, pageSlice. cbv zeta.
  set (attempt := tryCatch _ _ _).
  pose proof (tryCatch_warn_returns _ _ _ : fst attempt = Returned tt) as Hok.
  destruct attempt as [o w1]. cbn [fst snd] in *. subst o. reflexivity.
Qed.

Lemma core_paginateNormal_miss (items : list T) config (w : World St) (b : St) r :
  CorePaginator.validateConfig config = Returned tt ->
  Js.truthy_bool (enableCache config) = true ->
  cache_get svc
    (CorePaginator.generateCacheKey items (CorePaginator.configObject config))
    (backend w)
  = (Returned None, b) ->
  computed items (page config) (pageSize config) = Returned r ->
  CorePaginator.paginateNormal (Some svc) items config w
  = (Returned r,
     snd (tryCatch
            (call (cache_set svc
                     (CorePaginator.generateCacheKey items
                        (CorePaginator.configObject config)) r
                     (Js.or_default (cacheTtl config) 300000)))
            (console_warn "Failed to cache pagination result:")
            {| backend := b; console := console w |})).
Proof.
  intros Hv Hon Hget Hr.
  unfold CorePaginator.paginateNormal, CorePaginator.cacheInUse, bind, lift.
  rewrite Hv, Hon. unfold call at 1. rewrite Hget.
  unfold computed in Hr.
  change CorePaginator.calculateTotalPages with PaginationUtils.calculateTotalPages.
  change CorePaginator.isValidPage with PaginationUtils.isValidPage.
  destruct ((_ >? 0) && negb _); [discriminate|].
  injection Hr as <-.
  change CorePaginator.DEFAULT_CACHE_TTL with 300000.
  unfold freshResult, pageSlice. cbv zeta.
  set (attempt := tryCatch _ _ _).
  pose proof (tryCatch_warn_returns _ _ _ : fst attempt = Returned tt) as Hok.
  destruct attempt as [o w1]. cbn [fst snd] in *. subst o. reflexivity.
Qed.

(** On a miss that finds the page out of range, nothing is stored. *)
Lemma service_paginate_miss_not_found (items : list T) config (w : World St) (b : St) e :
  PaginatorService.validateConfig config = Returned tt ->
  Js.truthy_bool (enableCache config) = true ->
  cache_get svc (PaginatorService.generateCacheKey items config) (backend w)
  = (Returned None, b) ->
  computed items (page config) (pageSize config) = Thrown e ->
  PaginatorService.paginate (Some svc) items config w
  = (Thrown e, {| backend := b; console := console w |}).
Proof.
  intros Hv Hon Hget Hr.
  unfold PaginatorService.paginate, PaginatorService.cacheInUse, bind, lift.
  rewrite Hv, Hon. unfold call at 1. rewrite Hget.
  unfold computed in Hr.
  destruct ((_ >? 0) && negb _); [|discriminate].
  injection Hr as <-. reflexivity.
Qed.

Lemma core_paginateNormal_miss_not_found
    (items : list T) config (w : World St) (b : St) e :
  CorePaginator.validateConfig config = Returned tt ->
  Js.truthy_bool (enableCache config) = true ->
  cache_get svc
    (CorePaginator.generateCacheKey items (CorePaginator.configObject config))
    (backend w)
  = (Returned None, b) ->
  computed items (page config) (pageSize config) = Thrown e ->
  CorePaginator.paginateNormal (Some svc) items config w
  = (Thrown e, {| backend := b; console := console w |}).
Proof.
  intros Hv Hon Hget Hr.
  unfold CorePaginator.paginateNormal, CorePaginator.cacheInUse, bind, lift.
  rewrite Hv, Hon. unfold call at 1. rewrite Hget.
  unfold computed in Hr.
  change CorePaginator.calculateTotalPages with PaginationUtils.calculateTotalPages.
  change CorePaginator.isValidPage with PaginationUtils.isValidPage.
  destruct ((_ >? 0) && negb _); [|discriminate].
  injection Hr as <-. reflexivity.
Qed.

End Miss.

(** The lifetime handed to [cache.set]: the configured one unless it is
    absent or zero. *)
Lemma stored_lifetime (ttl : option Z) :
  Js.or_default ttl 300000
  = match ttl with
    | Some 0 => 300000
    | Some t => t
    | None => 300000
    end.
Proof. destruct ttl as [[|p|p]|]; reflexivity. Qed.

(** C8.  A call with caching enabled and [cacheTtl = 0], which the
    validator accepts, stores its page with the default lifetime
    [300000] ms and not with the lifetime [0] it was given: the journal of
    the backend shows it for both engines, and in [MemoryCacheService] the
    entry written at clock [5000] expires at [305000]. *)
Theorem zero_ttl_replaced_by_default :
  let config :=
    {| page := 1; pageSize := 10; maxPageSize := None;
       enableCache := Some true; cacheTtl := Some 0 |} in
  let memory :=
    MemoryCacheService.service
      {| defaultTtl := 1000; maxSize := Some 3; evictionStrategy := Some lru |} in
  PaginatorService.validateConfig config = Returned tt
  /\ backend
       (snd (PaginatorService.paginate (Some journal) [1; 2; 3] config
               {| backend := []; console := [] |}))
     = [GetCall "pagination:9za3ga:16y4d9"; SetCall "pagination:9za3ga:16y4d9" 300000]
  /\ backend
       (snd (CorePaginator.paginateNormal (Some journal) [1; 2; 3] config
               {| backend := []; console := [] |}))
     = [GetCall "pagination:9za3ga:x3wy6k"; SetCall "pagination:9za3ga:x3wy6k" 300000]
  /\ map (fun kv => expiresAt (snd kv))
       (MemoryCacheService.cache
          (MemoryCacheService.store
             (backend
                (snd (PaginatorService.paginate (Some memory) [1; 2; 3] config
                        {| backend :=
                             {| MemoryCacheService.clock := 5000;
                                MemoryCacheService.store := MemoryCacheService.initial |};
                           console := [] |})))))
     = [305000].
Proof. vm_compute. repeat split; reflexivity. Qed.

(** ** A failing cache write *)

Lemma validateConfig_withoutCache config :
  PaginatorService.validateConfig (withoutCache config)
  = PaginatorService.validateConfig config.
Proof. reflexivity. Qed.

(** C7, as stated, fails: a backend whose [set] always throws but whose
    [get] answers with a held result makes [paginate] return that held
    result, marked [fromCache = true], and not the page it would compute
    with caching disabled. *)
Lemma held_result_returned_despite_failing_set :
  let held : PaginatedResult Z :=
    CorePaginator.allDataResult [7; 8; 9] in
  let config :=
    {| page := 1; pageSize := 2; maxPageSize := None;
       enableCache := Some true; cacheTtl := None |} in
  let w := {| backend := held; console := [] |} in
  (forall key v ttl b,
      exists e, cache_set (readOnly (V := PaginatedResult Z)) key v ttl b = (Thrown e, b))
  /\ PaginatorService.validateConfig config = Returned tt
  /\ fst (PaginatorService.paginate (Some readOnly) [1; 2; 3] config w)
     = Returned (markFromCache held)
  /\ fst (PaginatorService.paginate (Some readOnly) [1; 2; 3] (withoutCache config) w)
     = Returned (freshResult [1; 2; 3] 1 2)
  /\ fst (PaginatorService.paginate (Some readOnly) [1; 2; 3] config w)
     <> fst (PaginatorService.paginate (Some readOnly) [1; 2; 3] (withoutCache config) w).
Proof.
  cbv zeta. split; [intros key v ttl b; eexists; reflexivity|].
  split; [reflexivity|]. split; [reflexivity|]. split; [reflexivity|].
  vm_compute. discriminate.
Qed.

(** C7 (amended).  Let the backend's [set] throw on every call and let its
    [get] report a miss for the call's key.  Then, for every configuration
    the validator accepts with [enableCache = true], [paginate] ends as it
    does with caching disabled: it returns the same freshly computed
    result, with [fromCache = false], or throws the same
    [PageNotFoundException]; the error of the cache is not propagated.
    This holds of [PaginatorService.paginate] and of
    [CorePaginator.paginateNormal]. *)
Theorem failing_set_is_swallowed
    {T} `{Serializable T} {St}
    (svc : CacheService St (PaginatedResult T))
    (items : list T) (config : PaginationConfig) (w : World St) :
  PaginatorService.validateConfig config = Returned tt ->
  enableCache config = Some true ->
  (forall key v ttl b, exists e b', cache_set svc key v ttl b = (Thrown e, b')) ->
  (exists b,
      cache_get svc (PaginatorService.generateCacheKey items config) (backend w)
      = (Returned None, b)) ->
  (exists b,
      cache_get svc
        (CorePaginator.generateCacheKey items (CorePaginator.configObject config))
        (backend w)
      = (Returned None, b)) ->
  let cached := fst (PaginatorService.paginate (Some svc) items config w) in
  let cached' := fst (CorePaginator.paginateNormal (Some svc) items config w) in
  cached = fst (PaginatorService.paginate (Some svc) items (withoutCache config) w)
  /\ cached' = fst (CorePaginator.paginateNormal (Some svc) items (withoutCache config) w)
  /\ cached' = cached
  /\ (forall r, cached = Returned r -> fromCache r = false)
  /\ (forall e, cached = Thrown e -> exists p n, e = PageNotFoundException p n)
  /\ (forall r, cached = Returned r ->
        exists e,
          console (snd (PaginatorService.paginate (Some svc) items config w))
          = (console w
               ++ [("Failed to cache pagination result:" ++ " " ++ message e)%string])%list).
Proof.
  intros Hv Hon Hset [b Hget] [b' Hget'] cached cached'.
  assert (Htruthy : Js.truthy_bool (enableCache config) = true) by now rewrite Hon.
  assert (Hcached : cached = computed items (page config) (pageSize config)).
  { unfold cached. destruct (computed items (page config) (pageSize config)) as [r|e] eqn:Hc.
    - rewrite service_paginate_miss with (b := b) (r := r);
        [reflexivity|assumption..].
    - rewrite service_paginate_miss_not_found with (b := b) (e := e);
        [reflexivity|assumption..]. }
  assert (Hcached' : cached' = computed items (page config) (pageSize config)).
  { unfold cached'. destruct (computed items (page config) (pageSize config)) as [r|e] eqn:Hc.
    - rewrite core_paginateNormal_miss with (b := b') (r := r);
        [reflexivity|assumption..].
    - rewrite core_paginateNormal_miss_not_found with (b := b') (e := e);
        [reflexivity|assumption..]. }
  rewrite service_paginate_uncached, core_paginateNormal_uncached;
    try reflexivity; try exact Hv.
  cbn [fst withoutCache page pageSize].
  split; [exact Hcached|]. split; [exact Hcached'|]. split; [congruence|].
  assert (Hlog : forall r, cached = Returned r ->
            exists e,
              console (snd (PaginatorService.paginate (Some svc) items config w))
              = (console w
                   ++ [("Failed to cache pagination result:" ++ " " ++ message e)%string])%list).
  { intros r Hr. rewrite Hcached in Hr.
    rewrite service_paginate_miss with (b := b) (r := r) by assumption.
    cbn [snd]. unfold tryCatch, call. cbn [backend console].
    destruct (Hset (PaginatorService.generateCacheKey items config) r
                (Js.or_default (cacheTtl config) 300000) b) as (e & b2 & Hthrown).
    rewrite Hthrown. exists e. reflexivity. }
  rewrite Hcached in *. unfold computed in *.
  destruct ((_ >? 0) && negb _).
  - split; [discriminate|]. split; [|exact Hlog].
    intros e He. injection He as <-. eauto.
  - split; [|split; [discriminate|exact Hlog]].
    intros r Hr. injection Hr as <-. reflexivity.
Qed.

Lemma failing_set_is_swallowed_witness :
  let config :=
    {| page := 2; pageSize := 2; maxPageSize := None;
       enableCache := Some true; cacheTtl := None |} in
  let w := {| backend := tt; console := [] |} in
  fst (PaginatorService.paginate (Some writeFailing) [1; 2; 3] config w)
  = fst (PaginatorService.paginate (Some writeFailing) [1; 2; 3] (withoutCache config) w).
Proof.
  apply (@failing_set_is_swallowed Z _ unit writeFailing [1; 2; 3]
           {| page := 2; pageSize := 2; maxPageSize := None;
              enableCache := Some true; cacheTtl := None |}
           {| backend := tt; console := [] |}).
  - reflexivity.
  - reflexivity.
  - intros key v ttl b. eexists. eexists. reflexivity.
  - eexists. reflexivity.
  - eexists. reflexivity.
Defined.

(** The warning left on the console by the swallowed failure. *)
Lemma failing_set_is_logged :
  console
    (snd (PaginatorService.paginate (Some writeFailing) [1; 2; 3]
            {| page := 2; pageSize := 2; maxPageSize := None;
               enableCache := Some true; cacheTtl := None |}
            {| backend := tt; console := [] |}))
  = ["Failed to cache pagination result: write failed"].
Proof. reflexivity. Qed.

(** * Further properties of the engine *)

(** ** The window of a page *)

Lemma nth_error_slice {A} (l : list A) (a b : Z) (i : nat) :
  0 <= a <= b -> b <= Z.of_nat (List.length l) ->
  Z.of_nat i < b - a ->
  nth_error (Js.slice l a b) i = nth_error l (Z.to_nat a + i).
Proof.
  intros Hab Hb Hi. rewrite slice_inside by assumption.
  rewrite nth_error_firstn.
  replace (i <? Z.to_nat (b - a))%nat with true
    by (symmetry; apply Nat.ltb_lt; lia).
  apply nth_error_skipn.
Qed.

(** X1.  With caching disabled, an accepted configuration and a page in
    [1 .. totalPages], [PaginatorService.paginate] returns the items at the
    indices [(page-1)*pageSize .. ] of the input, in order and unchanged:
    between [1] and [pageSize] of them, exactly [pageSize] unless the input
    ends first.  The meta block agrees with that window: [firstItemIndex]
    is one past the start index, [lastItemIndex - firstItemIndex + 1] is
    the number of items returned, [hasNext] is true exactly when items
    remain after [lastItemIndex], and [hasPrevious] exactly when the window
    does not start at the first item.  The backend and the console are left
    as they were. *)
Theorem page_is_a_window_of_the_input
    {T} `{Serializable T} {St}
    (cacheService : option (CacheService St (PaginatedResult T)))
    (items : list T) (config : PaginationConfig) (w : World St) :
  PaginatorService.validateConfig config = Returned tt ->
  Js.truthy_bool (enableCache config) = false ->
  1 <= page config
    <= PaginationUtils.calculateTotalPages (Z.of_nat (List.length items)) (pageSize config) ->
  exists r : PaginatedResult T,
    PaginatorService.paginate cacheService items config w = (Returned r, w)
    /\ (forall i : nat,
          (i < List.length (data r))%nat ->
          nth_error (data r) i
          = nth_error items (Z.to_nat ((page config - 1) * pageSize config) + i))
    /\ Z.of_nat (List.length (data r))
       = Z.min (pageSize config)
           (Z.of_nat (List.length items) - (page config - 1) * pageSize config)
    /\ 1 <= Z.of_nat (List.length (data r)) <= pageSize config
    /\ Meta.firstItemIndex (meta r) = (page config - 1) * pageSize config + 1
    /\ Meta.lastItemIndex (meta r)
       = Meta.firstItemIndex (meta r) + Z.of_nat (List.length (data r)) - 1
    /\ (Meta.hasNext (meta r) = true
        <-> Meta.lastItemIndex (meta r) < Z.of_nat (List.length items))
    /\ (Meta.hasPrevious (meta r) = true <-> 1 < Meta.firstItemIndex (meta r)).
Proof.
  intros Hv Hoff Hrange.
  destruct (proj1 (validateConfig_accepts config) Hv) as (Hp & Hs & _).
  set (n := Z.of_nat (List.length items)) in *.
  set (size := pageSize config) in *. set (p := page config) in *.
  set (totalPages := PaginationUtils.calculateTotalPages n size) in *.
  assert (Hn : 0 < n).
  { destruct (Z.eq_dec n 0) as [Hz|Hz]; [|unfold n in *; lia].
    unfold totalPages in Hrange. rewrite Hz in Hrange. cbn in Hrange. lia. }
  assert (Hceil : is_ceiling n size totalPages)
    by (apply calculateTotalPages_is_ceiling; lia).
  destruct Hceil as [Hlow Hup].
  assert (Hstart : (p - 1) * size < n) by nia.
  exists (freshResult items p size). split.
  { rewrite service_paginate_uncached; try assumption.
    - fold p. fold size. rewrite computed_in_range by exact Hrange. reflexivity.
    - unfold PaginatorService.cacheInUse. now rewrite Hoff. }
  assert (Hslice : data (freshResult items p size)
                   = Js.slice items ((p - 1) * size) (Z.min (p * size) n)).
  { cbn [data freshResult]. apply pageSlice_eq; assumption. }
  assert (Hlen : Z.of_nat (List.length (data (freshResult items p size)))
                 = Z.min (p * size) n - (p - 1) * size).
  { rewrite Hslice. apply slice_length; fold n; nia. }
  split.
  { intros i Hi. rewrite Hslice. apply nth_error_slice; fold n; try nia. }
  split; [rewrite Hlen; nia|].
  split; [rewrite Hlen; nia|].
  assert (Hfirst : Meta.firstItemIndex (meta (freshResult items p size))
                   = (p - 1) * size + 1).
  { cbn [meta freshResult Meta.firstItemIndex]. fold n.
    replace (n >? 0) with true by (symmetry; apply Z.gtb_lt; exact Hn).
    unfold PaginationUtils.calculateStartIndex.
    replace (p <=? 0) with false by (symmetry; apply Z.leb_gt; lia).
    replace (size <=? 0) with false by (symmetry; apply Z.leb_gt; lia).
    reflexivity. }
  assert (Hlast : Meta.lastItemIndex (meta (freshResult items p size))
                  = Z.min (p * size) n).
  { cbn [meta freshResult Meta.lastItemIndex]. fold n.
    replace (n >? 0) with true by (symmetry; apply Z.gtb_lt; exact Hn).
    unfold PaginationUtils.calculateEndIndex, PaginationUtils.calculateStartIndex.
    replace (p <=? 0) with false by (symmetry; apply Z.leb_gt; lia).
    replace (size <=? 0) with false by (symmetry; apply Z.leb_gt; lia).
    cbn [orb]. f_equal. lia. }
  rewrite Hfirst, Hlast, Hlen.
  split; [reflexivity|]. split; [lia|].
  cbn [meta freshResult Meta.hasNext Meta.hasPrevious]. fold n. fold totalPages.
  split.
  - rewrite Z.ltb_lt. split; intros Hnext; nia.
  - rewrite Z.gtb_lt. split; intros Hprev; nia.
Qed.

Lemma page_is_a_window_of_the_input_witness :
  exists r : PaginatedResult Z,
    PaginatorService.paginate (St := unit) None [10; 20; 30; 40; 50]
      {| page := 3; pageSize := 2; maxPageSize := None;
         enableCache := None; cacheTtl := None |}
      {| backend := tt; console := [] |}
    = (Returned r, {| backend := tt; console := [] |})
    /\ Z.of_nat (List.length (data r)) = 1.
Proof.
  destruct (@page_is_a_window_of_the_input Z _ unit None [10; 20; 30; 40; 50]
              {| page := 3; pageSize := 2; maxPageSize := None;
                 enableCache := None; cacheTtl := None |}
              {| backend := tt; console := [] |})
    as (r & Hrun & _ & Hlen & _).
  - reflexivity.
  - reflexivity.
  - vm_compute. split; discriminate.
  - exists r. split; [exact Hrun|]. rewrite Hlen. reflexivity.
Defined.

(** ** Validation comes first *)

Lemma core_paginateNormal_invalid
    {T} `{Serializable T} {St}
    (cacheService : option (CacheService St (PaginatedResult T)))
    (items : list T) config (w : World St) e :
  CorePaginator.validateConfig config = Thrown e ->
  CorePaginator.paginateNormal cacheService items config w = (Thrown e, w).
Proof.
  intros Hv. unfold CorePaginator.paginateNormal, bind, lift. rewrite Hv. reflexivity.
Qed.

(** X2.  A configuration the validator rejects stops both engines before
    any cache call: the error is thrown with the backend and the console
    untouched, whatever cache is attached and whether or not caching is
    enabled.  The checks run in a fixed order: a page below [1] gives
    [InvalidPaginationConfigException]; otherwise a page size below [1]
    gives [InvalidPageSizeException] without a maximum; otherwise a page
    size above the maximum ([maxPageSize], or [100] when it is absent or
    [0]) gives [InvalidPageSizeException] with that maximum; otherwise a
    negative [cacheTtl] gives [InvalidPaginationConfigException]. *)
Theorem invalid_config_stops_before_the_cache
    {T} `{Serializable T} {St}
    (cacheService : option (CacheService St (PaginatedResult T)))
    (items : list T) (config : PaginationConfig) (w : World St) :
  let max := Js.or_default (maxPageSize config) 100 in
  let stopped (e : Exception) :=
    PaginatorService.paginate cacheService items config w = (Thrown e, w)
    /\ CorePaginator.paginateNormal cacheService items config w = (Thrown e, w) in
  (page config < 1 ->
     stopped (InvalidPaginationConfigException "Page number must be a positive integer"))
  /\ (1 <= page config -> pageSize config < 1 ->
        stopped (InvalidPageSizeException (pageSize config) None))
  /\ (1 <= page config -> 1 <= pageSize config -> max < pageSize config ->
        stopped (InvalidPageSizeException (pageSize config) (Some max)))
  /\ (forall ttl : Z,
        1 <= page config -> 1 <= pageSize config <= max ->
        cacheTtl config = Some ttl -> ttl < 0 ->
        stopped (InvalidPaginationConfigException
                   "Cache TTL must be a non-negative integer")).
Proof.
  intros max stopped.
  assert (Hstop : forall e, PaginatorService.validateConfig config = Thrown e -> stopped e).
  { intros e He. split.
    - apply service_paginate_invalid. exact He.
    - apply core_paginateNormal_invalid. exact He. }
  unfold PaginatorService.validateConfig, Js.Number_isInteger in Hstop.
  cbn [negb orb] in Hstop.
  change PaginatorService.DEFAULT_MAX_PAGE_SIZE with 100 in Hstop. fold max in Hstop.
  split; [|split; [|split]].
  - intros Hp. apply Hstop.
    replace (page config <? 1) with true by (symmetry; apply Z.ltb_lt; exact Hp).
    reflexivity.
  - intros Hp Hs. apply Hstop.
    replace (page config <? 1) with false by (symmetry; apply Z.ltb_ge; exact Hp).
    replace (pageSize config <? 1) with true by (symmetry; apply Z.ltb_lt; exact Hs).
    reflexivity.
  - intros Hp Hs Hmax. apply Hstop.
    replace (page config <? 1) with false by (symmetry; apply Z.ltb_ge; exact Hp).
    replace (pageSize config <? 1) with false by (symmetry; apply Z.ltb_ge; exact Hs).
    replace (pageSize config >? max) with true by (symmetry; apply Z.gtb_lt; exact Hmax).
    reflexivity.
  - intros ttl Hp Hs Httl Hneg. apply Hstop.
    replace (page config <? 1) with false by (symmetry; apply Z.ltb_ge; exact Hp).
    replace (pageSize config <? 1) with false by (symmetry; apply Z.ltb_ge; lia).
    replace (pageSize config >? max) with false
      by (symmetry; rewrite Z.gtb_ltb; apply Z.ltb_ge; lia).
    rewrite Httl.
    replace (ttl <? 0) with true by (symmetry; apply Z.ltb_lt; exact Hneg).
    reflexivity.
Qed.

Lemma invalid_config_stops_before_the_cache_witness :
  let w := {| backend := []; console := [] |} in
  PaginatorService.paginate (Some journal) [1; 2; 3]
    {| page := 0; pageSize := 10; maxPageSize := None;
       enableCache := Some true; cacheTtl := None |} w
  = (Thrown (InvalidPaginationConfigException "Page number must be a positive integer"), w)
  /\ PaginatorService.paginate (Some journal) [1; 2; 3]
       {| page := 1; pageSize := 0; maxPageSize := None;
          enableCache := Some true; cacheTtl := None |} w
     = (Thrown (InvalidPageSizeException 0 None), w)
  /\ PaginatorService.paginate (Some journal) [1; 2; 3]
       {| page := 1; pageSize := 101; maxPageSize := None;
          enableCache := Some true; cacheTtl := None |} w
     = (Thrown (InvalidPageSizeException 101 (Some 100)), w)
  /\ PaginatorService.paginate (Some journal) [1; 2; 3]
       {| page := 1; pageSize := 10; maxPageSize := None;
          enableCache := Some true; cacheTtl := Some (-1) |} w
     = (Thrown (InvalidPaginationConfigException
                  "Cache TTL must be a non-negative integer"), w).
Proof.
  intros w.
  split.
  { apply (@invalid_config_stops_before_the_cache Z _ _ (Some journal) [1; 2; 3]
             {| page := 0; pageSize := 10; maxPageSize := None;
                enableCache := Some true; cacheTtl := None |} w).
    cbn. lia. }
  split.
  { apply (@invalid_config_stops_before_the_cache Z _ _ (Some journal) [1; 2; 3]
             {| page := 1; pageSize := 0; maxPageSize := None;
                enableCache := Some true; cacheTtl := None |} w);
      cbn; lia. }
  split.
  { apply (@invalid_config_stops_before_the_cache Z _ _ (Some journal) [1; 2; 3]
             {| page := 1; pageSize := 101; maxPageSize := None;
                enableCache := Some true; cacheTtl := None |} w);
      cbn; lia. }
  apply (proj2 (proj2 (proj2
           (@invalid_config_stops_before_the_cache Z _ _ (Some journal) [1; 2; 3]
              {| page := 1; pageSize := 10; maxPageSize := None;
                 enableCache := Some true; cacheTtl := Some (-1) |} w)))
           (-1));
    cbn; (reflexivity || lia).
Defined.

(** ** Defaults and explicit values in [CorePaginator.paginate] *)

(** The configuration with [page] and [pageSize] written out. *)
Lemma core_paginate_reaches_normal
    {T} `{Serializable T} {St}
    (cacheService : option (CacheService St (PaginatedResult T)))
    (items : list T) (config : CorePaginator.ExtendedPaginationConfig) (w : World St) :
  Js.truthy_bool (CorePaginator.Extended.noPagination config) = false ->
  (forall size, CorePaginator.Extended.pageSize config = Some size -> 0 < size) ->
  (forall p, CorePaginator.Extended.page config = Some p -> 0 < p) ->
  CorePaginator.paginate cacheService items config w
  = CorePaginator.paginateNormal cacheService items
      (CorePaginator.normalizeConfig config) w.
Proof.
  intros Hno Hsize Hpage. unfold CorePaginator.paginate. rewrite Hno.
  destruct (CorePaginator.Extended.pageSize config) as [size|].
  - specialize (Hsize size eq_refl).
    replace (size <=? 0) with false by (symmetry; apply Z.leb_gt; exact Hsize).
    unfold bind at 1. cbn [ret].
    destruct (CorePaginator.Extended.page config) as [p|].
    + specialize (Hpage p eq_refl).
      replace (p <=? 0) with false by (symmetry; apply Z.leb_gt; exact Hpage).
      reflexivity.
    + reflexivity.
  - unfold bind at 1. cbn [ret].
    destruct (CorePaginator.Extended.page config) as [p|].
    + specialize (Hpage p eq_refl).
      replace (p <=? 0) with false by (symmetry; apply Z.leb_gt; exact Hpage).
      reflexivity.
    + reflexivity.
Qed.

(** X3.  In [CorePaginator.paginate] without [noPagination], a page or
    page size that is left out is replaced by [1] and [10]: whichever of
    the two are left out, the call is the same as the one with the values
    written out, and with positive values it is [paginateNormal] on them.
    But an explicit page size [<= 0] throws
    [InvalidPageSizeException], and, the page size being absent or
    positive, an explicit page [<= 0] throws
    [InvalidPaginationConfigException]: the default does not rescue a
    value that was given.  Both errors leave the cache and the console
    untouched. *)
Theorem core_paginate_defaults_and_explicit_values
    {T} `{Serializable T} {St}
    (cacheService : option (CacheService St (PaginatedResult T)))
    (items : list T) (max : option Z) (cache : option bool) (ttl : option Z)
    (w : World St) :
  let config (p size : option Z) :=
    {| CorePaginator.Extended.page := p;
       CorePaginator.Extended.pageSize := size;
       CorePaginator.Extended.maxPageSize := max;
       CorePaginator.Extended.enableCache := cache;
       CorePaginator.Extended.cacheTtl := ttl;
       CorePaginator.Extended.noPagination := None |} in
  let written (given : option Z) (default : Z) :=
    match given with
    | Some v => v
    | None => default
    end in
  (forall p size,
     CorePaginator.paginate cacheService items (config p size) w
     = CorePaginator.paginate cacheService items
         (config (Some (written p 1)) (Some (written size 10))) w)
  /\ (forall p size, size <= 0 ->
        CorePaginator.paginate cacheService items (config p (Some size)) w
        = (Thrown (InvalidPageSizeException size None), w))
  /\ (forall p, p <= 0 ->
        CorePaginator.paginate cacheService items (config (Some p) None) w
        = (Thrown (InvalidPaginationConfigException
                     "Page number must be a positive integer"), w))
  /\ (forall p size, p <= 0 -> 0 < size ->
        CorePaginator.paginate cacheService items (config (Some p) (Some size)) w
        = (Thrown (InvalidPaginationConfigException
                     "Page number must be a positive integer"), w))
  /\ (forall p size,
        (forall v, p = Some v -> 0 < v) -> (forall v, size = Some v -> 0 < v) ->
        CorePaginator.paginate cacheService items (config p size) w
        = CorePaginator.paginateNormal cacheService items
            {| page := written p 1;
               pageSize := written size 10;
               maxPageSize := max;
               enableCache := cache;
               cacheTtl := ttl |} w).
Proof.
  intros config written. split; [|split; [|split; [|split]]].
  - intros [p|] [size|]; reflexivity.
  - intros p size Hsize. unfold CorePaginator.paginate. cbn.
    replace (size <=? 0) with true by (symmetry; apply Z.leb_le; exact Hsize).
    reflexivity.
  - intros p Hp. unfold CorePaginator.paginate. cbn.
    replace (p <=? 0) with true by (symmetry; apply Z.leb_le; exact Hp).
    reflexivity.
  - intros p size Hp Hsize. unfold CorePaginator.paginate. cbn.
    replace (size <=? 0) with false by (symmetry; apply Z.leb_gt; exact Hsize).
    replace (p <=? 0) with true by (symmetry; apply Z.leb_le; exact Hp).
    reflexivity.
  - intros p size Hp Hsize.
    rewrite core_paginate_reaches_normal;
      [|reflexivity|exact Hsize|exact Hp].
    unfold CorePaginator.normalizeConfig, CorePaginator.DEFAULT_PAGE_SIZE.
    cbn [config CorePaginator.Extended.page CorePaginator.Extended.pageSize
         CorePaginator.Extended.maxPageSize CorePaginator.Extended.enableCache
         CorePaginator.Extended.cacheTtl].
    destruct p as [v|], size as [v'|]; cbn [Js.or_default written].
    + specialize (Hp v eq_refl). specialize (Hsize v' eq_refl).
      replace (v =? 0) with false by (symmetry; apply Z.eqb_neq; lia).
      replace (v' =? 0) with false by (symmetry; apply Z.eqb_neq; lia).
      reflexivity.
    + specialize (Hp v eq_refl).
      replace (v =? 0) with false by (symmetry; apply Z.eqb_neq; lia).
      reflexivity.
    + specialize (Hsize v' eq_refl).
      replace (v' =? 0) with false by (symmetry; apply Z.eqb_neq; lia).
      reflexivity.
    + reflexivity.
Qed.

Lemma core_paginate_defaults_and_explicit_values_witness :
  let w := {| backend := tt; console := [] |} in
  CorePaginator.paginate (St := unit) None [1; 2; 3]
    {| CorePaginator.Extended.page := None;
       CorePaginator.Extended.pageSize := Some 0;
       CorePaginator.Extended.maxPageSize := None;
       CorePaginator.Extended.enableCache := None;
       CorePaginator.Extended.cacheTtl := None;
       CorePaginator.Extended.noPagination := None |} w
  = (Thrown (InvalidPageSizeException 0 None), w).
Proof.
  intros w.
  apply (proj1 (proj2 (@core_paginate_defaults_and_explicit_values
                         Z _ unit None [1; 2; 3] None None None w))).
  lia.
Defined.

Lemma bounds_law (totalItems pageSize : Z) :
  (totalItems <= 0 \/ pageSize <= 0 ->
     PaginationUtils.calculateTotalPages totalItems pageSize = 0)
  /\ (0 < totalItems -> 0 < pageSize ->
        0 < PaginationUtils.calculateTotalPages totalItems pageSize).
Proof.
  unfold PaginationUtils.calculateTotalPages. split.
  - intros Hle.
    destruct (totalItems <=? 0) eqn:E1; [reflexivity|].
    destruct (pageSize <=? 0) eqn:E2; [reflexivity|].
    apply Z.leb_gt in E1, E2. lia.
  - intros Hi Hp.
    pose proof (calculateTotalPages_is_ceiling Hi Hp) as [Hlow Hup].
    unfold PaginationUtils.calculateTotalPages in Hup. nia.
Qed.

(** ** Return-all mode *)

(** X4.  With [noPagination] set and no cache in use,
    [CorePaginator.paginate] returns the whole input as the single page
    [1] of [1], with [pageSize] and [totalItems] both equal to the length
    of the input; [page], [pageSize], [maxPageSize] and [cacheTtl] are not
    looked at, so values the validator would reject raise nothing here.
    [getAllDataSync] builds the same result, and [paginateWithLinks]
    attaches no links to it. *)
Theorem return_all_ignores_the_page_settings
    {T} `{Serializable T} {St}
    (cacheService : option (CacheService St (PaginatedResult T)))
    (items : list T) (config : CorePaginator.ExtendedPaginationConfig)
    (baseUrl : string) (w : World St) :
  CorePaginator.Extended.noPagination config = Some true ->
  CorePaginator.cacheInUse cacheService (CorePaginator.Extended.enableCache config)
  = None ->
  let n := Z.of_nat (List.length items) in
  let everything : PaginatedResult T :=
    {| data := items;
       meta :=
         {| Meta.currentPage := 1;
            Meta.pageSize := n;
            Meta.totalItems := n;
            Meta.totalPages := 1;
            Meta.hasPrevious := false;
            Meta.hasNext := false;
            Meta.firstItemIndex := if n =? 0 then 0 else 1;
            Meta.lastItemIndex := n |};
       fromCache := false |} in
  CorePaginator.paginate cacheService items config w = (Returned everything, w)
  /\ CorePaginator.getAllDataSync items = everything
  /\ CorePaginator.paginateWithLinks cacheService items config baseUrl w
     = (Returned {| result := everything; links := None |}, w).
Proof.
  intros Hall Hoff n everything.
  assert (Hsame : CorePaginator.allDataResult items = everything).
  { unfold CorePaginator.allDataResult, everything. fold n.
    assert (Hn : 0 <= n) by (unfold n; lia).
    destruct (Z.eq_dec n 0) as [Hz|Hz].
    - rewrite Hz. reflexivity.
    - replace (n >? 0) with true by (symmetry; apply Z.gtb_lt; lia).
      replace (n =? 0) with false by (symmetry; apply Z.eqb_neq; exact Hz).
      reflexivity. }
  assert (Hrun : CorePaginator.paginate cacheService items config w
                 = (Returned everything, w)).
  { unfold CorePaginator.paginate. rewrite Hall. cbn [Js.truthy_bool].
    unfold CorePaginator.returnAllData, bind. rewrite Hoff. cbn [ret].
    now rewrite Hsame. }
  split; [exact Hrun|]. split; [exact Hsame|].
  unfold CorePaginator.paginateWithLinks, bind. rewrite Hrun, Hall. reflexivity.
Qed.

Lemma return_all_ignores_the_page_settings_witness :
  fst (CorePaginator.paginate (St := unit) None [7; 8; 9]
         {| CorePaginator.Extended.page := Some (-3);
            CorePaginator.Extended.pageSize := Some 0;
            CorePaginator.Extended.maxPageSize := None;
            CorePaginator.Extended.enableCache := None;
            CorePaginator.Extended.cacheTtl := Some (-1);
            CorePaginator.Extended.noPagination := Some true |}
         {| backend := tt; console := [] |})
  = Returned (CorePaginator.getAllDataSync [7; 8; 9]).
Proof.
  destruct (@return_all_ignores_the_page_settings Z _ unit None [7; 8; 9]
              {| CorePaginator.Extended.page := Some (-3);
                 CorePaginator.Extended.pageSize := Some 0;
                 CorePaginator.Extended.maxPageSize := None;
                 CorePaginator.Extended.enableCache := None;
                 CorePaginator.Extended.cacheTtl := Some (-1);
                 CorePaginator.Extended.noPagination := Some true |}
              EmptyString {| backend := tt; console := [] |} eq_refl eq_refl)
    as (Hrun & Hsync & _).
  rewrite Hrun, Hsync. reflexivity.
Defined.

(** ** Smart mode *)

(** X5.  [smartPaginate] never uses the cache.  When the input has at most
    [maxItemsBeforePagination] items it returns all of them as one page,
    whatever [page] and [pageSize] are; when it has more, it is
    [simplePaginate] with caching off on the same page and page size. *)
Theorem smartPaginate_switches_on_the_threshold
    {T} `{Serializable T} {St}
    (cacheService : option (CacheService St (PaginatedResult T)))
    (items : list T) (threshold size p : Z) (w : World St) :
  (Z.of_nat (List.length items) <= threshold ->
     CorePaginator.smartPaginate cacheService items threshold size p w
     = (Returned (CorePaginator.getAllDataSync items), w))
  /\ (threshold < Z.of_nat (List.length items) ->
        CorePaginator.smartPaginate cacheService items threshold size p w
        = CorePaginator.simplePaginate cacheService items p size false w).
Proof.
  unfold CorePaginator.smartPaginate. split; intros Hn.
  - replace (Z.of_nat (List.length items) <=? threshold) with true
      by (symmetry; apply Z.leb_le; exact Hn).
    unfold CorePaginator.paginate. cbn [CorePaginator.Extended.noPagination Js.truthy_bool].
    unfold CorePaginator.returnAllData, bind, CorePaginator.cacheInUse.
    cbn [CorePaginator.Extended.enableCache Js.truthy_bool ret]. reflexivity.
  - replace (Z.of_nat (List.length items) <=? threshold) with false
      by (symmetry; apply Z.leb_gt; exact Hn).
    reflexivity.
Qed.

Lemma smartPaginate_switches_on_the_threshold_witness :
  let w := {| backend := tt; console := [] |} in
  CorePaginator.smartPaginate (St := unit) None [1; 2; 3] 3 2 9 w
  = (Returned (CorePaginator.getAllDataSync [1; 2; 3]), w)
  /\ CorePaginator.smartPaginate (St := unit) None [1; 2; 3] 2 2 2 w
     = CorePaginator.simplePaginate None [1; 2; 3] 2 2 false w.
Proof.
  intros w. split.
  - apply (@smartPaginate_switches_on_the_threshold Z _ unit None [1; 2; 3] 3 2 9 w).
    cbn. lia.
  - apply (@smartPaginate_switches_on_the_threshold Z _ unit None [1; 2; 3] 2 2 2 w).
    cbn. lia.
Defined.

(** ** [getAllPages] outside the accepted page sizes *)

(** X6.  [getAllPages] validates the page size only through the pages it
    computes.  A page size [<= 0], or an empty input with any page size,
    gives the empty list of pages and no error; a page size above [100] on
    a non-empty input fails at the first page with
    [InvalidPageSizeException (pageSize, 100)].  The cache and the console
    are untouched in every case. *)
Theorem getAllPages_outside_the_accepted_sizes
    {T} `{Serializable T} {St}
    (cacheService : option (CacheService St (PaginatedResult T)))
    (items : list T) (size : Z) (w : World St) :
  (size <= 0 \/ items = [] ->
     PaginatorService.getAllPages cacheService items size w = (Returned [], w))
  /\ (100 < size -> items <> [] ->
        PaginatorService.getAllPages cacheService items size w
        = (Thrown (InvalidPageSizeException size (Some 100)), w)).
Proof.
  unfold PaginatorService.getAllPages. split.
  - intros Hcase.
    assert (Hzero : PaginationUtils.calculateTotalPages
                      (Z.of_nat (List.length items)) size = 0).
    { apply (proj1 (bounds_law (Z.of_nat (List.length items)) size)).
      destruct Hcase as [Hs| ->]; [right; exact Hs|left; cbn; lia]. }
    rewrite Hzero. reflexivity.
  - intros Hbig Hne.
    assert (Hn : 0 < Z.of_nat (List.length items))
      by (destruct items; [congruence|cbn; lia]).
    assert (Hc : is_ceiling (Z.of_nat (List.length items)) size
                   (PaginationUtils.calculateTotalPages
                      (Z.of_nat (List.length items)) size))
      by (apply calculateTotalPages_is_ceiling; lia).
    destruct Hc as [Hlow Hup].
    destruct (Z.to_nat _) as [|k] eqn:Hk; [nia|].
    cbn [PaginatorService.getAllPages_from]. unfold bind.
    rewrite service_paginate_invalid
      with (e := InvalidPageSizeException size (Some 100)); [reflexivity|].
    unfold PaginatorService.validateConfig. cbn.
    unfold PaginatorService.DEFAULT_MAX_PAGE_SIZE.
    replace (size <? 1) with false by (symmetry; apply Z.ltb_ge; lia).
    replace (size >? 100) with true by (symmetry; apply Z.gtb_lt; lia).
    reflexivity.
Qed.

Lemma getAllPages_outside_the_accepted_sizes_witness :
  let w := {| backend := tt; console := [] |} in
  PaginatorService.getAllPages (St := unit) None [1; 2; 3] (-5) w = (Returned [], w)
  /\ PaginatorService.getAllPages (St := unit) None [1; 2; 3] 101 w
     = (Thrown (InvalidPageSizeException 101 (Some 100)), w).
Proof.
  intros w. split.
  - apply (@getAllPages_outside_the_accepted_sizes Z _ unit None [1; 2; 3] (-5) w).
    left. lia.
  - apply (@getAllPages_outside_the_accepted_sizes Z _ unit None [1; 2; 3] 101 w).
    + lia.
    + discriminate.
Defined.

(** ** Navigation links *)

Lemma formEncode_uint (d : Decimal.uint) :
  Js.formEncode (NilEmpty.string_of_uint d) = NilEmpty.string_of_uint d.
Proof. induction d; cbn; try rewrite IHd; reflexivity. Qed.

(** The decimal form of an integer passes through the serialiser of
    [URLSearchParams] unchanged. *)
Lemma formEncode_number (n : Z) :
  Js.formEncode (Js.Number_toString n) = Js.Number_toString n.
Proof.
  unfold Js.Number_toString. destruct (Z.to_int n) as [d|d]; cbn.
  - apply formEncode_uint.
  - now rewrite formEncode_uint.
Qed.

Lemma createUrl_pageSize (baseUrl : string) (size target : Z) :
  PaginationUtils.createUrl baseUrl [("pageSize", Js.Number_toString size)] target
  = baseUrl ++ "?pageSize=" ++ Js.Number_toString size
      ++ "&page=" ++ Js.Number_toString target.
Proof.
  unfold PaginationUtils.createUrl, Js.URLSearchParams_toString.
  cbn [Js.assign String.eqb Ascii.eqb Bool.eqb map fst snd String.concat].
  rewrite !formEncode_number. cbn. reflexivity.
Qed.

(** X7.  With caching disabled and an accepted configuration whose page
    and page size are safe integers,
    [PaginatorService.paginateWithLinks] fails exactly as [paginate] does,
    and otherwise returns the result of [paginate] with links that agree
    with its meta block: [first] and [previous] are present exactly when
    [hasPrevious] is true, [next] and [last] exactly when [hasNext] is
    true.  Each link is [baseUrl?pageSize=<pageSize>&page=<target>], the
    targets being [1], [page - 1], [page + 1] and [totalPages]. *)
Theorem links_agree_with_meta
    {T} `{Serializable T} {St}
    (cacheService : option (CacheService St (PaginatedResult T)))
    (items : list T) (config : PaginationConfig) (baseUrl : string) (w : World St) :
  PaginatorService.validateConfig config = Returned tt ->
  Js.truthy_bool (enableCache config) = false ->
  Js.Number_isSafeInteger (page config) = true ->
  Js.Number_isSafeInteger (pageSize config) = true ->
  let url (target : Z) :=
    baseUrl ++ "?pageSize=" ++ Js.Number_toString (pageSize config)
      ++ "&page=" ++ Js.Number_toString target in
  match PaginatorService.paginate cacheService items config w with
  | (Thrown e, _) =>
      PaginatorService.paginateWithLinks cacheService items config baseUrl w
      = (Thrown e, w)
  | (Returned r, _) =>
      PaginatorService.paginateWithLinks cacheService items config baseUrl w
      = (Returned
           {| result := r;
              links :=
                Some
                  {| Links.first :=
                       if Meta.hasPrevious (meta r) then Some (url 1) else None;
                     Links.previous :=
                       if Meta.hasPrevious (meta r)
                       then Some (url (page config - 1)) else None;
                     Links.next :=
                       if Meta.hasNext (meta r)
                       then Some (url (page config + 1)) else None;
                     Links.last :=
                       if Meta.hasNext (meta r)
                       then Some (url (Meta.totalPages (meta r))) else None |} |},
         w)
  end.
Proof.
  intros Hv Hoff _ _ url.
  unfold PaginatorService.paginateWithLinks, bind.
  rewrite service_paginate_uncached;
    [|exact Hv|unfold PaginatorService.cacheInUse; now rewrite Hoff].
  unfold computed. destruct ((_ >? 0) && negb _); [reflexivity|].
  unfold PaginationUtils.generateNavigationLinks.
  rewrite !createUrl_pageSize. reflexivity.
Qed.

Lemma links_agree_with_meta_witness :
  fst (PaginatorService.paginateWithLinks (St := unit) None [1; 2; 3; 4; 5]
         {| page := 2; pageSize := 2; maxPageSize := None;
            enableCache := None; cacheTtl := None |}
         "http://localhost:3000/items" {| backend := tt; console := [] |})
  = Returned
      {| result := freshResult [1; 2; 3; 4; 5] 2 2;
         links :=
           Some
             {| Links.first := Some "http://localhost:3000/items?pageSize=2&page=1";
                Links.previous := Some "http://localhost:3000/items?pageSize=2&page=1";
                Links.next := Some "http://localhost:3000/items?pageSize=2&page=3";
                Links.last := Some "http://localhost:3000/items?pageSize=2&page=3" |} |}.
Proof.
  pose proof (@links_agree_with_meta Z _ unit None [1; 2; 3; 4; 5]
                {| page := 2; pageSize := 2; maxPageSize := None;
                   enableCache := None; cacheTtl := None |}
                "http://localhost:3000/items" {| backend := tt; console := [] |}
                eq_refl eq_refl eq_refl eq_refl) as Hlinks.
  cbv zeta in Hlinks.
  destruct (PaginatorService.paginate None [1; 2; 3; 4; 5] _ _) as [[r|e] w'] eqn:Hrun;
    vm_compute in Hrun.
  - injection Hrun as <- <-. rewrite Hlinks. reflexivity.
  - discriminate.
Defined.

(** X8.  For safe integers [currentPage] and [totalPages]: in a
    generated link the [page] parameter occurs once: a [page]
    entry among the query parameters keeps its place and takes the target
    page number, and otherwise [page] is added after the other parameters;
    the other parameters are passed through in order.  First and previous
    links exist exactly when [currentPage > 1], next and last links exactly
    when [currentPage < totalPages]; on a single page there is no link. *)
Theorem navigation_links_shape
    (currentPage totalPages : Z) (baseUrl : string)
    (before after : list (string * string)) (old : string) :
  Js.Number_isSafeInteger currentPage = true ->
  Js.Number_isSafeInteger totalPages = true ->
  ~ In "page" (map fst before) ->
  let links withPage :=
    PaginationUtils.generateNavigationLinks currentPage totalPages baseUrl
      (if withPage : bool then before ++ ("page", old) :: after else before)%list in
  let url withPage (target : Z) :=
    baseUrl ++ "?"
      ++ Js.URLSearchParams_toString
           (before ++ ("page", Js.Number_toString target)
              :: (if withPage : bool then after else []))%list in
  forall withPage : bool,
    Links.first (links withPage)
    = (if currentPage >? 1 then Some (url withPage 1) else None)
    /\ Links.previous (links withPage)
       = (if currentPage >? 1 then Some (url withPage (currentPage - 1)) else None)
    /\ Links.next (links withPage)
       = (if currentPage <? totalPages
          then Some (url withPage (currentPage + 1)) else None)
    /\ Links.last (links withPage)
       = (if currentPage <? totalPages then Some (url withPage totalPages) else None).
Proof.
  intros _ _ Hfresh links url withPage.
  assert (Hassign : forall target,
            Js.assign (if withPage then before ++ ("page", old) :: after else before)%list
              "page" (Js.Number_toString target)
            = (before ++ ("page", Js.Number_toString target)
                 :: (if withPage then after else []))%list).
  { intros target. induction before as [|[k v] before IH].
    - destruct withPage; reflexivity.
    - cbn [map fst] in Hfresh.
      assert (Hk : String.eqb k "page" = false).
      { apply String.eqb_neq. intros ->. apply Hfresh. now left. }
      destruct withPage; cbn [app Js.assign]; rewrite Hk; f_equal; apply IH;
        intros Hin; apply Hfresh; now right. }
  unfold links, url, PaginationUtils.generateNavigationLinks, PaginationUtils.createUrl.
  cbn [Links.first Links.previous Links.next Links.last].
  rewrite !Hassign. repeat split.
Qed.

Lemma navigation_links_shape_witness :
  PaginationUtils.generateNavigationLinks 3 5 "http://example.com/api"
    [("filter", "a b"); ("page", "9"); ("sort", "id")]
  = {| Links.first := Some "http://example.com/api?filter=a+b&page=1&sort=id";
       Links.previous := Some "http://example.com/api?filter=a+b&page=2&sort=id";
       Links.next := Some "http://example.com/api?filter=a+b&page=4&sort=id";
       Links.last := Some "http://example.com/api?filter=a+b&page=5&sort=id" |}.
Proof.
  pose proof (@navigation_links_shape 3 5 "http://example.com/api"
                [("filter", "a b")] [("sort", "id")] "9" eq_refl eq_refl) as Hshape.
  cbv zeta in Hshape.
  assert (Hfresh : ~ In "page" (map fst [("filter", "a b")]))
    by (cbn; intros [Heq|[]]; discriminate).
  destruct (Hshape Hfresh true) as (Hfirst & Hprev & Hnext & Hlast).
  cbn [app] in Hfirst, Hprev, Hnext, Hlast.
  destruct (PaginationUtils.generateNavigationLinks 3 5 "http://example.com/api"
              [("filter", "a b"); ("page", "9"); ("sort", "id")])
    as [f p n l].
  cbn [Links.first Links.previous Links.next Links.last] in *.
  subst f p n l. reflexivity.
Defined.

(** * Further properties of the caches *)

(** ** States built by the public methods *)

Lemma keys_delete {A} (m : JsMap.t A) key :
  JsMap.keys (JsMap.delete m key)
  = filter (fun k => negb (String.eqb k key)) (JsMap.keys m).
Proof.
  induction m as [|[k x] m IH]; [reflexivity|]. simpl.
  destruct (String.eqb k key); simpl; [exact IH|f_equal; exact IH].
Qed.

Lemma keys_set_absent {A} (m : JsMap.t A) key (a : A) :
  ~ In key (JsMap.keys m) ->
  JsMap.keys (JsMap.set m key a) = (JsMap.keys m ++ [key])%list.
Proof.
  intros Hnot. rewrite set_fresh_appends by exact Hnot.
  unfold JsMap.keys. now rewrite map_app.
Qed.

Lemma NoDup_keys_set {A} (m : JsMap.t A) key (a : A) :
  NoDup (JsMap.keys m) -> NoDup (JsMap.keys (JsMap.set m key a)).
Proof.
  intros Hnd. destruct (in_dec string_dec key (JsMap.keys m)) as [Hin|Hnot].
  - now rewrite keys_set_present.
  - rewrite keys_set_absent by exact Hnot.
    apply NoDup_app; [exact Hnd|repeat constructor; intros []|].
    intros k Hk [<-|[]]. contradiction.
Qed.

Lemma values_set_Forall {A} (P : A -> Prop) (m : JsMap.t A) key (a : A) :
  Forall (fun kv => P (snd kv)) m -> P a ->
  Forall (fun kv => P (snd kv)) (JsMap.set m key a).
Proof.
  intros Hall Ha. induction m as [|[k x] m IH]; simpl.
  - constructor; [exact Ha|constructor].
  - inversion Hall as [|? ? Hx Hrest]; subst.
    destruct (String.eqb k key); constructor; try assumption.
    apply IH. exact Hrest.
Qed.

Lemma values_set_NoDup {A} (m : JsMap.t A) key (a : A) :
  NoDup (map snd m) -> ~ In a (map snd m) -> NoDup (map snd (JsMap.set m key a)).
Proof.
  induction m as [|[k x] m IH]; intros Hnd Hnew; simpl.
  - constructor; [intros []|constructor].
  - inversion Hnd as [|? ? Hx Hrest]; subst.
    destruct (String.eqb k key); simpl.
    + constructor; [|exact Hrest]. intros Hin. apply Hnew. now right.
    + constructor.
      * intros Hin. clear IH.
        assert (Hsub : forall b, In b (map snd (JsMap.set m key a)) ->
                         b = a \/ In b (map snd m)).
        { clear. induction m as [|[k' x'] m IH]; simpl; intros b Hb.
          - destruct Hb as [<-|[]]. now left.
          - destruct (String.eqb k' key); simpl in Hb.
            + destruct Hb as [<-|Hb]; [now left|right; now right].
            + destruct Hb as [<-|Hb]; [right; now left|].
              destruct (IH b Hb); [now left|right; now right]. }
        destruct (Hsub x Hin) as [->|Hin']; [apply Hnew; now left|contradiction].
      * apply IH; [exact Hrest|]. intros Hin. apply Hnew. now right.
Qed.

Lemma values_delete_NoDup {A} (m : JsMap.t A) key :
  NoDup (map snd m) -> NoDup (map snd (JsMap.delete m key)).
Proof.
  induction m as [|[k x] m IH]; intros Hnd; [constructor|].
  inversion Hnd as [|? ? Hx Hrest]; subst. simpl.
  destruct (String.eqb k key); simpl; [apply IH; exact Hrest|].
  constructor; [|apply IH; exact Hrest].
  intros Hin. apply Hx. unfold JsMap.delete in Hin.
  apply in_map_iff in Hin. destruct Hin as ([k' x'] & Heq & Hin).
  apply filter_In in Hin. apply in_map_iff. exists (k', x'). tauto.
Qed.

Lemma get_In {A} (m : JsMap.t A) key (a : A) :
  JsMap.get m key = Some a -> In (key, a) m.
Proof.
  induction m as [|[k x] m IH]; [discriminate|]. simpl.
  destruct (String.eqb k key) eqn:E.
  - intros Hg. injection Hg as <-. apply String.eqb_eq in E. subst k. now left.
  - intros Hg. right. apply IH. exact Hg.
Qed.

Lemma In_get {A} (m : JsMap.t A) key (a : A) :
  NoDup (JsMap.keys m) -> In (key, a) m -> JsMap.get m key = Some a.
Proof.
  induction m as [|[k x] m IH]; intros Hnd Hin; [contradiction|].
  inversion Hnd as [|? ? Hk Hrest]; subst. simpl.
  destruct Hin as [Heq|Hin].
  - injection Heq as -> ->. now rewrite String.eqb_refl.
  - destruct (String.eqb k key) eqn:E; [|apply IH; assumption].
    apply String.eqb_eq in E. subst k. exfalso. apply Hk.
    apply in_map_iff. exists (key, a). split; [reflexivity|exact Hin].
Qed.

Lemma NoDup_values_injective {A} (m : JsMap.t A) k k' (a : A) :
  NoDup (map snd m) -> In (k, a) m -> In (k', a) m -> k = k'.
Proof.
  induction m as [|[k0 x] m IH]; intros Hnd Hin Hin'; [contradiction|].
  inversion Hnd as [|? ? Hx Hrest]; subst.
  destruct Hin as [Heq|Hin], Hin' as [Heq'|Hin'].
  - congruence.
  - injection Heq as -> ->. exfalso. apply Hx.
    apply in_map_iff. exists (k', a). split; [reflexivity|exact Hin'].
  - injection Heq' as -> ->. exfalso. apply Hx.
    apply in_map_iff. exists (k, a). split; [reflexivity|exact Hin].
  - apply IH; assumption.
Qed.

Section Sound.

Context {V : Type}.
Variable config : CacheConfig.

Lemma sound_counter_nonneg (s : MemoryCacheService.State V) :
  sound s -> 0 <= MemoryCacheService.accessCounter s.
Proof. intros (_ & _ & _ & _ & Hsz). unfold JsMap.size in Hsz. lia. Qed.

Lemma initial_sound : sound (@MemoryCacheService.initial V).
Proof.
  split; [reflexivity|]. split; [constructor|]. split; [constructor|].
  split; [constructor|]. cbn. lia.
Qed.

Lemma delete_sound key (s : MemoryCacheService.State V) :
  sound s -> sound (MemoryCacheService.delete key s).
Proof.
  intros (Hk & Hnd & Hrange & Hvals & Hsz).
  split; [apply delete_keys_agree; exact Hk|].
  unfold MemoryCacheService.delete.
  cbn [MemoryCacheService.cache MemoryCacheService.accessOrder
       MemoryCacheService.accessCounter].
  split; [rewrite keys_delete; apply NoDup_filter; exact Hnd|].
  split; [apply incl_Forall with (l1 := MemoryCacheService.accessOrder s);
          [apply incl_filter|exact Hrange]|].
  split; [apply values_delete_NoDup; exact Hvals|].
  pose proof (length_delete_le (MemoryCacheService.cache s) key).
  unfold JsMap.size in *. lia.
Qed.

Lemma evict_sound (s : MemoryCacheService.State V) :
  sound s -> sound (MemoryCacheService.evictLeastRecentlyUsed s).
Proof.
  intros Hs. unfold MemoryCacheService.evictLeastRecentlyUsed.
  destruct (JsMap.size _ =? 0); [exact Hs|].
  destruct (fst _) as [k|]; [|exact Hs].
  destruct (Js.truthy_string _); [apply delete_sound|]; exact Hs.
Qed.

(** Recording the next access under [key] keeps the recency map in order. *)
Lemma stamp_sound (s : MemoryCacheService.State V) key :
  sound s ->
  Forall (fun kv => 1 <= snd kv <= MemoryCacheService.accessCounter s + 1)
    (JsMap.set (MemoryCacheService.accessOrder s) key
       (MemoryCacheService.accessCounter s + 1))
  /\ NoDup (map snd (JsMap.set (MemoryCacheService.accessOrder s) key
                       (MemoryCacheService.accessCounter s + 1))).
Proof.
  intros Hs. pose proof (sound_counter_nonneg Hs) as Hc.
  destruct Hs as (Hk & Hnd & Hrange & Hvals & Hsz). split.
  - apply (values_set_Forall
             (fun a => 1 <= a <= MemoryCacheService.accessCounter s + 1)); [|lia].
    eapply Forall_impl; [|exact Hrange]. cbn. intros; lia.
  - apply values_set_NoDup; [exact Hvals|].
    intros Hin. apply in_map_iff in Hin. destruct Hin as (kv & Heq & Hin).
    rewrite Forall_forall in Hrange. specialize (Hrange kv Hin). lia.
Qed.

Lemma touch_sound key (s : MemoryCacheService.State V) :
  In key (JsMap.keys (MemoryCacheService.cache s)) ->
  sound s -> sound (MemoryCacheService.touch key s).
Proof.
  intros Hin Hs. destruct (stamp_sound key Hs) as [Hrange' Hvals'].
  destruct Hs as (Hk & Hnd & Hrange & Hvals & Hsz).
  unfold sound, keys_agree, MemoryCacheService.touch.
  cbn [MemoryCacheService.cache MemoryCacheService.accessOrder
       MemoryCacheService.accessCounter].
  unfold keys_agree in Hk.
  split; [rewrite keys_set_present; [exact Hk|rewrite <- Hk; exact Hin]|].
  split; [exact Hnd|]. split; [exact Hrange'|]. split; [exact Hvals'|]. lia.
Qed.

Lemma get_sound now key (s : MemoryCacheService.State V) :
  sound s -> sound (snd (MemoryCacheService.get now key s)).
Proof.
  intros Hs. unfold MemoryCacheService.get.
  destruct (JsMap.get (MemoryCacheService.cache s) key) as [entry|] eqn:Hg;
    [|exact Hs].
  destruct (now >? expiresAt entry); cbn [snd]; [apply delete_sound; exact Hs|].
  apply touch_sound; [|exact Hs]. eapply get_some_in_keys. exact Hg.
Qed.

Lemma set_sound now key v ttl (s : MemoryCacheService.State V) :
  sound s -> sound (MemoryCacheService.set config now key v ttl s).
Proof.
  intros Hs. unfold MemoryCacheService.set.
  match goal with
  | |- context [if ?b then MemoryCacheService.evictLeastRecentlyUsed s else s] =>
      set (s' := if b then MemoryCacheService.evictLeastRecentlyUsed s else s)
  end.
  assert (Hs' : sound s').
  { unfold s'.
    match goal with |- sound (if ?b then _ else _) => destruct b end;
      [apply evict_sound|]; exact Hs. }
  clearbody s'. destruct (stamp_sound key Hs') as [Hrange' Hvals'].
  destruct Hs' as (Hk & Hnd & Hrange & Hvals & Hsz).
  unfold sound, keys_agree.
  cbn [MemoryCacheService.cache MemoryCacheService.accessOrder
       MemoryCacheService.accessCounter].
  split; [apply keys_set_congr; exact Hk|].
  split; [apply NoDup_keys_set; exact Hnd|].
  split; [exact Hrange'|]. split; [exact Hvals'|].
  pose proof (length_set_le (MemoryCacheService.cache s') key
                {| value := v; expiresAt := now + ttl; createdAt := now |}).
  unfold JsMap.size in *. lia.
Qed.

Lemma has_sound now key (s : MemoryCacheService.State V) :
  sound s -> sound (snd (MemoryCacheService.has now key s)).
Proof.
  intros Hs. unfold MemoryCacheService.has.
  destruct (JsMap.get (MemoryCacheService.cache s) key) as [entry|]; [|exact Hs].
  destruct (now >? expiresAt entry); cbn [snd]; [apply delete_sound|]; exact Hs.
Qed.

Lemma delete_all_sound keys (s : MemoryCacheService.State V) :
  sound s ->
  sound (fold_left (fun st key => MemoryCacheService.delete key st) keys s).
Proof.
  revert s. induction keys as [|k keys IH]; intros s Hs; [exact Hs|].
  simpl. apply IH. apply delete_sound. exact Hs.
Qed.

Lemma step_sound (s : MemoryCacheService.State V) op :
  sound s -> sound (MemoryCacheService.step config s op).
Proof.
  intros Hs. destruct op; cbn [MemoryCacheService.step].
  - apply get_sound; exact Hs.
  - apply set_sound; exact Hs.
  - apply delete_sound; exact Hs.
  - apply initial_sound.
  - apply has_sound; exact Hs.
  - apply delete_all_sound; exact Hs.
Qed.

Lemma run_sound (ops : list (@MemoryCacheService.Op V)) (s : MemoryCacheService.State V) :
  sound s -> sound (MemoryCacheService.run config ops s).
Proof.
  unfold MemoryCacheService.run. revert s.
  induction ops as [|op ops IH]; intros s Hs; [exact Hs|].
  simpl. apply IH. apply step_sound. exact Hs.
Qed.

End Sound.

(** X9.  Whatever public methods of [MemoryCacheService] are called, with
    whatever arguments and clock readings, starting from the empty cache:
    the entry map and the recency map hold the same keys in the same
    order, no key twice; every recorded access lies between [1] and the
    access counter, and no two keys carry the same one; and the number of
    entries does not exceed the access counter. *)
Theorem cache_state_stays_sound
    {V} (config : CacheConfig) (ops : list (@MemoryCacheService.Op V)) :
  let s := MemoryCacheService.run config ops MemoryCacheService.initial in
  JsMap.keys (MemoryCacheService.cache s) = JsMap.keys (MemoryCacheService.accessOrder s)
  /\ NoDup (JsMap.keys (MemoryCacheService.cache s))
  /\ (forall key stamp,
        JsMap.get (MemoryCacheService.accessOrder s) key = Some stamp ->
        1 <= stamp <= MemoryCacheService.accessCounter s)
  /\ (forall key key' stamp,
        JsMap.get (MemoryCacheService.accessOrder s) key = Some stamp ->
        JsMap.get (MemoryCacheService.accessOrder s) key' = Some stamp ->
        key = key')
  /\ JsMap.size (MemoryCacheService.cache s) <= MemoryCacheService.accessCounter s.
Proof.
  intros s.
  destruct (run_sound config ops (@initial_sound V)) as (Hk & Hnd & Hrange & Hvals & Hsz).
  fold s in Hk, Hnd, Hrange, Hvals, Hsz. unfold keys_agree in Hk.
  split; [exact Hk|]. split; [exact Hnd|].
  split.
  { intros key stamp Hg. apply get_In in Hg.
    rewrite Forall_forall in Hrange. apply (Hrange _ Hg). }
  split; [|exact Hsz].
  intros key key' stamp Hg Hg'. apply get_In in Hg, Hg'.
  eapply NoDup_values_injective; eauto.
Qed.

(** ** [SimpleCache] against [MemoryCacheService] *)

Lemma SimpleCache_step_agrees {V} (config : CacheConfig) (m : Z)
    (s : MemoryCacheService.State V) (op : @SimpleCache.Op V) :
  maxSize config = Some m -> m <> 0 ->
  SimpleCache.step m s op = MemoryCacheService.step config s (asMemoryOp op).
Proof.
  intros Hm Hnz. destruct op; cbn [SimpleCache.step MemoryCacheService.step asMemoryOp];
    try reflexivity.
  apply SimpleCache_set_agrees; assumption.
Qed.

Lemma SimpleCache_run_agrees {V} (config : CacheConfig) (m : Z)
    (ops : list (@SimpleCache.Op V)) (s : MemoryCacheService.State V) :
  maxSize config = Some m -> m <> 0 ->
  SimpleCache.run m ops s = MemoryCacheService.run config (map asMemoryOp ops) s.
Proof.
  intros Hm Hnz. unfold SimpleCache.run, MemoryCacheService.run. revert s.
  induction ops as [|op ops IH]; intros s; [reflexivity|].
  cbn [map fold_left].
  rewrite SimpleCache_step_agrees with (config := config) by assumption. apply IH.
Qed.

(** X10.  For a non-zero [maxSize], [SimpleCache] and [MemoryCacheService]
    configured with that [maxSize] are the same cache: after the same
    calls they are in the same state, and there [get] and [has] give the
    same answers and [getStats] the same [size], [maxSize] and
    [expiredEntries]. *)
Theorem SimpleCache_behaves_as_MemoryCacheService
    {V} (config : CacheConfig) (m : Z) (ops : list (@SimpleCache.Op V))
    (now : Z) (key : string) :
  maxSize config = Some m -> m <> 0 ->
  let simple := SimpleCache.run m ops SimpleCache.initial in
  let memory :=
    MemoryCacheService.run config (map asMemoryOp ops) MemoryCacheService.initial in
  simple = memory
  /\ SimpleCache.get now key simple = MemoryCacheService.get now key memory
  /\ SimpleCache.has now key simple = MemoryCacheService.has now key memory
  /\ (let '(size, max, expired) := SimpleCache.getStats m now simple in
      let '(size', max', expired', _) := MemoryCacheService.getStats config now memory in
      size = size' /\ Some max = max' /\ expired = expired').
Proof.
  intros Hm Hnz simple memory.
  assert (Hsame : simple = memory)
    by (apply SimpleCache_run_agrees; assumption).
  rewrite Hsame. split; [reflexivity|]. split; [reflexivity|]. split; [reflexivity|].
  unfold SimpleCache.getStats, MemoryCacheService.getStats,
    MemoryCacheService.expiredCount. rewrite Hm. repeat split.
Qed.

Lemma SimpleCache_behaves_as_MemoryCacheService_witness :
  SimpleCache.run 2
    [SimpleCache.Set_ 0 "a" 1 5000; SimpleCache.Set_ 0 "b" 2 5000;
     SimpleCache.Get 1 "a"; SimpleCache.Set_ 2 "c" 3 5000]
    SimpleCache.initial
  = MemoryCacheService.run
      {| defaultTtl := 1000; maxSize := Some 2; evictionStrategy := None |}
      [MemoryCacheService.Set_ 0 "a" 1 5000; MemoryCacheService.Set_ 0 "b" 2 5000;
       MemoryCacheService.Get 1 "a"; MemoryCacheService.Set_ 2 "c" 3 5000]
      MemoryCacheService.initial.
Proof.
  apply (@SimpleCache_behaves_as_MemoryCacheService Z
           {| defaultTtl := 1000; maxSize := Some 2; evictionStrategy := None |} 2
           [SimpleCache.Set_ 0 "a" 1 5000; SimpleCache.Set_ 0 "b" 2 5000;
            SimpleCache.Get 1 "a"; SimpleCache.Set_ 2 "c" 3 5000]
           0 "a");
    [reflexivity|discriminate].
Defined.

(** ** Capacity and eviction in general *)

Lemma run_bounded {V} (config : CacheConfig) (N : Z)
    (ops : list (@MemoryCacheService.Op V)) (s : MemoryCacheService.State V) :
  maxSize config = Some N -> 1 <= N ->
  Forall stores_named_key ops -> bounded N s ->
  bounded N (MemoryCacheService.run config ops s).
Proof.
  intros HN Hpos Hops. unfold MemoryCacheService.run. revert s.
  induction Hops as [|op ops Hop Hops IH]; intros s Hb; [exact Hb|].
  simpl. apply IH. apply step_bounded; assumption.
Qed.

Lemma initial_bounded {V} (N : Z) : 1 <= N -> bounded N (@MemoryCacheService.initial V).
Proof.
  intros Hpos. split; [reflexivity|]. split; [constructor|]. cbn. lia.
Qed.

(** X11.  A cache with [maxSize = N >= 1] that is never asked to store
    under the empty string never holds more than [N] entries, whatever is
    called in whatever order; this holds of [MemoryCacheService] and of
    [SimpleCache]. *)
Theorem capacity_holds_for_named_keys
    {V} (config : CacheConfig) (N : Z)
    (ops : list (@MemoryCacheService.Op V)) (ops' : list (@SimpleCache.Op V)) :
  maxSize config = Some N -> 1 <= N ->
  Forall stores_named_key ops ->
  Forall stores_named_key (map asMemoryOp ops') ->
  JsMap.size
    (MemoryCacheService.cache
       (MemoryCacheService.run config ops MemoryCacheService.initial)) <= N
  /\ JsMap.size
       (MemoryCacheService.cache (SimpleCache.run N ops' SimpleCache.initial)) <= N.
Proof.
  intros HN Hpos Hops Hops'. split.
  - apply run_bounded; try assumption. apply initial_bounded. exact Hpos.
  - rewrite SimpleCache_run_agrees with (config := config) by (assumption || lia).
    apply run_bounded; try assumption. apply initial_bounded. exact Hpos.
Qed.

Lemma capacity_holds_for_named_keys_witness :
  JsMap.size
    (MemoryCacheService.cache
       (MemoryCacheService.run
          {| defaultTtl := 1000; maxSize := Some 2; evictionStrategy := None |}
          [MemoryCacheService.Set_ 0 "a" 1 5000; MemoryCacheService.Set_ 0 "b" 2 5000;
           MemoryCacheService.Set_ 0 "c" 3 5000; MemoryCacheService.Has 1 "a"]
          MemoryCacheService.initial)) <= 2.
Proof.
  apply (@capacity_holds_for_named_keys Z
           {| defaultTtl := 1000; maxSize := Some 2; evictionStrategy := None |} 2
           [MemoryCacheService.Set_ 0 "a" 1 5000; MemoryCacheService.Set_ 0 "b" 2 5000;
            MemoryCacheService.Set_ 0 "c" 3 5000; MemoryCacheService.Has 1 "a"]
           []).
  - reflexivity.
  - lia.
  - repeat constructor; discriminate.
  - constructor.
Defined.

(** The scan ends on an entry of the map whose access is the least. *)
Lemma lruScan_least (m : JsMap.t Z) (k : string) (a : Z) :
  exists k' a',
    fold_left MemoryCacheService.lruScan m (Some k, Some a) = (Some k', Some a')
    /\ a' <= a
    /\ Forall (fun kv => a' <= snd kv) m
    /\ ((k', a') = (k, a) \/ In (k', a') m).
Proof.
  revert k a. induction m as [|[k1 a1] m IH]; intros k a.
  - exists k, a. split; [reflexivity|]. split; [lia|]. split; [constructor|now left].
  - cbn [fold_left MemoryCacheService.lruScan].
    destruct (a1 <? a) eqn:E.
    + apply Z.ltb_lt in E. destruct (IH k1 a1) as (k' & a' & Hf & Hle & Hall & Hin).
      exists k', a'. split; [exact Hf|]. split; [lia|].
      split; [constructor; [cbn; lia|exact Hall]|].
      right. destruct Hin as [Heq|Hin]; [left; now symmetry|right; exact Hin].
    + apply Z.ltb_ge in E. destruct (IH k a) as (k' & a' & Hf & Hle & Hall & Hin).
      exists k', a'. split; [exact Hf|]. split; [exact Hle|].
      split; [constructor; [cbn; lia|exact Hall]|].
      destruct Hin as [Heq|Hin]; [left; exact Heq|right; right; exact Hin].
Qed.

Lemma lruScan_from_nothing (m : JsMap.t Z) :
  m <> [] ->
  exists k a,
    fold_left MemoryCacheService.lruScan m (None, None) = (Some k, Some a)
    /\ Forall (fun kv => a <= snd kv) m
    /\ In (k, a) m.
Proof.
  destruct m as [|[k1 a1] m]; [congruence|]. intros _.
  cbn [fold_left MemoryCacheService.lruScan].
  destruct (lruScan_least m k1 a1) as (k' & a' & Hf & Hle & Hall & Hin).
  exists k', a'. split; [exact Hf|].
  split; [constructor; [cbn; lia|exact Hall]|].
  destruct Hin as [Heq|Hin]; [left; now symmetry|right; exact Hin].
Qed.

Lemma filter_keys_length (keys : list string) (victim : string) :
  NoDup keys -> In victim keys ->
  S (List.length (filter (fun k => negb (String.eqb k victim)) keys))
  = List.length keys.
Proof.
  induction keys as [|k keys IH]; intros Hnd Hin; [contradiction|].
  inversion Hnd as [|? ? Hk Hrest]; subst. simpl.
  destruct (String.eqb k victim) eqn:E; simpl.
  - apply String.eqb_eq in E. subst k. f_equal.
    clear IH Hin Hnd. induction keys as [|k' keys IH]; [reflexivity|]. simpl.
    destruct (String.eqb k' victim) eqn:E'.
    + apply String.eqb_eq in E'. subst k'. exfalso. apply Hk. now left.
    + simpl. f_equal. apply IH.
      * intros Hin. apply Hk. now right.
      * now inversion Hrest.
  - f_equal. apply IH; [exact Hrest|].
    destruct Hin as [->|Hin]; [now rewrite String.eqb_refl in E|exact Hin].
Qed.

(** X12.  Take a cache with [maxSize = N >= 1] that was never asked to
    store under the empty string and is full.  Storing under a key it does
    not hold removes exactly one entry, one whose recorded access is the
    smallest of all, keeps every other key in place and adds the new key
    last; the cache is full again afterwards. *)
Theorem eviction_removes_a_least_recent_key
    {V} (config : CacheConfig) (N : Z) (ops : list (@MemoryCacheService.Op V))
    (now : Z) (key : string) (v : V) (ttl : Z) :
  maxSize config = Some N -> 1 <= N ->
  Forall stores_named_key ops ->
  let s := MemoryCacheService.run config ops MemoryCacheService.initial in
  JsMap.size (MemoryCacheService.cache s) = N ->
  JsMap.has (MemoryCacheService.cache s) key = false ->
  let s' := MemoryCacheService.set config now key v ttl s in
  exists (victim : string) (stamp : Z),
    JsMap.get (MemoryCacheService.accessOrder s) victim = Some stamp
    /\ (forall k a, JsMap.get (MemoryCacheService.accessOrder s) k = Some a -> stamp <= a)
    /\ JsMap.keys (MemoryCacheService.cache s')
       = (filter (fun k => negb (String.eqb k victim))
            (JsMap.keys (MemoryCacheService.cache s)) ++ [key])%list
    /\ JsMap.get (MemoryCacheService.cache s') victim = None
    /\ JsMap.size (MemoryCacheService.cache s') = N.
Proof.
  intros HN Hpos Hops s Hfull Hnew s'.
  assert (Hb : bounded N s)
    by (apply run_bounded; try assumption; apply initial_bounded; exact Hpos).
  pose proof (run_sound config ops (@initial_sound V)) as Hs. fold s in Hs.
  destruct Hb as (Hk & Hnamed & _).
  destruct Hs as (_ & Hnd & _ & _ & _).
  unfold keys_agree in Hk.
  assert (Hnd' : NoDup (JsMap.keys (MemoryCacheService.accessOrder s)))
    by (rewrite <- Hk; exact Hnd).
  destruct (lruScan_from_nothing (m := MemoryCacheService.accessOrder s))
    as (victim & stamp & Hscan & Hleast & Hin).
  { intros Hnil. assert (Hlen : JsMap.keys (MemoryCacheService.cache s) = [])
      by (rewrite Hk, Hnil; reflexivity).
    unfold JsMap.size, JsMap.keys in *.
    apply (f_equal (@List.length string)) in Hlen. rewrite length_map in Hlen.
    cbn in Hlen. lia. }
  assert (Hvictim : In victim (JsMap.keys (MemoryCacheService.cache s))).
  { rewrite Hk. apply in_map_iff. exists (victim, stamp). split; [reflexivity|exact Hin]. }
  assert (Hne : victim <> EmptyString)
    by (rewrite Forall_forall in Hnamed; apply Hnamed; exact Hvictim).
  assert (Hkey : ~ In key (JsMap.keys (MemoryCacheService.cache s))).
  { intros Hin'. unfold JsMap.has in Hnew.
    apply in_map_iff in Hin'. destruct Hin' as ([k e] & Heq & Hin').
    cbn in Heq. subst k. apply In_get in Hin'; [|exact Hnd].
    now rewrite Hin' in Hnew. }
  assert (Hcache :
    MemoryCacheService.cache s'
    = JsMap.set (JsMap.delete (MemoryCacheService.cache s) victim) key
        {| value := v; expiresAt := now + ttl; createdAt := now |}).
  { unfold s', MemoryCacheService.set. rewrite HN, Hfull, Hnew.
    replace (N =? 0) with false by (symmetry; apply Z.eqb_neq; lia).
    replace (N >=? N) with true by (symmetry; apply Z.geb_le; lia).
    cbn [negb andb]. unfold MemoryCacheService.evictLeastRecentlyUsed.
    assert (Hsize : JsMap.size (MemoryCacheService.accessOrder s) = N).
    { unfold JsMap.size, JsMap.keys in *.
      rewrite <- (length_map fst (MemoryCacheService.accessOrder s)), <- Hk.
      now rewrite length_map. }
    rewrite Hsize.
    replace (N =? 0) with false by (symmetry; apply Z.eqb_neq; lia).
    rewrite Hscan. cbn [fst Js.truthy_string].
    apply String.eqb_neq in Hne. rewrite Hne. reflexivity. }
  exists victim, stamp.
  split; [apply In_get; assumption|].
  split.
  { intros k a Hg. apply get_In in Hg. rewrite Forall_forall in Hleast.
    apply (Hleast (k, a) Hg). }
  assert (Hkeys : JsMap.keys (MemoryCacheService.cache s')
                  = (filter (fun k => negb (String.eqb k victim))
                       (JsMap.keys (MemoryCacheService.cache s)) ++ [key])%list).
  { rewrite Hcache. rewrite keys_set_absent.
    - now rewrite keys_delete.
    - rewrite keys_delete. intros Hin'. apply filter_In in Hin'. tauto. }
  split; [exact Hkeys|].
  split.
  { rewrite Hcache. rewrite JsMap_get_set_other.
    - apply JsMap_get_delete_same.
    - intros ->. apply Hkey. exact Hvictim. }
  unfold JsMap.size in *.
  rewrite <- (length_map fst (MemoryCacheService.cache s')).
  change (map fst (MemoryCacheService.cache s'))
    with (JsMap.keys (MemoryCacheService.cache s')).
  rewrite Hkeys, length_app. cbn [List.length].
  pose proof (@filter_keys_length _ victim Hnd Hvictim) as Hlen.
  unfold JsMap.keys in Hlen at 2. rewrite length_map in Hlen. lia.
Qed.

Lemma eviction_removes_a_least_recent_key_witness :
  let config := {| defaultTtl := 1000; maxSize := Some 2; evictionStrategy := None |} in
  let s :=
    MemoryCacheService.run config
      [MemoryCacheService.Set_ 0 "a" 1 5000; MemoryCacheService.Set_ 0 "b" 2 5000;
       MemoryCacheService.Get 1 "a"]
      MemoryCacheService.initial in
  exists victim stamp,
    JsMap.get (MemoryCacheService.accessOrder s) victim = Some stamp
    /\ JsMap.get
         (MemoryCacheService.cache (MemoryCacheService.set config 2 "c" 3 5000 s))
         victim = None.
Proof.
  intros config s.
  destruct (@eviction_removes_a_least_recent_key Z config 2
              [MemoryCacheService.Set_ 0 "a" 1 5000; MemoryCacheService.Set_ 0 "b" 2 5000;
               MemoryCacheService.Get 1 "a"]
              2 "c" 3 5000)
    as (victim & stamp & Hstamp & _ & _ & Hgone & _).
  - reflexivity.
  - lia.
  - repeat constructor; discriminate.
  - reflexivity.
  - reflexivity.
  - exists victim, stamp. split; [exact Hstamp|exact Hgone].
Defined.

(** ** [has] does not refresh *)

(** X13.  Fill an empty cache of capacity [N >= 1] with [N] distinct keys,
    probe the first one with [has] while it is alive, then store under one
    more key.  [has] answers [true] but records no access, so the first
    key, if it is not the empty string, is still the least recently used
    and is the one evicted; every other key stays.  (After a [get] instead
    of the [has] the first key would stay and the second would go.) *)
Theorem probed_key_is_still_evicted
    {V} (config : CacheConfig) (N : Z)
    (first : Insertion V) (rest : list (Insertion V)) (extra : Insertion V)
    (probeAt : Z) :
  maxSize config = Some N ->
  N = Z.of_nat (List.length (first :: rest)) ->
  NoDup (map (@under V) (first :: rest ++ [extra])) ->
  probeAt <= at_time first + lifetime first ->
  under first <> EmptyString ->
  let filled := insertAll config (first :: rest) MemoryCacheService.initial in
  let probe := MemoryCacheService.has probeAt (under first) filled in
  let final :=
    MemoryCacheService.set config (at_time extra) (under extra) (stored extra)
      (lifetime extra) (snd probe) in
  fst probe = true
  /\ snd probe = filled
  /\ MemoryCacheService.cache final
     = (map (fun i => (under i, entryOf i)) rest ++ [(under extra, entryOf extra)])%list.
Proof.
  intros Hmax HN Hnd Halive Hnamed filled probe final.
  assert (Hfilled :
    filled = {| MemoryCacheService.cache :=
                  map (fun i => (under i, entryOf i)) (first :: rest);
                MemoryCacheService.accessOrder :=
                  numbered 1 (map (@under V) (first :: rest));
                MemoryCacheService.accessCounter := N |}).
  { unfold filled. rewrite insertAll_appends with (N := N); try assumption.
    - cbn [MemoryCacheService.initial MemoryCacheService.cache
           MemoryCacheService.accessOrder MemoryCacheService.accessCounter
           JsMap.empty app]. now rewrite HN.
    - reflexivity.
    - cbn [MemoryCacheService.initial MemoryCacheService.cache JsMap.empty
           JsMap.keys map app].
      change (first :: rest ++ [extra])%list
        with ((first :: rest) ++ [extra])%list in Hnd.
      rewrite map_app in Hnd. apply NoDup_app_remove_r in Hnd. exact Hnd.
    - cbn [MemoryCacheService.initial MemoryCacheService.cache JsMap.empty].
      unfold JsMap.size, JsMap.empty. rewrite HN. simpl List.length. lia. }
  cbn [map] in Hnd.
  assert (Hfirst_rest : ~ In (under first) (map (@under V) rest)).
  { inversion Hnd as [|? ? Hnot _]; subst. intros Hin. apply Hnot.
    rewrite map_app. apply in_or_app. now left. }
  assert (Hextra : ~ In (under extra) (map (@under V) (first :: rest))).
  { change (under first :: map (@under V) (rest ++ [extra]))
      with (map (@under V) ((first :: rest) ++ [extra])) in Hnd.
    rewrite map_app in Hnd. cbn [map] in Hnd.
    apply NoDup_remove_2 in Hnd. rewrite app_nil_r in Hnd. exact Hnd. }
  assert (Hprobe : probe = (true, filled)).
  { unfold probe. rewrite Hfilled. unfold MemoryCacheService.has.
    cbn [MemoryCacheService.cache map JsMap.get]. rewrite String.eqb_refl.
    cbn [entryOf expiresAt].
    replace (probeAt >? at_time first + lifetime first) with false
      by (symmetry; rewrite Z.gtb_ltb; apply Z.ltb_ge; exact Halive).
    reflexivity. }
  rewrite Hprobe. cbn [fst snd]. split; [reflexivity|]. split; [reflexivity|].
  unfold final. rewrite Hprobe. cbn [snd]. rewrite Hfilled.
  unfold MemoryCacheService.set. rewrite Hmax.
  cbn [MemoryCacheService.cache MemoryCacheService.accessOrder
       MemoryCacheService.accessCounter].
  assert (Hsize : JsMap.size (map (fun i => (under i, entryOf i)) (first :: rest)) = N).
  { unfold JsMap.size. now rewrite length_map, HN. }
  rewrite Hsize.
  assert (HN1 : 1 <= N) by (rewrite HN; cbn [List.length]; lia).
  replace (N =? 0) with false by (symmetry; apply Z.eqb_neq; lia).
  replace (N >=? N) with true by (symmetry; apply Z.geb_le; lia).
  rewrite has_absent
    by (unfold JsMap.keys; rewrite map_map; cbn [fst]; exact Hextra).
  cbn [negb andb].
  unfold MemoryCacheService.evictLeastRecentlyUsed.
  cbn [MemoryCacheService.accessOrder map numbered].
  replace (JsMap.size ((under first, 1) :: numbered (1 + 1) (map (@under V) rest)) =? 0)
    with false
    by (symmetry; apply Z.eqb_neq; unfold JsMap.size; cbn [List.length]; lia).
  cbn [fold_left MemoryCacheService.lruScan].
  rewrite lruScan_stable
    by (eapply Forall_impl; [|apply numbered_at_least]; simpl; intros; lia).
  cbn [fst Js.truthy_string].
  apply String.eqb_neq in Hnamed. rewrite Hnamed. cbn [negb].
  unfold MemoryCacheService.delete.
  cbn [MemoryCacheService.cache MemoryCacheService.accessOrder
       MemoryCacheService.accessCounter map JsMap.delete filter fst].
  rewrite String.eqb_refl. cbn [negb].
  change (filter (fun kv => negb (String.eqb (fst kv) (under first)))
            (map (fun i => (under i, entryOf i)) rest))
    with (JsMap.delete (map (fun i => (under i, entryOf i)) rest) (under first)).
  rewrite delete_absent
    by (unfold JsMap.keys; rewrite map_map; cbn [fst]; exact Hfirst_rest).
  rewrite set_fresh_appends; [reflexivity|].
  unfold JsMap.keys. rewrite map_map. cbn [fst].
  intros Hin. apply Hextra. cbn [map]. now right.
Qed.

Lemma probed_key_is_still_evicted_witness :
  let config := {| defaultTtl := 1000; maxSize := Some 2; evictionStrategy := None |} in
  let a := {| at_time := 0; under := "a"; stored := 1; lifetime := 5000 |} in
  let b := {| at_time := 0; under := "b"; stored := 2; lifetime := 5000 |} in
  let c := {| at_time := 2; under := "c"; stored := 3; lifetime := 5000 |} in
  JsMap.keys
    (MemoryCacheService.cache
       (MemoryCacheService.set config 2 "c" 3 5000
          (snd (MemoryCacheService.has 1 "a"
                  (insertAll config [a; b] MemoryCacheService.initial)))))
  = ["b"; "c"].
Proof.
  intros config a b c.
  destruct (@probed_key_is_still_evicted Z config 2 a [b] c 1) as (_ & _ & Hfinal).
  - reflexivity.
  - reflexivity.
  - repeat constructor; cbn; intuition discriminate.
  - cbn. lia.
  - discriminate.
  - subst a b c. cbn [at_time under stored lifetime] in Hfinal.
    rewrite Hfinal. reflexivity.
Defined.

(** ** Storing and reading back *)

(** X14.  What [set] stores under a key is what [get] returns for it until
    the entry expires, whatever the cache held before and whether or not
    the [set] had to evict: a [get] or [has] at a time up to [now + ttl]
    finds the value, a later one does not.  A negative [ttl] therefore
    stores an entry that is never read back, not even at the time of the
    [set] itself. *)
Theorem stored_value_is_read_back_until_expiry
    {V} (config : CacheConfig) (s : MemoryCacheService.State V)
    (now : Z) (key : string) (v : V) (ttl later : Z) :
  let s' := MemoryCacheService.set config now key v ttl s in
  (later <= now + ttl ->
     fst (MemoryCacheService.get later key s') = Some v
     /\ fst (MemoryCacheService.has later key s') = true)
  /\ (now + ttl < later ->
        fst (MemoryCacheService.get later key s') = None
        /\ fst (MemoryCacheService.has later key s') = false)
  /\ (ttl < 0 -> fst (MemoryCacheService.get now key s') = None).
Proof.
  intros s'.
  pose proof (set_stores_entry config s now key v ttl) as Hentry. fold s' in Hentry.
  unfold MemoryCacheService.get, MemoryCacheService.has. rewrite Hentry.
  cbn [expiresAt value].
  split; [|split].
  - intros Hlive.
    replace (later >? now + ttl) with false
      by (symmetry; rewrite Z.gtb_ltb; apply Z.ltb_ge; exact Hlive).
    split; reflexivity.
  - intros Hdead.
    replace (later >? now + ttl) with true by (symmetry; apply Z.gtb_lt; exact Hdead).
    split; reflexivity.
  - intros Hneg.
    replace (now >? now + ttl) with true by (symmetry; apply Z.gtb_lt; lia).
    reflexivity.
Qed.

Lemma stored_value_is_read_back_until_expiry_witness :
  let config := {| defaultTtl := 1000; maxSize := Some 1; evictionStrategy := None |} in
  let s := MemoryCacheService.set config 0 "old" 1 5000 MemoryCacheService.initial in
  fst (MemoryCacheService.get 150 "k" (MemoryCacheService.set config 100 "k" 2 50 s))
  = Some 2
  /\ fst (MemoryCacheService.get 151 "k" (MemoryCacheService.set config 100 "k" 2 50 s))
     = None
  /\ fst (MemoryCacheService.get 100 "k" (MemoryCacheService.set config 100 "k" 2 (-1) s))
     = None.
Proof.
  intros config s. split; [|split].
  - apply (@stored_value_is_read_back_until_expiry Z config s 100 "k" 2 50 150). lia.
  - apply (@stored_value_is_read_back_until_expiry Z config s 100 "k" 2 50 151). lia.
  - apply (@stored_value_is_read_back_until_expiry Z config s 100 "k" 2 (-1) 0). lia.
Defined.

(** ** [set] evicts only when it must *)

(** X15.  [set] leaves every other entry as it was, and stores the new
    one, whenever the key is already in the cache, or [maxSize] is absent
    or [0], or the cache holds fewer than [maxSize] entries.  In
    particular overwriting a key of a full cache evicts nothing, and a
    [MemoryCacheService] configured with [maxSize: 0] is unbounded. *)
Theorem set_evicts_only_when_it_must
    {V} (config : CacheConfig) (s : MemoryCacheService.State V)
    (now : Z) (key : string) (v : V) (ttl : Z) :
  JsMap.has (MemoryCacheService.cache s) key = true
  \/ maxSize config = None
  \/ maxSize config = Some 0
  \/ (exists m, maxSize config = Some m /\ JsMap.size (MemoryCacheService.cache s) < m) ->
  let s' := MemoryCacheService.set config now key v ttl s in
  MemoryCacheService.cache s'
  = JsMap.set (MemoryCacheService.cache s) key
      {| value := v; expiresAt := now + ttl; createdAt := now |}
  /\ (forall other,
        other <> key ->
        JsMap.get (MemoryCacheService.cache s') other
        = JsMap.get (MemoryCacheService.cache s) other)
  /\ JsMap.size (MemoryCacheService.cache s)
     <= JsMap.size (MemoryCacheService.cache s').
Proof.
  intros Hcase s'.
  assert (Hcache : MemoryCacheService.cache s'
                   = JsMap.set (MemoryCacheService.cache s) key
                       {| value := v; expiresAt := now + ttl; createdAt := now |}).
  { unfold s', MemoryCacheService.set.
    destruct Hcase as [Hhas|[Hnone|[Hzero|(m & Hm & Hroom)]]].
    - rewrite Hhas. destruct (maxSize config) as [m|]; [|reflexivity].
      cbn [negb]. now rewrite andb_false_r.
    - now rewrite Hnone.
    - rewrite Hzero. reflexivity.
    - rewrite Hm.
      replace (JsMap.size (MemoryCacheService.cache s) >=? m) with false
        by (symmetry; rewrite Z.geb_leb; apply Z.leb_gt; exact Hroom).
      now rewrite andb_false_r. }
  split; [exact Hcache|]. rewrite Hcache. split.
  - intros other Hne. apply JsMap_get_set_other. congruence.
  - unfold JsMap.size.
    destruct (JsMap.has (MemoryCacheService.cache s) key) eqn:Hhas.
    + rewrite length_set_present by exact Hhas. lia.
    + rewrite set_fresh_appends.
      * rewrite length_app. cbn [List.length]. lia.
      * intros Hin. apply in_map_iff in Hin. destruct Hin as ([k e] & Heq & Hin).
        cbn in Heq. subst k. unfold JsMap.has in Hhas.
        clear -Hin Hhas. induction (MemoryCacheService.cache s) as [|[k0 e0] m IH];
          [contradiction|]. simpl in Hhas.
        destruct (String.eqb k0 key) eqn:E; [discriminate|].
        destruct Hin as [Heq|Hin]; [|apply IH; assumption].
        injection Heq as -> _. now rewrite String.eqb_refl in E.
Qed.

Lemma set_evicts_only_when_it_must_witness :
  let config := {| defaultTtl := 1000; maxSize := Some 1; evictionStrategy := None |} in
  let s := MemoryCacheService.set config 0 "a" 1 5000 MemoryCacheService.initial in
  JsMap.keys (MemoryCacheService.cache (MemoryCacheService.set config 9 "a" 2 5000 s))
  = ["a"].
Proof.
  intros config s.
  destruct (@set_evicts_only_when_it_must Z config s 9 "a" 2 5000) as (Hcache & _).
  - left. reflexivity.
  - rewrite Hcache. reflexivity.
Defined.

(** ** Sweeping expired entries *)

Lemma delete_all_cache {V} (keys : list string) (s : MemoryCacheService.State V) :
  MemoryCacheService.cache
    (fold_left (fun st key => MemoryCacheService.delete key st) keys s)
  = filter (fun kv => negb (existsb (String.eqb (fst kv)) keys))
      (MemoryCacheService.cache s)
  /\ MemoryCacheService.accessCounter
       (fold_left (fun st key => MemoryCacheService.delete key st) keys s)
     = MemoryCacheService.accessCounter s.
Proof.
  revert s. induction keys as [|k keys IH]; intros s.
  - cbn [fold_left existsb negb]. split; [|reflexivity].
    induction (MemoryCacheService.cache s) as [|kv m IHm]; [reflexivity|].
    simpl. now rewrite <- IHm.
  - cbn [fold_left]. destruct (IH (MemoryCacheService.delete k s)) as [Hc Hn].
    rewrite Hc, Hn. split; [|reflexivity].
    unfold MemoryCacheService.delete, JsMap.delete. cbn [MemoryCacheService.cache].
    induction (MemoryCacheService.cache s) as [|kv m IHm]; [reflexivity|].
    cbn [filter existsb].
    destruct (String.eqb (fst kv) k) eqn:E; cbn [negb orb filter].
    + exact IHm.
    + destruct (existsb (String.eqb (fst kv)) keys); cbn [negb]; [exact IHm|].
      f_equal. exact IHm.
Qed.

(** With every key held once, a key belongs to the expired keys exactly
    when its own entry is expired. *)
Lemma expired_key_iff {V} (now : Z) (m : JsMap.t (CacheEntry V)) (kv : string * CacheEntry V) :
  NoDup (JsMap.keys m) -> In kv m ->
  existsb (String.eqb (fst kv))
    (map fst (filter (fun kv' => now >? expiresAt (snd kv')) m))
  = (now >? expiresAt (snd kv)).
Proof.
  intros Hnd Hin.
  destruct (now >? expiresAt (snd kv)) eqn:E.
  - apply existsb_exists. exists (fst kv). split; [|apply String.eqb_refl].
    apply in_map. apply filter_In. split; assumption.
  - destruct (existsb _ _) eqn:Hex; [|reflexivity].
    apply existsb_exists in Hex. destruct Hex as (k & Hk & Heq).
    apply String.eqb_eq in Heq. subst k.
    apply in_map_iff in Hk. destruct Hk as ([k' e'] & Hfst & Hin').
    apply filter_In in Hin'. destruct Hin' as [Hin' Hexp]. cbn in Hfst, Hexp.
    destruct kv as [k e]. cbn in *. subst k'.
    apply In_get in Hin; [|exact Hnd]. apply In_get in Hin'; [|exact Hnd].
    rewrite Hin in Hin'. injection Hin' as ->. congruence.
Qed.

Lemma no_expired_among_alive {V} (now : Z) (m : JsMap.t (CacheEntry V)) :
  filter (fun kv => now >? expiresAt (snd kv)) (filter (alive now) m) = [].
Proof.
  induction m as [|kv m IH]; [reflexivity|].
  cbn [filter]. unfold alive at 1.
  destruct (now >? expiresAt (snd kv)) eqn:E; cbn [negb]; [exact IH|].
  cbn [filter]. rewrite E. exact IH.
Qed.

(** X16.  On a cache built by its public methods, [cleanupExpired]
    removes exactly the entries that are expired at the time of the call
    and returns how many they were: the entries that are still alive
    remain, unchanged and in order; the size drops by the number returned;
    nothing expired is left; the access counter is not touched. *)
Theorem cleanupExpired_removes_exactly_the_expired
    {V} (config : CacheConfig) (ops : list (@MemoryCacheService.Op V)) (now : Z) :
  let s := MemoryCacheService.run config ops MemoryCacheService.initial in
  let removed := fst (MemoryCacheService.cleanupExpired now s) in
  let s' := snd (MemoryCacheService.cleanupExpired now s) in
  MemoryCacheService.cache s' = filter (alive now) (MemoryCacheService.cache s)
  /\ removed = MemoryCacheService.expiredCount now s
  /\ JsMap.size (MemoryCacheService.cache s')
     = JsMap.size (MemoryCacheService.cache s) - removed
  /\ MemoryCacheService.expiredCount now s' = 0
  /\ fst (MemoryCacheService.cleanupExpired now s') = 0
  /\ MemoryCacheService.accessCounter s' = MemoryCacheService.accessCounter s.
Proof.
  intros s removed s'.
  pose proof (run_sound config ops (@initial_sound V)) as Hs. fold s in Hs.
  destruct Hs as (_ & Hnd & _).
  assert (Hcache : MemoryCacheService.cache s'
                   = filter (alive now) (MemoryCacheService.cache s)).
  { unfold s', MemoryCacheService.cleanupExpired. cbn [snd].
    rewrite (proj1 (delete_all_cache _ s)).
    apply filter_ext_in. intros kv Hin. unfold alive.
    now rewrite expired_key_iff. }
  pose proof (no_expired_among_alive now (MemoryCacheService.cache s)) as Hnone.
  split; [exact Hcache|].
  split; [unfold removed, MemoryCacheService.cleanupExpired,
            MemoryCacheService.expiredCount; cbn [fst]; now rewrite length_map|].
  split.
  { rewrite Hcache. unfold removed, MemoryCacheService.cleanupExpired, JsMap.size.
    cbn [fst]. rewrite length_map.
    pose proof (filter_length (fun kv => now >? expiresAt (snd kv))
                  (MemoryCacheService.cache s)) as Hlen.
    unfold alive. lia. }
  split; [unfold MemoryCacheService.expiredCount; rewrite Hcache, Hnone; reflexivity|].
  split.
  { unfold MemoryCacheService.cleanupExpired. cbn [fst].
    rewrite Hcache, Hnone. reflexivity. }
  unfold s', MemoryCacheService.cleanupExpired. cbn [snd].
  apply (proj2 (delete_all_cache _ s)).
Qed.

(** ** Statistics *)

(** X17.  On a cache built by its public methods, [getStats] reports as
    [expiredEntries] the number [cleanupExpired] would remove at the same
    time, a number between [0] and [size]; and its [hitRate], the quotient
    of [size] by the access counter ([0] before the first access), lies
    between [0] and [1]. *)
Theorem getStats_is_consistent
    {V} (config : CacheConfig) (ops : list (@MemoryCacheService.Op V)) (now : Z) :
  let s := MemoryCacheService.run config ops MemoryCacheService.initial in
  let '(size, max, expired, hitRate) := MemoryCacheService.getStats config now s in
  size = JsMap.size (MemoryCacheService.cache s)
  /\ max = maxSize config
  /\ expired = fst (MemoryCacheService.cleanupExpired now s)
  /\ 0 <= expired <= size
  /\ (0 <= hitRate)%Q /\ (hitRate <= 1)%Q.
Proof.
  intros s. unfold MemoryCacheService.getStats.
  pose proof (run_sound config ops (@initial_sound V)) as Hs. fold s in Hs.
  destruct Hs as (_ & _ & _ & _ & Hsz).
  split; [reflexivity|]. split; [reflexivity|].
  split.
  { unfold MemoryCacheService.expiredCount, MemoryCacheService.cleanupExpired.
    cbn [fst]. now rewrite length_map. }
  split.
  { unfold MemoryCacheService.expiredCount, JsMap.size.
    pose proof (filter_length_le (fun kv => now >? expiresAt (snd kv))
                  (MemoryCacheService.cache s)). lia. }
  destruct (MemoryCacheService.accessCounter s >? 0) eqn:E.
  - apply Z.gtb_lt in E.
    assert (Hc : (0 < inject_Z (MemoryCacheService.accessCounter s))%Q)
      by (change 0%Q with (inject_Z 0); rewrite <- Zlt_Qlt; exact E).
    split.
    + apply Qle_shift_div_l; [exact Hc|]. rewrite Qmult_0_l.
      change 0%Q with (inject_Z 0). rewrite <- Zle_Qle. unfold JsMap.size. lia.
    + apply Qle_shift_div_r; [exact Hc|]. rewrite Qmult_1_l.
      rewrite <- Zle_Qle. exact Hsz.
  - split; [apply Qle_refl|discriminate].
Qed.

(** ** Deleting *)

(** X18.  On a cache built by its public methods, [delete] removes the
    entry of the key and its recency record and nothing else: the key is
    no longer found by [get] or [has], every other entry is as before, the
    size drops by one if the key was present, and if it was absent the
    cache is left exactly as it was. *)
Theorem delete_removes_exactly_one_key
    {V} (config : CacheConfig) (ops : list (@MemoryCacheService.Op V))
    (key : string) (now : Z) :
  let s := MemoryCacheService.run config ops MemoryCacheService.initial in
  let s' := MemoryCacheService.delete key s in
  fst (MemoryCacheService.get now key s') = None
  /\ fst (MemoryCacheService.has now key s') = false
  /\ (forall other, other <> key ->
        JsMap.get (MemoryCacheService.cache s') other
        = JsMap.get (MemoryCacheService.cache s) other
        /\ JsMap.get (MemoryCacheService.accessOrder s') other
           = JsMap.get (MemoryCacheService.accessOrder s) other)
  /\ JsMap.size (MemoryCacheService.cache s')
     = JsMap.size (MemoryCacheService.cache s)
       - (if JsMap.has (MemoryCacheService.cache s) key then 1 else 0)
  /\ (JsMap.has (MemoryCacheService.cache s) key = false -> s' = s).
Proof.
  intros s s'.
  pose proof (run_sound config ops (@initial_sound V)) as Hs. fold s in Hs.
  destruct Hs as (Hk & Hnd & _). unfold keys_agree in Hk.
  unfold s', MemoryCacheService.get, MemoryCacheService.has, MemoryCacheService.delete.
  cbn [MemoryCacheService.cache MemoryCacheService.accessOrder].
  rewrite JsMap_get_delete_same.
  split; [reflexivity|]. split; [reflexivity|].
  split.
  { intros other Hne. split; apply JsMap_get_delete_other; congruence. }
  assert (Hpresence : JsMap.has (MemoryCacheService.cache s) key = true
                      <-> In key (JsMap.keys (MemoryCacheService.cache s))).
  { rewrite JsMap_has_get. split.
    - intros [e He]. eapply get_some_in_keys. exact He.
    - intros Hin. apply in_map_iff in Hin. destruct Hin as ([k e] & Heq & Hin).
      cbn in Heq. subst k. exists e. apply In_get; assumption. }
  split.
  - destruct (JsMap.has (MemoryCacheService.cache s) key) eqn:Hhas.
    + assert (Hin : In key (JsMap.keys (MemoryCacheService.cache s)))
        by (apply Hpresence; reflexivity).
      pose proof (@filter_keys_length _ key Hnd Hin) as Hlen.
      rewrite <- keys_delete in Hlen. unfold JsMap.size, JsMap.keys in *.
      rewrite !length_map in Hlen. lia.
    + rewrite delete_absent; [lia|]. intros Hin. apply Hpresence in Hin. discriminate.
  - intros Hhas.
    assert (Hnot : ~ In key (JsMap.keys (MemoryCacheService.cache s)))
      by (intros Hin; apply Hpresence in Hin; congruence).
    rewrite !delete_absent; [destruct s; reflexivity| |exact Hnot].
    rewrite <- Hk. exact Hnot.
Qed.

(** * The engine on the in-memory cache *)

(** ** A second call within the lifetime *)

Lemma memory_service_get_missing {V} (cacheConfig : CacheConfig) (key : string)
    (b : MemoryCacheService.Timed V) :
  JsMap.get (MemoryCacheService.cache (MemoryCacheService.store b)) key = None ->
  cache_get (MemoryCacheService.service cacheConfig) key b = (Returned None, b).
Proof.
  intros Hmiss. cbn [cache_get MemoryCacheService.service].
  unfold MemoryCacheService.get. rewrite Hmiss. destruct b; reflexivity.
Qed.

(** X19.  [PaginatorService] on a [MemoryCacheService], caching enabled, a
    configuration the validator accepts, and a cache that does not hold
    the call's key.  If the first call returns a page, that page is fresh
    ([fromCache = false]) and is stored for [cacheTtl || 300000] ms.  The
    same call repeated while the clock is at most that far on returns the
    same [data] and [meta] with [fromCache = true]; repeated later, it
    computes the page again and returns it with [fromCache = false]. *)
Theorem second_call_is_served_from_the_cache
    {T} `{Serializable T} (cacheConfig : CacheConfig)
    (items : list T) (config : PaginationConfig)
    (held : MemoryCacheService.State (PaginatedResult T))
    (now later : Z) (log : list string) :
  PaginatorService.validateConfig config = Returned tt ->
  enableCache config = Some true ->
  JsMap.get (MemoryCacheService.cache held)
    (PaginatorService.generateCacheKey items config) = None ->
  let svc := MemoryCacheService.service cacheConfig in
  let ttl := Js.or_default (cacheTtl config) 300000 in
  let first :=
    PaginatorService.paginate (Some svc) items config
      {| backend := {| MemoryCacheService.clock := now; MemoryCacheService.store := held |};
         console := log |} in
  let second :=
    PaginatorService.paginate (Some svc) items config
      {| backend :=
           {| MemoryCacheService.clock := later;
              MemoryCacheService.store := MemoryCacheService.store (backend (snd first)) |};
         console := console (snd first) |} in
  forall r : PaginatedResult T,
    fst first = Returned r ->
    fromCache r = false
    /\ JsMap.get (MemoryCacheService.cache (MemoryCacheService.store (backend (snd first))))
         (PaginatorService.generateCacheKey items config)
       = Some {| value := r; expiresAt := now + ttl; createdAt := now |}
    /\ (later <= now + ttl ->
          fst second = Returned {| data := data r; meta := meta r; fromCache := true |})
    /\ (now + ttl < later -> fst second = Returned r).
Proof.
  intros Hv Hon Hmiss svc ttl first second r Hfirst.
  assert (Htruthy : Js.truthy_bool (enableCache config) = true) by now rewrite Hon.
  set (key := PaginatorService.generateCacheKey items config) in *.
  destruct (computed items (page config) (pageSize config)) as [r0|e] eqn:Hc.
  2:{ unfold first in Hfirst.
      rewrite service_paginate_miss_not_found
        with (b := {| MemoryCacheService.clock := now; MemoryCacheService.store := held |})
             (e := e) in Hfirst; try assumption.
      - discriminate.
      - apply memory_service_get_missing. exact Hmiss. }
  assert (Hrun : first
    = (Returned r0,
       {| backend :=
            {| MemoryCacheService.clock := now;
               MemoryCacheService.store :=
                 MemoryCacheService.set cacheConfig now key r0 ttl held |};
          console := log |})).
  { unfold first.
    rewrite service_paginate_miss
      with (b := {| MemoryCacheService.clock := now; MemoryCacheService.store := held |})
           (r := r0); try assumption.
    - reflexivity.
    - apply memory_service_get_missing. exact Hmiss. }
  rewrite Hrun in Hfirst. cbn [fst] in Hfirst. injection Hfirst as <-.
  assert (Hfresh : fromCache r0 = false).
  { unfold computed in Hc. destruct ((_ >? 0) && negb _); [discriminate|].
    injection Hc as <-. reflexivity. }
  split; [exact Hfresh|].
  assert (Hstored :
    JsMap.get (MemoryCacheService.cache (MemoryCacheService.set cacheConfig now key r0 ttl held))
      key = Some {| value := r0; expiresAt := now + ttl; createdAt := now |})
    by apply set_stores_entry.
  unfold second. rewrite Hrun. cbn [snd backend console MemoryCacheService.store].
  split; [exact Hstored|].
  split.
  - intros Hlive.
    unfold PaginatorService.paginate, PaginatorService.cacheInUse, bind, lift.
    rewrite Hv, Htruthy. unfold call at 1. cbn [backend cache_get svc MemoryCacheService.service
      MemoryCacheService.clock MemoryCacheService.store].
    fold key. unfold MemoryCacheService.get. rewrite Hstored. cbn [expiresAt value].
    replace (later >? now + ttl) with false
      by (symmetry; rewrite Z.gtb_ltb; apply Z.ltb_ge; exact Hlive).
    reflexivity.
  - intros Hdead.
    rewrite service_paginate_miss
      with (b := {| MemoryCacheService.clock := later;
                    MemoryCacheService.store :=
                      MemoryCacheService.delete key
                        (MemoryCacheService.set cacheConfig now key r0 ttl held) |})
           (r := r0); try assumption; [reflexivity|].
    cbn [backend cache_get svc MemoryCacheService.service
         MemoryCacheService.clock MemoryCacheService.store].
    fold key. unfold MemoryCacheService.get. rewrite Hstored. cbn [expiresAt].
    replace (later >? now + ttl) with true by (symmetry; apply Z.gtb_lt; exact Hdead).
    reflexivity.
Qed.

Lemma second_call_is_served_from_the_cache_witness :
  let cacheConfig := {| defaultTtl := 1000; maxSize := Some 3; evictionStrategy := None |} in
  let config :=
    {| page := 2; pageSize := 2; maxPageSize := None;
       enableCache := Some true; cacheTtl := Some 5000 |} in
  let svc := MemoryCacheService.service cacheConfig in
  let first :=
    PaginatorService.paginate (Some svc) [1; 2; 3; 4; 5] config
      {| backend :=
           {| MemoryCacheService.clock := 100;
              MemoryCacheService.store := MemoryCacheService.initial |};
         console := [] |} in
  fst (PaginatorService.paginate (Some svc) [1; 2; 3; 4; 5] config
         {| backend :=
              {| MemoryCacheService.clock := 5100;
                 MemoryCacheService.store :=
                   MemoryCacheService.store (backend (snd first)) |};
            console := console (snd first) |})
  = Returned (markFromCache (freshResult [1; 2; 3; 4; 5] 2 2)).
Proof.
  intros cacheConfig config svc first.
  destruct (@second_call_is_served_from_the_cache Z _ cacheConfig [1; 2; 3; 4; 5] config
              MemoryCacheService.initial 100 5100 [] eq_refl eq_refl eq_refl
              (freshResult [1; 2; 3; 4; 5] 2 2) eq_refl)
    as (_ & _ & Hhit & _).
  apply Hhit. cbn. lia.
Defined.

(** * [quickPaginate] *)

Lemma core_paginate_structure
    {T} `{Serializable T} {St}
    (cacheService : option (CacheService St (PaginatedResult T)))
    (items : list T) (config : CorePaginator.ExtendedPaginationConfig) (w : World St) :
  CorePaginator.paginate cacheService items config w
  = if Js.truthy_bool (CorePaginator.Extended.noPagination config)
    then CorePaginator.returnAllData cacheService items config w
    else
      match explicitError config with
      | Some e => (Thrown e, w)
      | None =>
          CorePaginator.paginateNormal cacheService items
            (CorePaginator.normalizeConfig config) w
      end.
Proof.
  unfold CorePaginator.paginate, explicitError.
  destruct (Js.truthy_bool _); [reflexivity|].
  destruct (CorePaginator.Extended.pageSize config) as [size|];
    [destruct (size <=? 0); [reflexivity|]|];
    unfold bind at 1; cbn [ret];
    (destruct (CorePaginator.Extended.page config) as [p|];
     [destruct (p <=? 0)|]; reflexivity).
Qed.

(** The outcome of a run of the engine that meets no cached result, and
    whose cache write, if any, succeeds. *)
Lemma core_paginate_on_an_empty_cache
    {T} `{Serializable T} (paginator : option Z)
    (items : list T) (config : CorePaginator.ExtendedPaginationConfig) (now : Z) :
  let w :=
    {| backend :=
         {| MemoryCacheService.clock := now;
            MemoryCacheService.store := @SimpleCache.initial (PaginatedResult T) |};
       console := [] |} in
  let run :=
    CorePaginator.paginate (option_map (SimpleCache.service (V := PaginatedResult T)) paginator) items config w in
  console (snd run) = []
  /\ fst run
     = if Js.truthy_bool (CorePaginator.Extended.noPagination config)
       then Returned (CorePaginator.allDataResult items)
       else
         match explicitError config with
         | Some e => Thrown e
         | None =>
             match CorePaginator.validateConfig (CorePaginator.normalizeConfig config) with
             | Thrown e => Thrown e
             | Returned _ =>
                 computed items (page (CorePaginator.normalizeConfig config))
                   (pageSize (CorePaginator.normalizeConfig config))
             end
         end.
Proof.
  intros w run. unfold run. rewrite core_paginate_structure.
  destruct (Js.truthy_bool (CorePaginator.Extended.noPagination config)).
  - unfold CorePaginator.returnAllData, CorePaginator.cacheInUse, bind.
    destruct (Js.truthy_bool (CorePaginator.Extended.enableCache config));
      [|split; reflexivity].
    destruct paginator as [m|]; split; reflexivity.
  - destruct (explicitError config) as [e|]; [split; reflexivity|].
    set (normal := CorePaginator.normalizeConfig config).
    destruct (CorePaginator.validateConfig normal) as [[]|e] eqn:Hv.
    2:{ rewrite core_paginateNormal_invalid with (e := e) by exact Hv.
        split; reflexivity. }
    destruct (CorePaginator.cacheInUse (option_map (SimpleCache.service (V := PaginatedResult T)) paginator)
                (enableCache normal)) as [svc|] eqn:Huse.
    2:{ rewrite core_paginateNormal_uncached by assumption. split; reflexivity. }
    unfold CorePaginator.cacheInUse in Huse.
    destruct (Js.truthy_bool (enableCache normal)) eqn:Hon; [|discriminate].
    destruct paginator as [m|]; [|discriminate]. injection Huse as <-.
    cbn [option_map].
    destruct (computed items (page normal) (pageSize normal)) as [r|e] eqn:Hc.
    + rewrite core_paginateNormal_miss with (b := backend w) (r := r);
        try assumption; [split; reflexivity|reflexivity].
    + rewrite core_paginateNormal_miss_not_found with (b := backend w) (e := e);
        try assumption; [split; reflexivity|reflexivity].
Qed.

Lemma explicitError_ignores_enableCache p size max cache cache' ttl noPagination :
  explicitError
    {| CorePaginator.Extended.page := p; CorePaginator.Extended.pageSize := size;
       CorePaginator.Extended.maxPageSize := max;
       CorePaginator.Extended.enableCache := cache;
       CorePaginator.Extended.cacheTtl := ttl;
       CorePaginator.Extended.noPagination := noPagination |}
  = explicitError
      {| CorePaginator.Extended.page := p; CorePaginator.Extended.pageSize := size;
         CorePaginator.Extended.maxPageSize := max;
         CorePaginator.Extended.enableCache := cache';
         CorePaginator.Extended.cacheTtl := ttl;
         CorePaginator.Extended.noPagination := noPagination |}.
Proof. reflexivity. Qed.

(** X20.  [quickPaginate] builds its paginator, and with it a new empty
    cache, on every call.  Its [enableCache] option therefore changes
    nothing that the caller can see: the outcome is the one obtained with
    the option left out, at any clock reading; a page that is returned
    always has [fromCache = false]; and nothing is written to the
    console. *)
Theorem quickPaginate_never_serves_a_cached_page
    {T} `{Serializable T} (now now' : Z) (items : list T)
    (pageArg sizeArg : option Z) (options : option Index.Options.QuickOptions) :
  Index.quickPaginate now items pageArg sizeArg options
  = Index.quickPaginate now' items pageArg sizeArg (withoutQuickCache options)
  /\ snd (Index.quickPaginate now items pageArg sizeArg options) = []
  /\ (forall r,
        fst (Index.quickPaginate now items pageArg sizeArg options) = Returned r ->
        fromCache r = false).
Proof.
  assert (Hshape : forall (paginator : option Z) clock config,
    let run :=
      CorePaginator.paginate (option_map (SimpleCache.service (V := PaginatedResult T)) paginator) items config
        {| backend :=
             {| MemoryCacheService.clock := clock;
                MemoryCacheService.store := @SimpleCache.initial (PaginatedResult T) |};
           console := [] |} in
    (let (outcome, w) := run in (outcome, console w))
    = (if Js.truthy_bool (CorePaginator.Extended.noPagination config)
       then Returned (CorePaginator.allDataResult items)
       else
         match explicitError config with
         | Some e => Thrown e
         | None =>
             match CorePaginator.validateConfig (CorePaginator.normalizeConfig config) with
             | Thrown e => Thrown e
             | Returned _ =>
                 computed items (page (CorePaginator.normalizeConfig config))
                   (pageSize (CorePaginator.normalizeConfig config))
             end
         end, [])).
  { intros paginator clock config run.
    destruct (core_paginate_on_an_empty_cache paginator items config clock) as [Hlog Hout].
    fold run in Hlog, Hout. destruct run as [outcome w]. cbn [fst snd] in *.
    now rewrite Hlog, Hout. }
  assert (Hquick : forall clock opts,
    Index.quickPaginate clock items pageArg sizeArg opts
    = (let p := match pageArg with Some p => p | None => 1 end in
       let size := match sizeArg with Some s => s | None => 10 end in
       if Js.truthy_bool (Index.optional opts Index.Options.noPagination)
       then Returned (CorePaginator.allDataResult items)
       else
         match Index.optional opts Index.Options.maxItemsBeforePagination with
         | Some m =>
             if m =? 0 then
               match explicitError
                       {| CorePaginator.Extended.page := Some p;
                          CorePaginator.Extended.pageSize := Some size;
                          CorePaginator.Extended.maxPageSize := None;
                          CorePaginator.Extended.enableCache := None;
                          CorePaginator.Extended.cacheTtl := None;
                          CorePaginator.Extended.noPagination := Some false |} with
               | Some e => Thrown e
               | None =>
                   match CorePaginator.validateConfig
                           {| page := Js.or_default (Some p) 1;
                              pageSize := Js.or_default (Some size) 10;
                              maxPageSize := None; enableCache := None;
                              cacheTtl := None |} with
                   | Thrown e => Thrown e
                   | Returned _ =>
                       computed items (Js.or_default (Some p) 1)
                         (Js.or_default (Some size) 10)
                   end
               end
             else if Z.of_nat (List.length items) <=? m
             then Returned (CorePaginator.allDataResult items)
             else
               match explicitError
                       {| CorePaginator.Extended.page := Some p;
                          CorePaginator.Extended.pageSize := Some size;
                          CorePaginator.Extended.maxPageSize := None;
                          CorePaginator.Extended.enableCache := None;
                          CorePaginator.Extended.cacheTtl := None;
                          CorePaginator.Extended.noPagination := Some false |} with
               | Some e => Thrown e
               | None =>
                   match CorePaginator.validateConfig
                           {| page := Js.or_default (Some p) 1;
                              pageSize := Js.or_default (Some size) 10;
                              maxPageSize := None; enableCache := None;
                              cacheTtl := None |} with
                   | Thrown e => Thrown e
                   | Returned _ =>
                       computed items (Js.or_default (Some p) 1)
                         (Js.or_default (Some size) 10)
                   end
               end
         | None =>
             match explicitError
                     {| CorePaginator.Extended.page := Some p;
                        CorePaginator.Extended.pageSize := Some size;
                        CorePaginator.Extended.maxPageSize := None;
                        CorePaginator.Extended.enableCache := None;
                        CorePaginator.Extended.cacheTtl := None;
                        CorePaginator.Extended.noPagination := Some false |} with
             | Some e => Thrown e
             | None =>
                 match CorePaginator.validateConfig
                         {| page := Js.or_default (Some p) 1;
                            pageSize := Js.or_default (Some size) 10;
                            maxPageSize := None; enableCache := None;
                            cacheTtl := None |} with
                 | Thrown e => Thrown e
                 | Returned _ =>
                     computed items (Js.or_default (Some p) 1)
                       (Js.or_default (Some size) 10)
                 end
             end
         end, [])).
  { intros clock opts. unfold Index.quickPaginate, Index.createPaginator.
    cbv zeta.
    set (cacheOn := Js.truthy_bool (Index.optional opts Index.Options.quick_enableCache)).
    assert (Hpaginator :
      (if cacheOn
       then Some (SimpleCache.service (V := PaginatedResult T) (Js.or_default None 1000))
       else None)
      = option_map (SimpleCache.service (V := PaginatedResult T)) (if cacheOn then Some 1000 else None))
      by (destruct cacheOn; reflexivity).
    cbn [Index.Options.enableCache Index.Options.maxCacheSize]. fold cacheOn.
    rewrite Hpaginator.
    destruct (Js.truthy_bool (Index.optional opts Index.Options.noPagination)).
    - unfold CorePaginator.getAllData. rewrite Hshape. reflexivity.
    - destruct (Index.optional opts Index.Options.maxItemsBeforePagination) as [m|].
      + destruct (m =? 0).
        * unfold CorePaginator.simplePaginate. rewrite Hshape. reflexivity.
        * unfold CorePaginator.smartPaginate. rewrite Hshape.
          cbn [CorePaginator.Extended.noPagination Js.truthy_bool].
          destruct (Z.of_nat (List.length items) <=? m); reflexivity.
      + unfold CorePaginator.simplePaginate. rewrite Hshape. reflexivity. }
  assert (Hsame : Index.quickPaginate now items pageArg sizeArg options
                  = Index.quickPaginate now' items pageArg sizeArg (withoutQuickCache options)).
  { rewrite !Hquick. destruct options as [o|]; reflexivity. }
  split; [exact Hsame|]. rewrite Hquick. cbv zeta.
  split.
  - repeat match goal with
           | |- snd (if ?b then _ else _, _) = _ => reflexivity
           | |- snd _ = _ => reflexivity
           end.
  - intros r Hr. cbn [fst] in Hr.
    assert (Hall : fromCache (CorePaginator.allDataResult items) = false) by reflexivity.
    assert (Hcomputed : forall p size r0,
              computed items p size = Returned r0 -> fromCache r0 = false).
    { intros p size r0 Hc. unfold computed in Hc.
      destruct ((_ >? 0) && negb _); [discriminate|]. injection Hc as <-. reflexivity. }
    repeat match type of Hr with
           | (if ?b then _ else _) = _ => destruct b
           | match ?x with _ => _ end = _ => destruct x eqn:?
           end;
      try discriminate;
      try (injection Hr as <-; exact Hall);
      try (eapply Hcomputed; exact Hr).
Qed.

(** * Cache keys and the utility validator *)

(** ** The form of a key *)

Lemma digit36_is_a_digit (d : Z) : 0 <= d < 36 -> isDigit36 (Js.digit36 d) = true.
Proof.
  intros Hd.
  assert (Hall : forallb (fun k => isDigit36 (Js.digit36 (Z.of_nat k))) (seq 0 36) = true)
    by (vm_compute; reflexivity).
  rewrite forallb_forall in Hall.
  specialize (Hall (Z.to_nat d)). rewrite Z2Nat.id in Hall by lia.
  apply Hall. apply in_seq. lia.
Qed.

Lemma toString36_aux_digits (fuel : nat) (n : Z) (acc : string) :
  0 <= n -> allDigits36 acc = true ->
  allDigits36 (Js.toString36_aux fuel n acc) = true
  /\ (fuel <> O -> Js.toString36_aux fuel n acc <> EmptyString).
Proof.
  revert n acc. induction fuel as [|fuel IH]; intros n acc Hn Hacc.
  - split; [exact Hacc|congruence].
  - cbn [Js.toString36_aux].
    assert (Hdigit : isDigit36 (Js.digit36 (n mod 36)) = true)
      by (apply digit36_is_a_digit; apply Z.mod_pos_bound; lia).
    assert (Hacc' : allDigits36 (String (Js.digit36 (n mod 36)) acc) = true)
      by (cbn [allDigits36]; now rewrite Hdigit, Hacc).
    destruct (n / 36 =? 0).
    + split; [exact Hacc'|discriminate].
    + destruct (IH (n / 36) (String (Js.digit36 (n mod 36)) acc)) as [Hall Hne];
        [apply Z.div_pos; lia|exact Hacc'|].
      split; [exact Hall|]. intros _.
      destruct fuel as [|fuel']; [discriminate|].
      apply Hne. discriminate.
Qed.

Lemma hashString_is_base36 (str : string) :
  isBase36 (PaginationUtils.hashString str) = true.
Proof.
  unfold PaginationUtils.hashString, Js.toString36, isBase36.
  match goal with
  | |- context [Js.toString36_aux ?fuel ?n EmptyString] =>
      destruct (@toString36_aux_digits fuel n EmptyString) as [Hall Hne];
      [lia|reflexivity|]
  end.
  rewrite Hall, andb_true_r. apply negb_true_iff. apply String.eqb_neq.
  apply Hne. discriminate.
Qed.

(** X21.  Every cache key has the form [pagination:<h1>:<h2>] where each
    of [<h1>], the hash of the data, and [<h2>], the hash of the
    configuration object, is a non-empty word over [0-9a-z]; in
    particular no key the engines pass to a cache is the empty string.
    This holds of [PaginationUtils.generateCacheKey] for every object, and
    so of the keys of [PaginatorService] and [CorePaginator]. *)
Theorem cache_keys_are_well_formed
    {T} `{Serializable T} (items : list T) (obj : Js.Object)
    (config : PaginationConfig) :
  let wellFormed (key : string) :=
    exists h1 h2,
      key = "pagination:" ++ h1 ++ ":" ++ h2
      /\ isBase36 h1 = true /\ isBase36 h2 = true in
  wellFormed (PaginationUtils.generateCacheKey items obj)
  /\ wellFormed (PaginatorService.generateCacheKey items config)
  /\ wellFormed (CorePaginator.generateCacheKey items (CorePaginator.configObject config))
  /\ PaginationUtils.generateCacheKey items obj <> EmptyString.
Proof.
  intros wellFormed.
  assert (Hall : forall o, wellFormed (PaginationUtils.generateCacheKey items o)).
  { intros o. exists (PaginationUtils.hashArray items), (PaginationUtils.hashObject o).
    split; [reflexivity|]. split; apply hashString_is_base36. }
  split; [apply Hall|]. split; [apply Hall|]. split; [apply Hall|]. discriminate.
Qed.

(** ** [validatePaginationParams] *)

(** X22.  [validatePaginationParams] returns normally exactly when the
    page and the page size are at least [1] and the page size does not
    exceed a maximum that is given and not [0].  Everything
    [PaginatorService.validateConfig] accepts it accepts too, but not the
    other way round: without a maximum it lets a page size of [101] pass,
    which the service rejects against its default maximum of [100]. *)
Theorem validatePaginationParams_accepts
    (page pageSize : Z) (max : option Z) (cache : option bool) (ttl : option Z) :
  (PaginationUtils.validatePaginationParams page pageSize max = inr tt
   <-> 1 <= page /\ 1 <= pageSize
       /\ (forall m, max = Some m -> m <> 0 -> pageSize <= m))
  /\ (PaginatorService.validateConfig
        {| page := page; pageSize := pageSize; maxPageSize := max;
           enableCache := cache; cacheTtl := ttl |} = Returned tt ->
      PaginationUtils.validatePaginationParams page pageSize max = inr tt)
  /\ PaginationUtils.validatePaginationParams 1 101 None = inr tt
  /\ PaginatorService.validateConfig
       {| page := 1; pageSize := 101; maxPageSize := None;
          enableCache := cache; cacheTtl := ttl |}
     = Thrown (InvalidPageSizeException 101 (Some 100)).
Proof.
  assert (Hiff : PaginationUtils.validatePaginationParams page pageSize max = inr tt
                 <-> 1 <= page /\ 1 <= pageSize
                     /\ (forall m, max = Some m -> m <> 0 -> pageSize <= m)).
  { unfold PaginationUtils.validatePaginationParams.
    destruct (page <? 1) eqn:E1.
    { apply Z.ltb_lt in E1. split; [discriminate|lia]. }
    apply Z.ltb_ge in E1.
    destruct (pageSize <? 1) eqn:E2.
    { apply Z.ltb_lt in E2. split; [discriminate|lia]. }
    apply Z.ltb_ge in E2.
    destruct max as [m|].
    - destruct (m =? 0) eqn:E3; cbn [negb andb].
      + apply Z.eqb_eq in E3. split; [|reflexivity]. intros _.
        split; [exact E1|]. split; [exact E2|]. intros m' Hm Hnz. congruence.
      + apply Z.eqb_neq in E3. destruct (pageSize >? m) eqn:E4.
        * apply Z.gtb_lt in E4. split; [discriminate|].
          intros (_ & _ & Hmax). specialize (Hmax m eq_refl E3). lia.
        * rewrite Z.gtb_ltb in E4. apply Z.ltb_ge in E4. split; [|reflexivity].
          intros _. split; [exact E1|]. split; [exact E2|].
          intros m' Hm _. injection Hm as <-. exact E4.
    - split; [|reflexivity]. intros _. split; [exact E1|]. split; [exact E2|].
      discriminate. }
  split; [exact Hiff|]. split; [|split; reflexivity].
  intros Hv. apply Hiff. apply validateConfig_accepts in Hv.
  destruct Hv as (Hp & Hs & Hmax & _). cbn in Hp, Hs, Hmax.
  split; [exact Hp|]. split; [exact Hs|].
  intros m -> Hnz. cbn in Hmax.
  replace (m =? 0) with false in Hmax by (symmetry; apply Z.eqb_neq; exact Hnz).
  exact Hmax.
Qed.

Lemma validatePaginationParams_accepts_witness :
  PaginationUtils.validatePaginationParams 2 10 (Some 50) = inr tt.
Proof.
  apply (proj1 (proj2 (validatePaginationParams_accepts 2 10 (Some 50) None None))).
  reflexivity.
Defined.

(** ** The order of the properties of the hashed object *)

Lemma ascii_compare_trans_lt (a b c : ascii) :
  Ascii.compare a b = Lt -> Ascii.compare b c = Lt -> Ascii.compare a c = Lt.
Proof.
  unfold Ascii.compare. rewrite !N.compare_lt_iff. lia.
Qed.

Lemma ascii_compare_refl (a : ascii) : Ascii.compare a a = Eq.
Proof. unfold Ascii.compare. apply N.compare_refl. Qed.

Lemma string_compare_eq (s t : string) : String.compare s t = Eq -> s = t.
Proof. apply String.compare_eq_iff. Qed.

Lemma string_compare_refl (s : string) : String.compare s s = Eq.
Proof.
  induction s as [|a s IH]; cbn; [reflexivity|].
  now rewrite ascii_compare_refl.
Qed.

Lemma string_compare_trans_lt (s t u : string) :
  String.compare s t = Lt -> String.compare t u = Lt -> String.compare s u = Lt.
Proof.
  revert t u. induction s as [|a s IH]; intros [|b t] [|c u]; cbn;
    try congruence.
  destruct (Ascii.compare a b) eqn:Eab; try discriminate;
    destruct (Ascii.compare b c) eqn:Ebc; try discriminate; intros Hst Htu.
  - apply Ascii.compare_eq_iff in Eab, Ebc. subst b c.
    rewrite ascii_compare_refl.
    eapply IH; eassumption.
  - apply Ascii.compare_eq_iff in Eab. subst b. rewrite Ebc. reflexivity.
  - apply Ascii.compare_eq_iff in Ebc. subst c. rewrite Eab. reflexivity.
  - rewrite (ascii_compare_trans_lt _ _ _ Eab Ebc). reflexivity.
Qed.

Lemma string_leb_trans (s t u : string) :
  String.leb s t = true -> String.leb t u = true -> String.leb s u = true.
Proof.
  unfold String.leb.
  destruct (String.compare s t) eqn:Est; try discriminate;
    destruct (String.compare t u) eqn:Etu; try discriminate; intros _ _.
  - apply string_compare_eq in Est, Etu. subst t u.
    now rewrite string_compare_refl.
  - apply string_compare_eq in Est. subst t. now rewrite Etu.
  - apply string_compare_eq in Etu. subst u. now rewrite Est.
  - now rewrite (string_compare_trans_lt _ _ _ Est Etu).
Qed.

Lemma sort_insert_permutation (k : string) (l : list string) :
  Permutation (Js.sort_insert k l) (k :: l).
Proof.
  induction l as [|h rest IH]; cbn [Js.sort_insert]; [reflexivity|].
  destruct (String.leb k h); [reflexivity|].
  rewrite IH. apply perm_swap.
Qed.

Lemma sort_permutation (l : list string) : Permutation (Js.sort l) l.
Proof.
  induction l as [|k rest IH]; cbn; [reflexivity|].
  fold (Js.sort rest). rewrite sort_insert_permutation. now constructor.
Qed.

Lemma sort_insert_ascending (k : string) (l : list string) :
  ascending l -> ascending (Js.sort_insert k l).
Proof.
  unfold ascending. induction 1 as [|h rest Hrest IH Hh]; cbn [Js.sort_insert].
  - repeat constructor.
  - destruct (String.leb k h) eqn:Ekh.
    + constructor; [constructor; assumption|].
      constructor; [exact Ekh|].
      rewrite Forall_forall in *. intros x Hx.
      eapply string_leb_trans; [exact Ekh|apply Hh; exact Hx].
    + constructor; [exact IH|].
      rewrite Forall_forall in *. intros x Hx.
      apply (Permutation_in _ (sort_insert_permutation k rest)) in Hx.
      destruct Hx as [<-|Hx]; [|apply Hh; exact Hx].
      destruct (String.leb_total h k) as [Hl|Hl]; [exact Hl|congruence].
Qed.

Lemma sort_ascending (l : list string) : ascending (Js.sort l).
Proof.
  induction l as [|k rest IH]; cbn; [constructor|].
  apply sort_insert_ascending. exact IH.
Qed.

Lemma ascending_unique (l l' : list string) :
  ascending l -> ascending l' -> Permutation l l' -> l = l'.
Proof.
  unfold ascending. intros Hl. revert l'.
  induction Hl as [|a l Hl IH Ha]; intros l' Hl' Hperm.
  - apply Permutation_nil in Hperm. now subst.
  - destruct Hl' as [|b l' Hl' Hb].
    + apply Permutation_sym, Permutation_nil in Hperm. discriminate.
    + assert (Hab : a = b).
      { rewrite Forall_forall in Ha, Hb.
        assert (Hina : In a (b :: l'))
          by (apply (Permutation_in _ Hperm); now left).
        assert (Hinb : In b (a :: l))
          by (apply (Permutation_in _ (Permutation_sym Hperm)); now left).
        destruct Hina as [->|Hina]; [reflexivity|].
        destruct Hinb as [->|Hinb]; [reflexivity|].
        apply String.leb_antisym; [apply Ha; exact Hinb|apply Hb; exact Hina]. }
      subst b. f_equal. apply IH; [exact Hl'|].
      eapply Permutation_cons_inv; exact Hperm.
Qed.

Lemma sort_of_permutation (l l' : list string) :
  Permutation l l' -> Js.sort l = Js.sort l'.
Proof.
  intros Hperm. apply ascending_unique; try apply sort_ascending.
  rewrite !sort_permutation. exact Hperm.
Qed.

Lemma property_absent (obj : Js.Object) (key : string) :
  ~ In key (Js.Object_keys obj) -> Js.property obj key = Js.Undefined.
Proof.
  induction obj as [|[k v] rest IH]; cbn; [reflexivity|]. intros Hnot.
  destruct (String.eqb k key) eqn:E.
  - apply String.eqb_eq in E. tauto.
  - apply IH. tauto.
Qed.

Lemma property_of_permutation (obj obj' : Js.Object) (key : string) :
  NoDup (Js.Object_keys obj) -> Permutation obj obj' ->
  Js.property obj key = Js.property obj' key.
Proof.
  intros Hnd Hperm. induction Hperm as [|[k v] l l' Hperm IH
                                        |[k1 v1] [k2 v2] l|l l' l'' H1 IH1 H2 IH2].
  - reflexivity.
  - cbn. inversion Hnd; subst. now rewrite IH.
  - cbn. destruct (String.eqb k1 key) eqn:E1, (String.eqb k2 key) eqn:E2;
      try reflexivity.
    apply String.eqb_eq in E1, E2. subst k1 k2.
    cbn in Hnd. inversion Hnd as [|? ? Hnot _]; subst. cbn in Hnot. tauto.
  - rewrite IH1 by exact Hnd. apply IH2.
    unfold Js.Object_keys in *.
    eapply Permutation_NoDup; [|exact Hnd]. now apply Permutation_map.
Qed.

Lemma JSON_members_congr (obj obj' : Js.Object) (replacer : list string) :
  (forall key, Js.property obj key = Js.property obj' key) ->
  Js.JSON_members obj replacer = Js.JSON_members obj' replacer.
Proof.
  intros Hsame. induction replacer as [|k rest IH]; cbn; [reflexivity|].
  now rewrite Hsame, IH.
Qed.

(** X23.  The hash of a configuration object, and with it the cache key,
    does not depend on the order in which the object's properties were
    created: the property names are sorted before the object is written
    out.  Objects are given with their property names distinct, as the
    properties of a JavaScript object are. *)
Theorem hashObject_ignores_property_order
    {T} `{Serializable T} (items : list T) (obj obj' : Js.Object) :
  NoDup (Js.Object_keys obj) ->
  Permutation obj obj' ->
  PaginationUtils.hashObject obj = PaginationUtils.hashObject obj'
  /\ PaginationUtils.generateCacheKey items obj
     = PaginationUtils.generateCacheKey items obj'.
Proof.
  intros Hnd Hperm.
  assert (Hhash : PaginationUtils.hashObject obj = PaginationUtils.hashObject obj').
  { unfold PaginationUtils.hashObject, Js.JSON_stringify_object.
    assert (Hkeys : Js.sort (Js.Object_keys obj) = Js.sort (Js.Object_keys obj'))
      by (apply sort_of_permutation; unfold Js.Object_keys; now apply Permutation_map).
    assert (Hmembers : forall replacer,
               Js.JSON_members obj replacer = Js.JSON_members obj' replacer).
    { intros replacer. apply JSON_members_congr.
      intros key. now apply property_of_permutation. }
    now rewrite Hkeys, Hmembers. }
  split; [exact Hhash|].
  unfold PaginationUtils.generateCacheKey. cbv zeta. now rewrite Hhash.
Qed.

Lemma hashObject_ignores_property_order_witness :
  let obj := [("page", Js.Number 2); ("pageSize", Js.Number 10);
              ("enableCache", Js.Boolean true)] in
  let obj' := [("enableCache", Js.Boolean true); ("pageSize", Js.Number 10);
               ("page", Js.Number 2)] in
  PaginationUtils.hashObject obj = PaginationUtils.hashObject obj'
  /\ PaginationUtils.generateCacheKey [1; 2; 3] obj
     = PaginationUtils.generateCacheKey [1; 2; 3] obj'.
Proof.
  intros obj obj'.
  apply (@hashObject_ignores_property_order Z _ [1; 2; 3] obj obj').
  - subst obj. cbn. repeat constructor; cbn; intuition discriminate.
  - subst obj obj'. apply (Permutation_rev [_; _; _]).
Defined.
